(** * EverMemoryArchive: the agent loop, the context manager and the actor worker

    A shallow embedding of the core of the [ema] package, file by file:
    - [schema.ts] ([src/packages/ema/src/schema.ts]): messages, content
      blocks, tool calls, LLM responses;
    - [tools/base.ts] ([src/packages/ema/src/tools/base.ts]) and the
      final-reply tool ([src/unnamed/part_004]);
    - [agent.ts] ([src/packages/ema/src/agent.ts]): [ContextManager] (token
      gate and summarization) and [Agent.run] (the step-bounded LLM / tool
      loop with its events);
    - [memory/utils.ts] ([src/packages/ema/src/memory/utils.ts]) and
      [actor.ts] ([src/unnamed/part_008]): [ActorWorker] (input validation,
      queue, preemption and the serialized buffer-write chain);
    - [config.ts] ([src/packages/ema/src/config.ts]): the tools of
      [Config.baseTools];
    - [retry.ts] (the second part of [src/packages/ema/src/schema.ts]): the
      retry wrapper [asyncRetry].

    Conventions.  JavaScript numbers that count things are [Z] or [nat],
    the numbers of the retry configuration are rationals ([Q]); an optional
    field is an [option]; a value of type [unknown] is a [jsval];
    a thrown exception is an explicit result; an [async] method is cut at its
    [await]s into pieces that run without interruption.  Everything outside
    the package (the LLM provider, the tokenizer, tool implementations,
    [JSON.parse]) is a field of the record [World], so every theorem holds
    for every behaviour of these collaborators.  Handlers subscribed to the
    events are not part of the model: emitting an event records it. *)

From Stdlib Require Import ZArith QArith Qround Qminmax Lia Ascii DecimalString.
From stdpp Require Import base list strings.

(** ** Strings and JSON text

    A string is a sequence of bytes, each standing for one code unit; its
    length counts them.  Characters outside ASCII are copied as they are by
    the JSON quoting below (the escape of a lone surrogate has no counterpart
    here).  Numbers that count things are integers; a number inside a JSON
    value is kept as the text JavaScript prints for it. *)

Module Js.

Definition dquote : Ascii.ascii := Eval cbv in Ascii.ascii_of_nat 34.
Definition backslash : Ascii.ascii := Eval cbv in Ascii.ascii_of_nat 92.
Definition newline : Ascii.ascii := Eval cbv in Ascii.ascii_of_nat 10.
Definition nl : string := String newline EmptyString.
Definition quote : string := String dquote EmptyString.

(** The arrows of the round summaries, U+2192 and U+2190: one code unit
    each in the source, hence one byte each here (the low byte of the code
    unit). *)
Definition rightArrow : string :=
  Eval cbv in String (Ascii.ascii_of_nat 146) EmptyString.
Definition leftArrow : string :=
  Eval cbv in String (Ascii.ascii_of_nat 144) EmptyString.

(** [Array.prototype.join]. *)
Definition join (sep : string) (parts : list string) : string :=
  String.concat sep parts.

(** Template rendering of a count. *)
Definition showNat (n : nat) : string :=
  NilEmpty.string_of_uint (Nat.to_uint n).

(** JavaScript truthiness of a string: non-empty. *)
Definition truthy (s : string) : bool :=
  match s with EmptyString => false | String _ _ => true end.

(** [a || b] on optional strings: the first operand that is set and
    non-empty, otherwise the second; the result is unset only when neither is
    truthy and the second is unset. *)
Definition orElse (a b : option string) : option string :=
  match a with
  | Some s => if truthy s then Some s else b
  | None => b
  end.

Definition hexDigit (n : nat) : Ascii.ascii :=
  match n with
  | 0 => "0" | 1 => "1" | 2 => "2" | 3 => "3" | 4 => "4" | 5 => "5"
  | 6 => "6" | 7 => "7" | 8 => "8" | 9 => "9" | 10 => "a" | 11 => "b"
  | 12 => "c" | 13 => "d" | 14 => "e" | _ => "f"
  end%char.

(** One character of [QuoteJSONString]: the quote, the backslash and the
    control characters are escaped, everything else is copied. *)
Definition quoteChar (c : Ascii.ascii) : string :=
  let n := Ascii.nat_of_ascii c in
  if Nat.eqb n 34 then String backslash quote
  else if Nat.eqb n 92 then String backslash (String backslash EmptyString)
  else if Nat.eqb n 8 then String backslash "b"
  else if Nat.eqb n 12 then String backslash "f"
  else if Nat.eqb n 10 then String backslash "n"
  else if Nat.eqb n 13 then String backslash "r"
  else if Nat.eqb n 9 then String backslash "t"
  else if Nat.ltb n 32 then
    String backslash
      (String "u" (String "0" (String "0"
        (String (hexDigit (n / 16)) (String (hexDigit (n mod 16)) EmptyString)))))
  else String c EmptyString.

Fixpoint quoteBody (s : string) : string :=
  match s with
  | EmptyString => EmptyString
  | String c rest => quoteChar c +:+ quoteBody rest
  end.

(** [JSON.stringify] of a string. *)
Definition stringifyString (s : string) : string :=
  quote +:+ quoteBody s +:+ quote.

(** JSON values, as [JSON.parse] builds them.  A number is kept as the text
    that [String] and [JSON.stringify] print for it (["42"], ["0.5"],
    ["1e+21"]): the code only ever converts it.  The fields of an object are
    its own properties, in the order [Object.values] lists them. *)
#[warnings="-register-all"]
Inductive json :=
| JNull
| JBool (b : bool)
| JNum (text : string)
| JStr (s : string)
| JArr (items : list json)
| JObj (fields : list (string * json)).

(** A JavaScript value as a tool argument sees it: [undefined], a JSON value,
    or any other object, described by what its conversion to a string does
    ([inl]: the text it gives; [inr]: the message of the error it throws). *)
Inductive jsval :=
| VUndefined
| VJson (j : json)
| VExotic (converted : string + string).

(** A string as a JavaScript value. *)
Definition ofString (s : string) : jsval := VJson (JStr s).

(** An argument taken from a JSON object: the value of the key, or
    [undefined] when the key is missing. *)
Definition ofJson (o : option json) : jsval :=
  match o with
  | Some j => VJson j
  | None => VUndefined
  end.

Definition showZ (z : Z) : string :=
  match z with
  | Z0 => "0"
  | Zpos p => showNat (Pos.to_nat p)
  | Zneg p => "-" +:+ showNat (Pos.to_nat p)
  end.

(** [Object.hasOwn(o, key)] on a JSON object. *)
Definition hasOwn (key : string) (fields : list (string * json)) : bool :=
  existsb (fun kv => bool_decide (fst kv = key)) fields.

(** The message of the [TypeError] of [OrdinaryToPrimitive] (V8's words). *)
Definition cannotConvert : string := "Cannot convert object to primitive value".

(** [String(j)] on a JSON value; [None]: the conversion throws a
    [TypeError].
    - An array joins the conversions of its items with a comma, a [null]
      item giving the empty string ([Array.prototype.join]); an item whose
      conversion throws makes the whole conversion throw.
    - An object is converted by the [toString] it has.  Without an own
      property of this name that is [Object.prototype.toString], which gives
      ["[object Object]"].  An own [toString] is a JSON value, hence not
      callable; [valueOf], own or inherited, gives no primitive either, and
      the conversion throws. *)
Fixpoint jsonToString (j : json) : option string :=
  match j with
  | JNull => Some "null"
  | JBool true => Some "true"
  | JBool false => Some "false"
  | JNum text => Some text
  | JStr s => Some s
  | JArr items =>
      option_map (join ",")
        ((fix elements (l : list json) : option (list string) :=
            match l with
            | [] => Some []
            | i :: rest =>
                match match i with JNull => Some "" | _ => jsonToString i end with
                | None => None
                | Some s =>
                    match elements rest with
                    | None => None
                    | Some ss => Some (s :: ss)
                    end
                end
            end) items)
  | JObj fields => if hasOwn "toString" fields then None else Some "[object Object]"
  end.

(** [String(v ?? "")]: [undefined] and [null] are replaced by the empty
    string before the conversion; [inr] carries the message of the error
    thrown. *)
Definition stringOrEmpty (v : jsval) : string + string :=
  match v with
  | VUndefined => inl ""
  | VJson JNull => inl ""
  | VJson j =>
      match jsonToString j with
      | Some s => inl s
      | None => inr cannotConvert
      end
  | VExotic converted => converted
  end.

(** The methods every plain object inherits from [Object.prototype]. *)
Definition objectPrototypeMethods : list string :=
  ["constructor"; "__defineGetter__"; "__defineSetter__"; "hasOwnProperty";
   "__lookupGetter__"; "__lookupSetter__"; "isPrototypeOf"; "propertyIsEnumerable";
   "toString"; "valueOf"; "toLocaleString"].

(** A built-in function, known by the text [String] gives for it. *)
Definition nativeFunction (fname : string) : jsval :=
  VExotic (inl ("function " +:+ fname +:+ "() { [native code] }")).

(** [o[key]] for a key that is not an own property of the plain object [o]:
    the property is looked up in [Object.prototype].  [__proto__] gives the
    prototype itself, [constructor] the function [Object], the name of a
    method this method, any other key [undefined]. *)
Definition inherited (key : string) : jsval :=
  if bool_decide (key = "__proto__") then VExotic (inl "[object Object]")
  else if bool_decide (key = "constructor") then nativeFunction "Object"
  else if bool_decide (key ∈ objectPrototypeMethods) then nativeFunction key
  else VUndefined.

(** [p] at the start of [s]: what follows it. *)
Fixpoint stripPrefix (p s : string) : option string :=
  match p, s with
  | EmptyString, _ => Some s
  | String a p', String b s' => if Ascii.eqb a b then stripPrefix p' s' else None
  | String _ _, EmptyString => None
  end.

Definition dollar : Ascii.ascii := Eval cbv in Ascii.ascii_of_nat 36.

(** [GetSubstitution] for a search by string, where there are no captures:
    in the replacement text [$$] stands for a dollar sign, [$&] for the
    matched text, [$`] and [$'] for the text before and after the match;
    every other dollar sign stands for itself. *)
Fixpoint getSubstitution (matched before after replacement : string) : string :=
  match replacement with
  | EmptyString => EmptyString
  | String c rest =>
      if Ascii.eqb c dollar then
        match rest with
        | String d rest' =>
            if Ascii.eqb d dollar then
              String dollar (getSubstitution matched before after rest')
            else if Ascii.eqb d "&" then
              matched +:+ getSubstitution matched before after rest'
            else if Ascii.eqb d "`" then
              before +:+ getSubstitution matched before after rest'
            else if Ascii.eqb d "'" then
              after +:+ getSubstitution matched before after rest'
            else String c (getSubstitution matched before after rest)
        | EmptyString => String c EmptyString
        end
      else String c (getSubstitution matched before after rest)
  end.

(** The scan of [String.prototype.replaceAll] for a search string that is
    not empty: [before] is the text already passed, [skip] the number of
    characters of the current match still to pass.  Matches are found from
    left to right and do not overlap. *)
Fixpoint replaceAllFrom (pattern replacement : string) (skip : nat) (before s : string)
  : string :=
  match s with
  | EmptyString => EmptyString
  | String c rest =>
      match skip with
      | S k => replaceAllFrom pattern replacement k (before +:+ String c EmptyString) rest
      | 0 =>
          match stripPrefix pattern (String c rest) with
          | Some after =>
              getSubstitution pattern before after replacement +:+
              replaceAllFrom pattern replacement (String.length pattern - 1)
                (before +:+ String c EmptyString) rest
          | None =>
              String c
                (replaceAllFrom pattern replacement 0 (before +:+ String c EmptyString) rest)
          end
      end
  end.

(** [s.replaceAll(pattern, replacement)] for two strings, the first not
    empty. *)
Definition replaceAll (s pattern replacement : string) : string :=
  replaceAllFrom pattern replacement 0 EmptyString s.

End Js.

(** ** [schema.ts] *)

(** A content block.  The declared type only admits ["text"], the code
    still tests the tag at run time, so the tag is kept. *)
Record Content := { type : string; text : string }.

Definition textContent (s : string) : Content := {| type := "text"; text := s |}.

Definition isText (c : Content) : bool := bool_decide (type c = "text").

Record ToolCall := {
  tc_id : option string;
  tc_name : string;
  tc_args : list (string * Js.jsval);
  thoughtSignature : option string
}.

(** ** [tools/base.ts] *)

Record ToolResult := {
  success : bool;
  content : option string;
  error : option string
}.

(** What an [execute] call does.
    - [Returned r]: the promise resolves to the result [r].
    - [ReturnedNothing]: it resolves to [undefined] or [null].
    - [Threw ename emessage stack]: it rejects with a value that is neither
      [null] nor [undefined]; [ename] and [emessage] are the texts a template
      shows for its [name] and [message] (for an [Error] its name and
      message, ["undefined"] for a value without them), [stack] is its
      [stack], if it has one.
    - [ThrewNothing]: it rejects with [null] or [undefined]. *)
Inductive ExecOutcome :=
| Returned (r : ToolResult)
| ReturnedNothing
| Threw (ename emessage : string) (stack : option string)
| ThrewNothing.

(** A tool: its name, the ordered keys of [parameters.properties] when the
    schema has them, and [execute].  The first argument of [execute] is the
    number of external calls made so far in the run, so that a tool may answer
    differently each time. *)
Record Tool := {
  name : string;
  properties : option (list string);
  execute : nat -> list Js.jsval -> ExecOutcome
}.

Record UserMessage := { u_contents : list Content }.

Record ModelMessage := {
  m_contents : list Content;
  toolCalls : option (list ToolCall)
}.

Record ToolMessage := {
  t_id : option string;
  t_name : string;
  result : ToolResult
}.

Inductive Message :=
| MUser (u : UserMessage)
| MModel (m : ModelMessage)
| MTool (t : ToolMessage).

Record LLMResponse := {
  message : ModelMessage;
  finishReason : string;
  totalTokens : Z
}.

Definition isToolMessage (m : Message) : bool :=
  match m with MTool _ => true | _ => false end.

Definition isModelMessage (m : Message) : bool :=
  match m with MModel _ => true | _ => false end.

Definition isUserMessage (m : Message) : bool :=
  match m with MUser _ => true | _ => false end.

(** The documented contract of a [ToolResult]. *)
Definition toolResultInvariant (r : ToolResult) : Prop :=
  (success r = true -> is_Some (content r) /\ error r = None) /\
  (success r = false -> is_Some (error r)).

(** ** The final-reply tool *)

Module LLMReply.

Record t := {
  think : string;
  expression : string;
  action : string;
  response : string
}.

(** The argument object [{think, expression, action, response}]. *)
Record input := {
  i_think : Js.jsval;
  i_expression : Js.jsval;
  i_action : Js.jsval;
  i_response : Js.jsval
}.

(** [LLMReply.normalize] (part_004, lines 39-46): the four fields are converted in order; the first
    conversion that throws aborts the call. *)
Definition normalize (i : input) : t + string :=
  match Js.stringOrEmpty (i_think i) with
  | inr e => inr e
  | inl th =>
    match Js.stringOrEmpty (i_expression i) with
    | inr e => inr e
    | inl ex =>
      match Js.stringOrEmpty (i_action i) with
      | inr e => inr e
      | inl ac =>
        match Js.stringOrEmpty (i_response i) with
        | inr e => inr e
        | inl re =>
            inl {| think := th; expression := ex; action := ac; response := re |}
        end
      end
    end
  end.

(** [JSON.stringify(payload, null, 2)] of a reply: one field per line,
    indented by two spaces, in the order the fields were written. *)
Definition stringify2 (r : t) : string :=
  let field (k v : string) := "  " +:+ Js.stringifyString k +:+ ": " +:+ Js.stringifyString v in
  "{" +:+ Js.nl +:+
  field "think" (think r) +:+ "," +:+ Js.nl +:+
  field "expression" (expression r) +:+ "," +:+ Js.nl +:+
  field "action" (action r) +:+ "," +:+ Js.nl +:+
  field "response" (response r) +:+ Js.nl +:+
  "}".

End LLMReply.

Module FinalReplyTool.

Definition name : string := "final_reply".

Definition parameters : list string := ["think"; "expression"; "action"; "response"].

(** [FinalReplyTool.execute] (part_004, lines 72-95): the [try] block normalizes and serializes, the
    [catch] block turns a thrown error into a failed result. *)
Definition execute (think expression action response : Js.jsval) : ToolResult :=
  match LLMReply.normalize
          {| LLMReply.i_think := think; LLMReply.i_expression := expression;
             LLMReply.i_action := action; LLMReply.i_response := response |} with
  | inl payload =>
      {| success := true;
         content := Some (LLMReply.stringify2 payload);
         error := None |}
  | inr emessage =>
      {| success := false;
         content := None;
         error := Some ("Invalid structured reply: " +:+ emessage) |}
  end.

End FinalReplyTool.

(** ** [agent.ts]: events *)

(** The events of [AgentEventDefs].  An [Error] payload is kept as its
    message; a payload records the value at the moment of emission. *)
Inductive AgentEvent :=
| tokenEstimationFallbacked (err : string)
| summarizeMessagesStarted (localEstimatedTokens apiReportedTokens limit : Z)
| summarizeMessagesFinished (ok : bool) (msg : string)
    (counts : option (Z * Z * nat * nat))
| createSummaryFinished (ok : bool) (msg : string) (roundNum : nat)
    (summaryTextOrError : string)
| stepStarted (stepNumber maxSteps : nat)
| runFinished (ok : bool) (msg : string)
| llmResponseReceived (response : LLMResponse)
| toolCallStarted (toolCallId functionName : string)
    (callArgs : list (string * Js.jsval))
| toolCallFinished (ok : bool) (toolCallId functionName : string)
    (res : ToolResult)
| emaReplyReceived (reply : Js.json).

(** ** The collaborators *)

(** What [llm.generate] does: a response, a [RetryExhaustedError], or any
    other error. *)
Inductive GenerateOutcome :=
| Generated (r : LLMResponse)
| RetryExhausted (attempts : nat) (lastException : string)
| GenerateFailed (emessage : string).

(** Everything the agent calls and does not own.  [generate] and the tools
    take the number of external calls made so far, which makes them arbitrary
    functions of the history of the run.  [encode] is the length of
    [Tiktoken.encode] ([inr]: it throws); [JSON_parse] is [JSON.parse]
    ([None]: it throws a [SyntaxError]). *)
Record World := {
  generate : nat -> list Message -> list Tool -> option string -> GenerateOutcome;
  encode : string -> nat + string;
  stringifyToolCalls : list ToolCall -> string;
  JSON_parse : string -> option Js.json
}.

(** ** [agent.ts]: [ContextManager] *)

Record ContextManager := {
  tokenLimit : Z;
  tools : list Tool;
  messages : list Message;
  apiTotalTokens : Z;
  skipNextTokenCheck : bool
}.

Definition setMessages (ms : list Message) (cm : ContextManager) : ContextManager :=
  {| tokenLimit := tokenLimit cm; tools := tools cm; messages := ms;
     apiTotalTokens := apiTotalTokens cm;
     skipNextTokenCheck := skipNextTokenCheck cm |}.

Definition setApiTotalTokens (n : Z) (cm : ContextManager) : ContextManager :=
  {| tokenLimit := tokenLimit cm; tools := tools cm; messages := messages cm;
     apiTotalTokens := n; skipNextTokenCheck := skipNextTokenCheck cm |}.

Definition setSkipNextTokenCheck (b : bool) (cm : ContextManager) : ContextManager :=
  {| tokenLimit := tokenLimit cm; tools := tools cm; messages := messages cm;
     apiTotalTokens := apiTotalTokens cm; skipNextTokenCheck := b |}.

(** The constructor: no API total yet, no pending skip. *)
Definition newContextManager (limit : Z) (ms : list Message) (ts : list Tool)
  : ContextManager :=
  {| tokenLimit := limit; tools := ts; messages := ms;
     apiTotalTokens := 0; skipNextTokenCheck := false |}.

(** [toolDict.get]: the map is built from the tool list in order, so a later
    tool replaces an earlier one of the same name. *)
Fixpoint toolDict_get (fname : string) (ts : list Tool) : option Tool :=
  match ts with
  | [] => None
  | t :: rest =>
      match toolDict_get fname rest with
      | Some t' => Some t'
      | None => if bool_decide (name t = fname) then Some t else None
      end
  end.

Definition addUserMessage (contents : list Content) (cm : ContextManager) : ContextManager :=
  setMessages (messages cm ++ [MUser {| u_contents := contents |}]) cm.

Definition addModelMessage (response : LLMResponse) (cm : ContextManager) : ContextManager :=
  setMessages (messages cm ++ [MModel (message response)]) cm.

Definition addToolMessage (res : ToolResult) (fname : string) (toolCallId : option string)
    (cm : ContextManager) : ContextManager :=
  setMessages
    (messages cm ++ [MTool {| t_id := toolCallId; t_name := fname; result := res |}]) cm.

(** [updateApiTokens] (lines 203-207): the guard is the truthiness of the number. *)
Definition updateApiTokens (response : LLMResponse) (cm : ContextManager) : ContextManager :=
  if Z.eqb (totalTokens response) 0 then cm
  else setApiTotalTokens (totalTokens response) cm.

(** The state of a run: the context manager, the events emitted so far (in
    emission order) and the number of external calls made. *)
Record RunState := {
  contextManager : ContextManager;
  emitted : list AgentEvent;
  calls : nat
}.

Definition emit (e : AgentEvent) (st : RunState) : RunState :=
  {| contextManager := contextManager st; emitted := emitted st ++ [e];
     calls := calls st |}.

Definition setContext (cm : ContextManager) (st : RunState) : RunState :=
  {| contextManager := cm; emitted := emitted st; calls := calls st |}.

Definition tick (st : RunState) : RunState :=
  {| contextManager := contextManager st; emitted := emitted st;
     calls := S (calls st) |}.

(** [JSON.stringify(block)] for a content block. *)
Definition stringifyContent (c : Content) : string :=
  "{" +:+ Js.stringifyString "type" +:+ ":" +:+ Js.stringifyString (type c) +:+ "," +:+
  Js.stringifyString "text" +:+ ":" +:+ Js.stringifyString (text c) +:+ "}".

(** [JSON.stringify({content, error, success})]: unset fields are left out. *)
Definition stringifyResult (r : ToolResult) : string :=
  let opt (k : string) (v : option string) :=
    match v with
    | Some s => [Js.stringifyString k +:+ ":" +:+ Js.stringifyString s]
    | None => []
    end in
  "{" +:+
  Js.join "," (opt "content" (content r) ++ opt "error" (error r) ++
               [Js.stringifyString "success" +:+ ":" +:+
                (if success r then "true" else "false")]) +:+
  "}".

Definition contentPart (c : Content) : string :=
  if isText c then text c else stringifyContent c.

(** The strings of one message that are measured, in the order the code
    measures them. *)
Definition measuredParts (w : World) (m : Message) : list string :=
  match m with
  | MUser u => map contentPart (u_contents u)
  | MModel mm =>
      map contentPart (m_contents mm) ++
      match toolCalls mm with
      | Some tcs => [stringifyToolCalls w tcs]
      | None => []
      end
  | MTool t => [stringifyResult (result t)]
  end.

(** The [try] block of [estimateTokens] (lines 210-254): the first [encode] that throws
    leaves the block. *)
Fixpoint encodeParts (w : World) (parts : list string) : nat + string :=
  match parts with
  | [] => inl 0
  | p :: rest =>
      match encode w p with
      | inr e => inr e
      | inl n =>
          match encodeParts w rest with
          | inr e => inr e
          | inl k => inl (n + k)
          end
      end
  end.

Fixpoint countTokens (w : World) (ms : list Message) : nat + string :=
  match ms with
  | [] => inl 0
  | m :: rest =>
      match encodeParts w (measuredParts w m) with
      | inr e => inr e
      | inl n =>
          match countTokens w rest with
          | inr e => inr e
          | inl k => inl (n + 4 + k)
          end
      end
  end.

Definition totalChars (w : World) (ms : list Message) : nat :=
  list_sum (map (fun m => list_sum (map String.length (measuredParts w m))) ms).

(** [estimateTokensFallback] (lines 257-285): [Math.floor(totalChars / 2.5)]. *)
Definition estimateTokensFallback (w : World) (cm : ContextManager) : Z :=
  (2 * Z.of_nat (totalChars w (messages cm))) / 5.

Definition estimateTokens (w : World) (st : RunState) : Z * RunState :=
  match countTokens w (messages (contextManager st)) with
  | inl n => (Z.of_nat n, st)
  | inr e =>
      let st' := emit (tokenEstimationFallbacked e) st in
      (estimateTokensFallback w (contextManager st'), st')
  end.

(** [result.content || result.error || ""]. *)
Definition preview (r : ToolResult) : string :=
  match Js.orElse (Js.orElse (content r) (error r)) (Some "") with
  | Some s => s
  | None => ""
  end.

(** The text blocks of a message joined by newlines. *)
Definition joinedText (contents : list Content) : string :=
  Js.join Js.nl (map text (filter (fun c => isText c = true) contents)).

(** One line group of the textual rendering of a round. *)
Definition renderMessage (m : Message) : string :=
  match m with
  | MModel mm =>
      "Assistant: " +:+ joinedText (m_contents mm) +:+ Js.nl +:+
      match toolCalls mm with
      | Some (tc :: tcs) =>
          "  " +:+ Js.rightArrow +:+ " Called tools: " +:+ Js.join ", " (map tc_name (tc :: tcs)) +:+ Js.nl
      | _ => ""
      end
  | MTool t => "  " +:+ Js.leftArrow +:+ " Tool returned: " +:+ preview (result t) +:+ "..." +:+ Js.nl
  | MUser _ => ""
  end.

Definition summaryContent (ms : list Message) (roundNum : nat) : string :=
  "Round " +:+ Js.showNat roundNum +:+ " execution process:" +:+ Js.nl +:+ Js.nl +:+
  String.concat "" (map renderMessage ms).

Definition summaryPrompt (body : string) : string :=
  "Please provide a concise summary of the following Agent execution process:" +:+
  Js.nl +:+ Js.nl +:+ body +:+ Js.nl +:+ Js.nl +:+
  "Requirements:" +:+ Js.nl +:+
  "1. Focus on what tasks were completed and which tools were called" +:+ Js.nl +:+
  "2. Keep key execution results and important findings" +:+ Js.nl +:+
  "3. Be concise and clear, within 1000 words" +:+ Js.nl +:+
  "4. Use English" +:+ Js.nl +:+
  "5. Do not include " +:+ Js.quote +:+ "user" +:+ Js.quote +:+
  " related content, only summarize the Agent's execution process".

Definition summarizerPreamble : Message :=
  MUser {| u_contents :=
    [textContent "You are an assistant skilled at summarizing Agent execution processes."] |}.

(** [createSummary] (lines 428-503): the rendering of the round is sent to the model; the
    answer's text is the summary, and when the call fails the rendering itself
    is. *)
Definition createSummary (w : World) (ms : list Message) (roundNum : nat)
    (st : RunState) : string * RunState :=
  match ms with
  | [] => ("", st)
  | _ :: _ =>
      let body := summaryContent ms roundNum in
      let summaryMsg := MUser {| u_contents := [textContent (summaryPrompt body)] |} in
      match generate w (calls st) [summarizerPreamble; summaryMsg] [] None with
      | Generated response =>
          let summaryText := joinedText (m_contents (message response)) in
          (summaryText,
           emit (createSummaryFinished true "Summary generation succeeded."
                   roundNum summaryText) (tick st))
      | RetryExhausted _ e | GenerateFailed e =>
          (body,
           emit (createSummaryFinished false "Summary generation failed."
                   roundNum e) (tick st))
      end
  end.

(** The indices of the user messages, counted from [base]. *)
Fixpoint userIndicesFrom (base : nat) (ms : list Message) : list nat :=
  match ms with
  | [] => []
  | m :: rest =>
      if isUserMessage m then base :: userIndicesFrom (S base) rest
      else userIndicesFrom (S base) rest
  end.

Definition userIndices (ms : list Message) : list nat := userIndicesFrom 0 ms.

(** [Array.prototype.slice(from, to)] for indices within the array. *)
Definition slice {A} (from to : nat) (l : list A) : list A :=
  take (to - from) (drop from l).

Definition summaryMessage (summaryText : string) : Message :=
  MUser {| u_contents :=
    [textContent ("[Model Execution Summary]" +:+ Js.nl +:+ Js.nl +:+ summaryText)] |}.

(** The [for] loop of [summarizeMessages] (lines 359-389) over the user indices that remain,
    [i] being the loop counter.  The index read is always in range (it comes
    from the list itself); out of range nothing is pushed. *)
Fixpoint summarizeRounds (w : World) (ms : list Message) (i : nat)
    (remaining : list nat) (newMessages : list Message) (summaryCount : nat)
    (st : RunState) : list Message * nat * RunState :=
  match remaining with
  | [] => (newMessages, summaryCount, st)
  | userIdx :: rest =>
      let newMessages1 :=
        match ms !! userIdx with
        | Some m => newMessages ++ [m]
        | None => newMessages
        end in
      let nextUserIdx :=
        match rest with
        | next :: _ => next
        | [] => length ms
        end in
      let executionMessages := slice (userIdx + 1) nextUserIdx ms in
      if Nat.ltb 0 (length executionMessages) then
        let '(summaryText, st1) := createSummary w executionMessages (i + 1) st in
        if Js.truthy summaryText then
          summarizeRounds w ms (i + 1) rest
            (newMessages1 ++ [summaryMessage summaryText]) (summaryCount + 1) st1
        else summarizeRounds w ms (i + 1) rest newMessages1 summaryCount st1
      else summarizeRounds w ms (i + 1) rest newMessages1 summaryCount st
  end.

(** The start of the rebuilt list: the first message when it is not a user
    message. *)
Definition leadingMessage (ms : list Message) : list Message :=
  match ms with
  | m :: _ => if isUserMessage m then [] else [m]
  | [] => []
  end.

(** [summarizeMessages] (lines 300-425). *)
Definition summarizeMessages (w : World) (st : RunState) : RunState :=
  let cm := contextManager st in
  if skipNextTokenCheck cm then setContext (setSkipNextTokenCheck false cm) st
  else
    let '(estimatedTokens, st1) := estimateTokens w st in
    let shouldSummarize :=
      Z.ltb (tokenLimit cm) estimatedTokens || Z.ltb (tokenLimit cm) (apiTotalTokens cm) in
    if negb shouldSummarize then st1
    else
      let st2 :=
        emit (summarizeMessagesStarted estimatedTokens (apiTotalTokens cm) (tokenLimit cm))
          st1 in
      let indices := userIndices (messages cm) in
      if Nat.ltb (length indices) 1 then
        emit (summarizeMessagesFinished false
                "Insufficient messages, cannot summarize." None) st2
      else
        let '(newMessages, summaryCount, st3) :=
          summarizeRounds w (messages cm) 0 indices (leadingMessage (messages cm)) 0 st2 in
        let st4 :=
          setContext
            (setSkipNextTokenCheck true (setMessages newMessages (contextManager st3)))
            st3 in
        let '(newTokens, st5) := estimateTokens w st4 in
        emit (summarizeMessagesFinished true
                "Summary completed and API token count will update on next LLM call."
                (Some (estimatedTokens, newTokens, length indices, summaryCount)))
          st5.

(** ** [agent.ts]: [Agent] *)

Record AgentConfig := { maxSteps : nat; cfg_tokenLimit : Z }.

(** How the promise of [run] settles. *)
Inductive Settlement :=
| Resolved
| Rejected (emessage : string).

(** The constructor: a fresh context manager, nothing emitted yet. *)
Definition newAgent (config : AgentConfig) (ms : list Message) (ts : list Tool) : RunState :=
  {| contextManager := newContextManager (cfg_tokenLimit config) ms ts;
     emitted := [];
     calls := 0 |}.

(** [callArgs[key]]: the own property of this name, and without one the
    property inherited from [Object.prototype]. *)
Fixpoint argOf (key : string) (callArgs : list (string * Js.jsval)) : Js.jsval :=
  match callArgs with
  | [] => Js.inherited key
  | (k, v) :: rest => if bool_decide (k = key) then v else argOf key rest
  end.

Definition positionalArgs (tool : Tool) (callArgs : list (string * Js.jsval))
  : list Js.jsval :=
  match properties tool with
  | Some keys => map (fun key => argOf key callArgs) keys
  | None => map snd callArgs
  end.

Definition unknownTool (functionName : string) : ToolResult :=
  {| success := false; content := None;
     error := Some ("Unknown tool: " +:+ functionName) |}.

Definition executionFailed (ename emessage : string) (stack : option string) : ToolResult :=
  {| success := false; content := None;
     error := Some ("Tool execution failed: " +:+ ename +:+ ": " +:+ emessage +:+
                    Js.nl +:+ Js.nl +:+ "Traceback:" +:+ Js.nl +:+
                    match stack with Some s => s | None => "" end) |}.

(** Looking the tool up and executing it (lines 694-718 and the read of
    [result.success] at line 730); [None]: a [TypeError] is thrown.  The
    [catch] block reads [err.name], which throws when the tool has thrown
    [null] or [undefined]; and [result.success] throws when the tool has
    resolved to [undefined] or [null]. *)
Definition executeTool (functionName : string) (callArgs : list (string * Js.jsval))
    (st : RunState) : option ToolResult * RunState :=
  match toolDict_get functionName (tools (contextManager st)) with
  | None => (Some (unknownTool functionName), st)
  | Some tool =>
      match execute tool (calls st) (positionalArgs tool callArgs) with
      | Returned r => (Some r, tick st)
      | ReturnedNothing => (None, tick st)
      | Threw ename emessage stack =>
          (Some (executionFailed ename emessage stack), tick st)
      | ThrewNothing => (None, tick st)
      end
  end.

Definition clearContent (r : ToolResult) : ToolResult :=
  {| success := success r; content := None; error := error r |}.

Definition idOrEmpty (toolCallId : option string) : string :=
  match toolCallId with Some i => i | None => "" end.

(** [JSON.parse(result.content!)]: an unset content is parsed as the text
    ["undefined"]. *)
Definition parseContent (w : World) (r : ToolResult) : option Js.json :=
  JSON_parse w (match content r with Some s => s | None => "undefined" end).

(** The body of the loop over the tool calls of one response (lines
    663-765): the start of the call is announced, the tool is executed, the
    end of the call is announced, for a successful call of the reply tool the
    reply is parsed and emitted and the content of the result is cleared, and
    the result is added to the context.  The run is rejected by a
    [TypeError] of the execution, right after the start of the call, and by
    a content that does not parse, which makes [JSON.parse] throw. *)
Definition runToolCall (w : World) (toolCall : ToolCall) (st : RunState)
  : Settlement * RunState :=
  let toolCallId := tc_id toolCall in
  let functionName := tc_name toolCall in
  let callArgs := tc_args toolCall in
  let st1 := emit (toolCallStarted (idOrEmpty toolCallId) functionName callArgs) st in
  match executeTool functionName callArgs st1 with
  | (None, st2) => (Rejected "TypeError", st2)
  | (Some res, st2) =>
      if success res then
        let st3 :=
          emit (toolCallFinished true (idOrEmpty toolCallId) functionName res) st2 in
        if bool_decide (functionName = "ema_reply") && success res then
          match parseContent w res with
          | Some reply =>
              let st4 := emit (emaReplyReceived reply) st3 in
              (Resolved,
               setContext
                 (addToolMessage (clearContent res) functionName toolCallId
                    (contextManager st4))
                 st4)
          | None => (Rejected "SyntaxError", st3)
          end
        else
          (Resolved,
           setContext (addToolMessage res functionName toolCallId (contextManager st3)) st3)
      else
        let st3 :=
          emit (toolCallFinished false (idOrEmpty toolCallId) functionName res) st2 in
        (Resolved,
         setContext (addToolMessage res functionName toolCallId (contextManager st3)) st3)
  end.

Fixpoint runToolCalls (w : World) (tcs : list ToolCall) (st : RunState)
  : Settlement * RunState :=
  match tcs with
  | [] => (Resolved, st)
  | tc :: rest =>
      match runToolCall w tc st with
      | (Resolved, st') => runToolCalls w rest st'
      | (Rejected e, st') => (Rejected e, st')
      end
  end.

Definition maxStepsMessage (n : nat) : string :=
  "Task couldn't be completed after " +:+ Js.showNat n +:+ " steps.".

Definition retryFailedMessage (attempts : nat) (lastException : string) : string :=
  "LLM call failed after " +:+ Js.showNat attempts +:+ " retries" +:+ Js.nl +:+
  "Last error: " +:+ lastException.

(** The [while (step < maxSteps)] loop of [run] (lines 546-779);
    [remaining] is [maxSteps - step]. *)
Fixpoint runSteps (w : World) (limit : nat) (systemPrompt : string)
    (remaining step : nat) (st : RunState) : Settlement * RunState :=
  match remaining with
  | 0 => (Resolved, emit (runFinished false (maxStepsMessage limit)) st)
  | S remaining' =>
      let st1 := summarizeMessages w st in
      let st2 := emit (stepStarted (step + 1) limit) st1 in
      let cm := contextManager st2 in
      match generate w (calls st2) (messages cm) (tools cm) (Some systemPrompt) with
      | Generated response =>
          let st3 := emit (llmResponseReceived response) (tick st2) in
          let st4 :=
            setContext
              (addModelMessage response (updateApiTokens response (contextManager st3)))
              st3 in
          match toolCalls (message response) with
          | None | Some [] => (Resolved, emit (runFinished true (finishReason response)) st4)
          | Some tcs =>
              match runToolCalls w tcs st4 with
              | (Resolved, st5) => runSteps w limit systemPrompt remaining' (step + 1) st5
              | (Rejected e, st5) => (Rejected e, st5)
              end
          end
      | RetryExhausted attempts lastException =>
          (Resolved,
           emit (runFinished false (retryFailedMessage attempts lastException)) (tick st2))
      | GenerateFailed _ =>
          (Resolved, emit (runFinished false "LLM call failed.") (tick st2))
      end
  end.

(** [Agent.run]. *)
Definition run (w : World) (config : AgentConfig) (systemPrompt : string)
    (st : RunState) : Settlement * RunState :=
  runSteps w (maxSteps config) systemPrompt (maxSteps config) 0 st.

(** ** [memory/utils.ts] and [actor.ts]: the actor worker *)

Module Actor.

Inductive ActorStatus := preparing | running | idle.

Inductive BufferKind := user | actor.

Definition kindText (k : BufferKind) : string :=
  match k with user => "user" | actor => "actor" end.

Record BufferMessage := {
  kind : BufferKind;
  bm_name : string;
  bm_id : Z;
  contents : list Content;
  time : Z
}.

Record AgentState := {
  as_systemPrompt : string;
  as_messages : list Message;
  as_tools : list Tool
}.

(** The constructor arguments and what the worker calls outside the package.
    [config_systemPrompt] is the text of the prompt file of a configuration
    that has one; the worker of [Interleaved] below reads the file every
    time, and may not find it. *)
Record Env := {
  userId : Z;
  actorId : Z;
  config_systemPrompt : string;
  config_baseTools : list Tool;
  formatTime : Z -> string;
  stringifyReply : Js.json -> string
}.

(** An event of the actor: a message, or an agent event relayed under its
    name. *)
Inductive ActorEvent :=
| ActorMessageEvent (content : string)
| ActorAgentEvent (content : AgentEvent).

Inductive LogEntry :=
| LogDebug (msg : string)
| LogError (msg err : string).

(** The promise [bufferWritePromise]: the state of the last link that has
    settled, the write that is suspended inside [addBuffer], and the links
    whose callbacks have not run yet, oldest first. *)
Inductive PromiseState :=
| Fulfilled
| RejectedWith (err : string).

Record BufferChain := {
  settled : PromiseState;
  writing : option BufferMessage;
  waiting : list BufferMessage
}.

Record ActorWorker := {
  currentStatus : ActorStatus;
  agentState : option AgentState;
  _buffer : list BufferMessage;
  queue : list BufferMessage;
  hasEmaReplyInRun : bool;
  currentRunPromise : bool;
  processingQueue : bool;
  bufferWritePromise : BufferChain;
  resumeStateAfterAbort : bool;
  events : list ActorEvent;
  logged : list LogEntry;
  abortRequests : nat
}.

(** The field initializers of the class. *)
Definition newActorWorker : ActorWorker :=
  {| currentStatus := idle; agentState := None; _buffer := []; queue := [];
     hasEmaReplyInRun := false; currentRunPromise := false;
     processingQueue := false;
     bufferWritePromise := {| settled := Fulfilled; writing := None; waiting := [] |};
     resumeStateAfterAbort := false; events := []; logged := [];
     abortRequests := 0 |}.

(** *** [memory/utils.ts] *)

Definition bufferMessageToUserMessage (env : Env) (m : BufferMessage)
  : UserMessage + string :=
  match kind m with
  | actor => inr ("Expected user message, got " +:+ kindText (kind m))
  | user =>
      let context :=
        Js.join Js.nl
          ["<CONTEXT>";
           "<time>" +:+ formatTime env (time m) +:+ "</time>";
           "<id>" +:+ Js.showZ (bm_id m) +:+ "</id>";
           "<name>" +:+ bm_name m +:+ "</name>";
           "</CONTEXT>"] in
      inl {| u_contents := textContent context :: contents m |}
  end.

Definition bufferMessageToPrompt (env : Env) (m : BufferMessage) : string :=
  "- [" +:+ formatTime env (time m) +:+ "][role:" +:+ kindText (kind m) +:+
  "][id:" +:+ Js.showZ (bm_id m) +:+ "][name:" +:+ bm_name m +:+ "] " +:+
  Js.join Js.nl (map contentPart (contents m)).

Definition bufferMessageFromUser (uid : Z) (userName : string) (inputs : list Content)
    (now : Z) : BufferMessage :=
  {| kind := user; bm_name := userName; bm_id := uid; contents := inputs; time := now |}.

Definition bufferMessageFromEma (env : Env) (aid : Z) (actorName : string)
    (reply : Js.json) (now : Z) : BufferMessage :=
  {| kind := actor; bm_name := actorName; bm_id := aid;
     contents := [textContent (stringifyReply env reply)]; time := now |}.

(** *** Field updates *)

Definition setStatusField (s : ActorStatus) (a : ActorWorker) : ActorWorker :=
  {| currentStatus := s; agentState := agentState a; _buffer := _buffer a;
     queue := queue a; hasEmaReplyInRun := hasEmaReplyInRun a;
     currentRunPromise := currentRunPromise a; processingQueue := processingQueue a;
     bufferWritePromise := bufferWritePromise a;
     resumeStateAfterAbort := resumeStateAfterAbort a; events := events a;
     logged := logged a; abortRequests := abortRequests a |}.

Definition setAgentState (s : option AgentState) (a : ActorWorker) : ActorWorker :=
  {| currentStatus := currentStatus a; agentState := s; _buffer := _buffer a;
     queue := queue a; hasEmaReplyInRun := hasEmaReplyInRun a;
     currentRunPromise := currentRunPromise a; processingQueue := processingQueue a;
     bufferWritePromise := bufferWritePromise a;
     resumeStateAfterAbort := resumeStateAfterAbort a; events := events a;
     logged := logged a; abortRequests := abortRequests a |}.

Definition setBuffer (b : list BufferMessage) (a : ActorWorker) : ActorWorker :=
  {| currentStatus := currentStatus a; agentState := agentState a; _buffer := b;
     queue := queue a; hasEmaReplyInRun := hasEmaReplyInRun a;
     currentRunPromise := currentRunPromise a; processingQueue := processingQueue a;
     bufferWritePromise := bufferWritePromise a;
     resumeStateAfterAbort := resumeStateAfterAbort a; events := events a;
     logged := logged a; abortRequests := abortRequests a |}.

Definition setQueue (q : list BufferMessage) (a : ActorWorker) : ActorWorker :=
  {| currentStatus := currentStatus a; agentState := agentState a; _buffer := _buffer a;
     queue := q; hasEmaReplyInRun := hasEmaReplyInRun a;
     currentRunPromise := currentRunPromise a; processingQueue := processingQueue a;
     bufferWritePromise := bufferWritePromise a;
     resumeStateAfterAbort := resumeStateAfterAbort a; events := events a;
     logged := logged a; abortRequests := abortRequests a |}.

Definition setHasEmaReplyInRun (b : bool) (a : ActorWorker) : ActorWorker :=
  {| currentStatus := currentStatus a; agentState := agentState a; _buffer := _buffer a;
     queue := queue a; hasEmaReplyInRun := b;
     currentRunPromise := currentRunPromise a; processingQueue := processingQueue a;
     bufferWritePromise := bufferWritePromise a;
     resumeStateAfterAbort := resumeStateAfterAbort a; events := events a;
     logged := logged a; abortRequests := abortRequests a |}.

Definition setCurrentRunPromise (b : bool) (a : ActorWorker) : ActorWorker :=
  {| currentStatus := currentStatus a; agentState := agentState a; _buffer := _buffer a;
     queue := queue a; hasEmaReplyInRun := hasEmaReplyInRun a;
     currentRunPromise := b; processingQueue := processingQueue a;
     bufferWritePromise := bufferWritePromise a;
     resumeStateAfterAbort := resumeStateAfterAbort a; events := events a;
     logged := logged a; abortRequests := abortRequests a |}.

Definition setProcessingQueue (b : bool) (a : ActorWorker) : ActorWorker :=
  {| currentStatus := currentStatus a; agentState := agentState a; _buffer := _buffer a;
     queue := queue a; hasEmaReplyInRun := hasEmaReplyInRun a;
     currentRunPromise := currentRunPromise a; processingQueue := b;
     bufferWritePromise := bufferWritePromise a;
     resumeStateAfterAbort := resumeStateAfterAbort a; events := events a;
     logged := logged a; abortRequests := abortRequests a |}.

Definition setBufferWritePromise (c : BufferChain) (a : ActorWorker) : ActorWorker :=
  {| currentStatus := currentStatus a; agentState := agentState a; _buffer := _buffer a;
     queue := queue a; hasEmaReplyInRun := hasEmaReplyInRun a;
     currentRunPromise := currentRunPromise a; processingQueue := processingQueue a;
     bufferWritePromise := c;
     resumeStateAfterAbort := resumeStateAfterAbort a; events := events a;
     logged := logged a; abortRequests := abortRequests a |}.

Definition setResumeStateAfterAbort (b : bool) (a : ActorWorker) : ActorWorker :=
  {| currentStatus := currentStatus a; agentState := agentState a; _buffer := _buffer a;
     queue := queue a; hasEmaReplyInRun := hasEmaReplyInRun a;
     currentRunPromise := currentRunPromise a; processingQueue := processingQueue a;
     bufferWritePromise := bufferWritePromise a;
     resumeStateAfterAbort := b; events := events a;
     logged := logged a; abortRequests := abortRequests a |}.

Definition eventsEmit (e : ActorEvent) (a : ActorWorker) : ActorWorker :=
  {| currentStatus := currentStatus a; agentState := agentState a; _buffer := _buffer a;
     queue := queue a; hasEmaReplyInRun := hasEmaReplyInRun a;
     currentRunPromise := currentRunPromise a; processingQueue := processingQueue a;
     bufferWritePromise := bufferWritePromise a;
     resumeStateAfterAbort := resumeStateAfterAbort a; events := events a ++ [e];
     logged := logged a; abortRequests := abortRequests a |}.

Definition log (l : LogEntry) (a : ActorWorker) : ActorWorker :=
  {| currentStatus := currentStatus a; agentState := agentState a; _buffer := _buffer a;
     queue := queue a; hasEmaReplyInRun := hasEmaReplyInRun a;
     currentRunPromise := currentRunPromise a; processingQueue := processingQueue a;
     bufferWritePromise := bufferWritePromise a;
     resumeStateAfterAbort := resumeStateAfterAbort a; events := events a;
     logged := logged a ++ [l]; abortRequests := abortRequests a |}.

Definition agentAbort (a : ActorWorker) : ActorWorker :=
  {| currentStatus := currentStatus a; agentState := agentState a; _buffer := _buffer a;
     queue := queue a; hasEmaReplyInRun := hasEmaReplyInRun a;
     currentRunPromise := currentRunPromise a; processingQueue := processingQueue a;
     bufferWritePromise := bufferWritePromise a;
     resumeStateAfterAbort := resumeStateAfterAbort a; events := events a;
     logged := logged a; abortRequests := S (abortRequests a) |}.

(** *** The methods of [ActorWorker] *)

Definition isBusy (a : ActorWorker) : bool :=
  match currentStatus a with idle => false | _ => true end.

Definition statusText (s : ActorStatus) : string :=
  match s with preparing => "preparing" | running => "running" | idle => "idle" end.

Definition setStatus (s : ActorStatus) (a : ActorWorker) : ActorWorker :=
  eventsEmit (ActorMessageEvent ("Actor status: " +:+ statusText s +:+ "."))
    (setStatusField s a).

(** [enqueueBufferWrite] (part_008, lines 308-315): one more link at the end
    of the chain. *)
Definition enqueueBufferWrite (m : BufferMessage) (a : ActorWorker) : ActorWorker :=
  let c := bufferWritePromise a in
  setBufferWritePromise
    {| settled := settled c; writing := writing c; waiting := waiting c ++ [m] |} a.

(** One turn of the chain.
    - A write suspended in [addBuffer] (part_008, lines 296-300) resumes
      after its [await Promise.resolve()]: the record is pushed on the
      buffer and the link is fulfilled.
    - Otherwise the oldest waiting link reacts to the link before it: after a
      fulfilled link its [then] callback starts [addBuffer]; after a rejected
      link the callback is skipped, the [catch] handler logs the error and
      throws it again. *)
Definition bufferWriteTurn (env : Env) (a : ActorWorker) : ActorWorker :=
  let c := bufferWritePromise a in
  match writing c with
  | Some m =>
      setBufferWritePromise
        {| settled := Fulfilled; writing := None; waiting := waiting c |}
        (setBuffer (_buffer a ++ [m]) a)
  | None =>
      match waiting c with
      | [] => a
      | m :: rest =>
          match settled c with
          | Fulfilled =>
              setBufferWritePromise
                {| settled := Fulfilled; writing := Some m; waiting := rest |} a
          | RejectedWith e =>
              setBufferWritePromise
                {| settled := RejectedWith e; writing := None; waiting := rest |}
                (log (LogError "Failed to write buffer:" e) a)
          end
      end
  end.

(** [getBuffer]: [this._buffer.slice(-count)], the last [count] records;
    with [count] 0 the slice starts at index 0 and is the whole buffer. *)
Definition getBuffer (count : nat) (a : ActorWorker) : list BufferMessage :=
  match count with
  | 0 => _buffer a
  | S _ => drop (length (_buffer a) - count) (_buffer a)
  end.

Definition buildSystemPrompt (env : Env) (systemPrompt : string) (a : ActorWorker)
  : string :=
  let bufferWindow := getBuffer 10 a in
  let bufferText :=
    match bufferWindow with
    | [] => "None."
    | _ => Js.join Js.nl (map (bufferMessageToPrompt env) bufferWindow)
    end in
  Js.replaceAll systemPrompt "{MEMORY_BUFFER}" bufferText.

(** [emitEvent] (part_008, lines 252-262): a relayed reply marks the run and is written to the buffer;
    every event is then passed on. *)
Definition emitEvent (env : Env) (now : Z) (e : ActorEvent) (a : ActorWorker)
  : ActorWorker :=
  match e with
  | ActorAgentEvent (emaReplyReceived reply) =>
      eventsEmit e
        (enqueueBufferWrite (bufferMessageFromEma env (actorId env) "EMA" reply now)
           (setHasEmaReplyInRun true a))
  | _ => eventsEmit e a
  end.

(** How [work] goes on after its synchronous part. *)
Inductive Continuation :=
| AbortCurrentRun
| ProcessQueue.

(** [work] (part_008, lines 219-246), up to its first [await]: [inl] is the
    error thrown. *)
Definition work (env : Env) (inputs : list Content) (now : Z) (a : ActorWorker)
  : (string + Continuation) * ActorWorker :=
  match inputs with
  | [] => (inl "No inputs provided", a)
  | input :: _ =>
      if forallb isText inputs then
        let a1 :=
          emitEvent env now
            (ActorMessageEvent ("Received input: " +:+ text input +:+ ".")) a in
        let bufferMessage := bufferMessageFromUser (userId env) "User" inputs now in
        let a2 :=
          log (LogDebug ("Received input when [" +:+ statusText (currentStatus a1) +:+ "]."))
            a1 in
        let a3 := setQueue (queue a2 ++ [bufferMessage]) a2 in
        let a4 := enqueueBufferWrite bufferMessage a3 in
        if isBusy a4 then
          (inr AbortCurrentRun,
           setResumeStateAfterAbort (negb (hasEmaReplyInRun a4)) a4)
        else (inr ProcessQueue, a4)
      else (inl "Only text input is supported currently", a)
  end.

(** [abortCurrentRun] (part_008, lines 365-371): the agent is asked to abort when a run is in flight. *)
Definition abortCurrentRun (a : ActorWorker) : ActorWorker :=
  if currentRunPromise a then agentAbort a else a.

(** [batches.map(bufferMessageToUserMessage)]: the first record that is not
    a user record throws. *)
Fixpoint toUserMessages (env : Env) (batches : list BufferMessage)
  : list Message + string :=
  match batches with
  | [] => inl []
  | b :: rest =>
      match bufferMessageToUserMessage env b with
      | inr e => inr e
      | inl u =>
          match toUserMessages env rest with
          | inr e => inr e
          | inl us => inl (MUser u :: us)
          end
      end
  end.

(** One iteration of the loop of [processQueue] (part_008, lines 323-342),
    from the loop test to the
    call of [runWithState]: the queue is drained and the state of the run is
    resumed or built.  [Some e] is the error thrown by a conversion. *)
Definition startRun (env : Env) (a : ActorWorker) : option string * ActorWorker :=
  let a1 := setStatus preparing a in
  let batches := queue a1 in
  let a2 := setQueue [] a1 in
  match toUserMessages env batches with
  | inr e => (Some e, a2)
  | inl userMessages =>
      let a3 :=
        match resumeStateAfterAbort a2, agentState a2 with
        | true, Some s =>
            setAgentState
              (Some {| as_systemPrompt := as_systemPrompt s;
                       as_messages := as_messages s ++ userMessages;
                       as_tools := as_tools s |}) a2
        | _, _ =>
            setAgentState
              (Some {| as_systemPrompt := buildSystemPrompt env (config_systemPrompt env) a2;
                       as_messages := userMessages;
                       as_tools := config_baseTools env |}) a2
        end in
      let a4 := setHasEmaReplyInRun false (setResumeStateAfterAbort false a3) in
      (None, setCurrentRunPromise true (setStatus running a4))
  end.

(** The [finally] block that follows the run (part_008, lines 345-353). *)
Definition finishRun (a : ActorWorker) : ActorWorker :=
  let a1 := setCurrentRunPromise false a in
  let a2 := if resumeStateAfterAbort a1 then a1 else setAgentState None a1 in
  match queue a2, resumeStateAfterAbort a2 with
  | [], false => setStatus idle a2
  | _, _ => a2
  end.

(** The loop test of [processQueue] and what follows it: with an empty queue
    the driver ends; otherwise a run is started, and a conversion that throws
    ends the driver through the outer [finally]. *)
Definition processLoop (env : Env) (a : ActorWorker) : ActorWorker :=
  match queue a with
  | [] => setProcessingQueue false a
  | _ :: _ =>
      match startRun env a with
      | (Some _, a') => setProcessingQueue false a'
      | (None, a') => a'
      end
  end.

(** [processQueue]: a single driver at a time. *)
Definition processQueue (env : Env) (a : ActorWorker) : ActorWorker :=
  if processingQueue a then a
  else processLoop env (setProcessingQueue true a).

(** What can happen to a worker, one uninterrupted piece of code at a time:
    a call of [work], an event of the agent, the promise of the run settling,
    and a turn of the buffer-write chain.  An action runs the iteration of
    [processQueue] it starts in one piece: this is the schedule in which
    nothing comes in while the iteration is suspended at
    [await this.buildSystemPrompt(...)].  [Interleaved.step] below cuts the
    iteration there. *)
Inductive Action :=
| Work (inputs : list Content) (now : Z)
| Relay (e : AgentEvent) (now : Z)
| RunSettled (s : Settlement)
| BufferTurn.

Definition act (env : Env) (x : Action) (a : ActorWorker) : ActorWorker :=
  match x with
  | Work inputs now =>
      match work env inputs now a with
      | (inl _, a') => a'
      | (inr AbortCurrentRun, a') => abortCurrentRun a'
      | (inr ProcessQueue, a') => processQueue env a'
      end
  | Relay e now => emitEvent env now (ActorAgentEvent e) a
  | RunSettled s =>
      if currentRunPromise a then
        match s with
        | Resolved => processLoop env (finishRun a)
        | Rejected _ => setProcessingQueue false (finishRun a)
        end
      else a
  | BufferTurn => bufferWriteTurn env a
  end.

Definition perform (env : Env) (xs : list Action) (a : ActorWorker) : ActorWorker :=
  fold_left (fun s x => act env x s) xs a.

(** Letting the chain run until nothing is left to do. *)
Definition settle (env : Env) (a : ActorWorker) : ActorWorker :=
  Nat.iter (2 * length (waiting (bufferWritePromise a)) + 1) (bufferWriteTurn env) a.

End Actor.

(** * Concrete worlds

    The collaborators of the scenarios that the examples and the
    counterexamples run. *)

Module Scenario.

(** A tool registered as ["ema_reply"] that behaves like the final-reply
    tool of the package. *)
Definition replyTool : Tool :=
  {| name := "ema_reply";
     properties := Some FinalReplyTool.parameters;
     execute := fun _ args =>
       Returned (FinalReplyTool.execute
                   (nth 0 args Js.VUndefined) (nth 1 args Js.VUndefined)
                   (nth 2 args Js.VUndefined) (nth 3 args Js.VUndefined)) |}.

Definition replyCall : ToolCall :=
  {| tc_id := Some "call-1";
     tc_name := "ema_reply";
     tc_args := [("think", Js.ofString "t"); ("expression", Js.ofString "e");
                 ("action", Js.ofString "a"); ("response", Js.ofString "hi")];
     thoughtSignature := None |}.

Definition theReply : Js.json :=
  Js.JObj [("think", Js.JStr "t"); ("expression", Js.JStr "e");
           ("action", Js.JStr "a"); ("response", Js.JStr "hi")].

Definition theReplyText : string :=
  Eval vm_compute in
    LLMReply.stringify2
      {| LLMReply.think := "t"; LLMReply.expression := "e";
         LLMReply.action := "a"; LLMReply.response := "hi" |}.

Definition toolCallResponse : LLMResponse :=
  {| message := {| m_contents := []; toolCalls := Some [replyCall] |};
     finishReason := "tool_calls";
     totalTokens := 10 |}.

Definition finalResponse : LLMResponse :=
  {| message := {| m_contents := [textContent "done"]; toolCalls := None |};
     finishReason := "stop";
     totalTokens := 20 |}.

(** Scenario S1: the first call of the model asks for the reply tool, every
    later call ends the run. *)
Definition singleTurn : World :=
  {| generate := fun n _ _ _ =>
       if Nat.eqb n 0 then Generated toolCallResponse else Generated finalResponse;
     encode := fun s => inl (String.length s);
     stringifyToolCalls := fun _ => "[]";
     JSON_parse := fun s =>
       if bool_decide (s = theReplyText) then Some theReply else None |}.

Definition config : AgentConfig := {| maxSteps := 5; cfg_tokenLimit := 10000 |}.

Definition hello : Message := MUser {| u_contents := [textContent "hello"] |}.

Definition start : RunState := newAgent config [hello] [replyTool].

(** A model that answers every request with an empty message. *)
Definition silent : World :=
  {| generate := fun _ _ _ _ =>
       Generated {| message := {| m_contents := []; toolCalls := None |};
                    finishReason := "stop"; totalTokens := 0 |};
     encode := fun s => inl (String.length s);
     stringifyToolCalls := fun _ => "[]";
     JSON_parse := fun _ => None |}.

(** A model that is down: every call fails. *)
Definition offline : World :=
  {| generate := fun _ _ _ _ => GenerateFailed "offline";
     encode := fun s => inl (String.length s);
     stringifyToolCalls := fun _ => "[]";
     JSON_parse := fun _ => None |}.

Definition step (s : string) : Message :=
  MModel {| m_contents := [textContent s]; toolCalls := None |}.

Definition ask (s : string) : Message := MUser {| u_contents := [textContent s] |}.

(** Three user messages, each followed by messages of the model. *)
Definition threeRounds : list Message :=
  [ask "one"; step "working on one"; step "more on one";
   ask "two"; step "working on two";
   ask "three"; step "working on three"].

Definition overLimit : RunState :=
  newAgent {| maxSteps := 5; cfg_tokenLimit := 10 |} threeRounds [].

End Scenario.


(** * Rounds

    A round is a user message with the messages that follow it up to the
    next user message.  The definitions below describe the rebuilt list of a
    summarization by rounds, without indices; the theorems relate them to
    the index-based loop of [summarizeMessages]. *)

(** The messages before the first user message, and the rounds in order. *)
Fixpoint splitRounds (ms : list Message)
  : list Message * list (Message * list Message) :=
  match ms with
  | [] => ([], [])
  | m :: rest =>
      let '(before, rs) := splitRounds rest in
      if isUserMessage m then ([], (m, before) :: rs) else (m :: before, rs)
  end.

Definition rounds (ms : list Message) : list (Message * list Message) :=
  snd (splitRounds ms).

(** The summary texts [createSummary] returns for the rounds, in order; the
    round of index [i] has number [i + 1]. *)
Fixpoint roundSummaries (w : World) (i : nat) (rs : list (Message * list Message))
    (st : RunState) : list string * RunState :=
  match rs with
  | [] => ([], st)
  | r :: rest =>
      let '(summaryText, st1) := createSummary w (snd r) (i + 1) st in
      let '(texts, st') := roundSummaries w (i + 1) rest st1 in
      (summaryText :: texts, st')
  end.

(** Whether a round gets a summary message: it has messages to summarize and
    its summary text passes [keep]. *)
Definition summarized (keep : string -> bool) (r : Message * list Message)
    (summaryText : string) : bool :=
  match snd r with
  | [] => false
  | _ :: _ => keep summaryText
  end.

(** What a round contributes to the rebuilt list. *)
Definition rebuiltRound (keep : string -> bool) (r : Message * list Message)
    (summaryText : string) : list Message :=
  fst r :: (if summarized keep r summaryText then [summaryMessage summaryText] else []).

Definition rebuilt (keep : string -> bool) (rs : list (Message * list Message))
    (texts : list string) : list Message :=
  concat (zip_with (rebuiltRound keep) rs texts).

Definition summariesIn (keep : string -> bool) (rs : list (Message * list Message))
    (texts : list string) : nat :=
  list_sum (zip_with (fun r t => if summarized keep r t then 1 else 0) rs texts).

(** The rebuilt list as the specification words it: one summary message for
    every round that has messages to summarize. *)
Definition rebuiltAsSpecified := rebuilt (fun _ => true).

(** The rebuilt list with the guard of the code: a summary message only for
    a summary text that is not empty. *)
Definition rebuiltAsCoded := rebuilt Js.truthy.

(** Every summary the model writes is non-empty. *)
Definition writesSummaries (w : World) : Prop :=
  forall n ms ts sp r,
    generate w n ms ts sp = Generated r ->
    Js.truthy (joinedText (m_contents (message r))) = true.

Definition finishedNotice : string :=
  "Summary completed and API token count will update on next LLM call.".

(** The state in which the rounds are summarized: the estimate is taken and
    the start of the summarization is announced. *)
Definition started (w : World) (st : RunState) : RunState :=
  let cm := contextManager st in
  emit (summarizeMessagesStarted (fst (estimateTokens w st)) (apiTotalTokens cm)
          (tokenLimit cm))
       (snd (estimateTokens w st)).

Definition overLimit (w : World) (st : RunState) : Prop :=
  let cm := contextManager st in
  (tokenLimit cm < fst (estimateTokens w st) \/ tokenLimit cm < apiTotalTokens cm)%Z.

(** * Traces and stored results

    The vocabulary of the statements about [Agent.run]. *)

(** The events the run emitted, those of the starting state left out. *)
Definition runEvents (w : World) (config : AgentConfig) (systemPrompt : string)
    (st : RunState) : list AgentEvent :=
  drop (length (emitted st)) (emitted (snd (run w config systemPrompt st))).

(** An event that is neither a reply nor the successful end of a call of the
    reply tool. *)
Definition quiet (e : AgentEvent) : bool :=
  match e with
  | emaReplyReceived _ => false
  | toolCallFinished true _ functionName _ => negb (bool_decide (functionName = "ema_reply"))
  | _ => true
  end.

(** A stretch of events in which the successful end of every call of the
    reply tool is directly followed by the reply parsed from its content, and
    no reply occurs anywhere else. *)
Inductive Paired (w : World) : list AgentEvent -> Prop :=
| Paired_nil : Paired w []
| Paired_quiet e l :
    quiet e = true -> Paired w l -> Paired w (e :: l)
| Paired_reply id res reply l :
    parseContent w res = Some reply -> Paired w l ->
    Paired w (toolCallFinished true id "ema_reply" res :: emaReplyReceived reply :: l).

(** The last event of a rejected run: the successful end of a call of the
    reply tool whose content does not parse, or the start of a call whose
    execution throws a [TypeError]. *)
Definition rejecting (w : World) (e : AgentEvent) : Prop :=
  match e with
  | toolCallFinished true _ functionName res =>
      functionName = "ema_reply" /\ parseContent w res = None
  | toolCallStarted _ _ _ => True
  | _ => False
  end.

(** The events of a run, by the way its promise settles. *)
Definition RunTrace (w : World) (s : Settlement) (events : list AgentEvent) : Prop :=
  match s with
  | Resolved => Paired w events
  | Rejected _ =>
      exists before last,
        events = before ++ [last] /\ Paired w before /\ rejecting w last
  end.

(** The order the specification words: a reply comes before the successful
    end of the call of the reply tool it belongs to. *)
Definition replyBeforeFinished (events : list AgentEvent) : Prop :=
  forall j id res,
    events !! j = Some (toolCallFinished true id "ema_reply" res) ->
    exists i reply, i < j /\ events !! i = Some (emaReplyReceived reply).

(** The tools honour the contract of [ToolResult]. *)
Definition toolsKeepContract (ts : list Tool) : Prop :=
  forall t, t ∈ ts ->
  forall n args r, execute t n args = Returned r -> toolResultInvariant r.

(** A stored message as the specification words it: the result of a tool
    message meets the contract. *)
Definition storedAsSpecified (m : Message) : Prop :=
  match m with
  | MTool t => toolResultInvariant (result t)
  | _ => True
  end.

(** A stored message as the code leaves it: the result of a successful call
    of the reply tool has neither content nor error, every other result
    meets the contract. *)
Definition storedAsCoded (m : Message) : Prop :=
  match m with
  | MTool t =>
      if success (result t) && bool_decide (t_name t = "ema_reply")
      then content (result t) = None /\ error (result t) = None
      else toolResultInvariant (result t)
  | _ => True
  end.

(** What a piece of code adds to the events, and that it is quiet. *)
Definition addsQuiet (st st' : RunState) : Prop :=
  exists d, emitted st' = emitted st ++ d /\ Forall (fun e => quiet e = true) d.

(** What a piece of the run adds, by the way it settles. *)
Definition adds (w : World) (s : Settlement) (st st' : RunState) : Prop :=
  exists d, emitted st' = emitted st ++ d /\ RunTrace w s d.

(** What a piece of code keeps: the tools, and that every stored message is
    as the code leaves it. *)
Definition keeps (st st' : RunState) : Prop :=
  tools (contextManager st') = tools (contextManager st) /\
  (Forall storedAsCoded (messages (contextManager st)) ->
   Forall storedAsCoded (messages (contextManager st'))).

(** * The buffer-write chain: vocabulary *)

Module ChainSpec.

Import Actor.

(** A chain with nothing in flight and nothing waiting, not rejected. *)
Definition idleChain : BufferChain :=
  {| settled := Fulfilled; writing := None; waiting := [] |}.

(** The work left in a chain. *)
Definition pendingTurns (c : BufferChain) : nat :=
  2 * length (waiting c) + match writing c with Some _ => 1 | None => 0 end.

(** The errors among the entries of the log: the chain is the only code
    that logs one. *)
Definition isLogError (x : LogEntry) : bool :=
  match x with LogError _ _ => true | LogDebug _ => false end.

Definition writeErrors (l : list LogEntry) : list LogEntry :=
  filter (fun x => isLogError x = true) l.

(** What relates a worker to the writes [written] enqueued since its buffer
    was [start] and its log [log0]: the chain is not rejected and has logged
    no error, the buffer has grown by the first writes, in order, the next
    one is in flight if any is, and the others wait, in order. *)
Definition chainInvariant (start : list BufferMessage) (log0 : list LogEntry)
    (written : list BufferMessage) (a : ActorWorker) : Prop :=
  settled (bufferWritePromise a) = Fulfilled /\
  writeErrors (logged a) = writeErrors log0 /\
  exists stored,
    _buffer a = start ++ stored /\
    written = stored ++ option_list (writing (bufferWritePromise a)) ++
              waiting (bufferWritePromise a).

(** What a step other than a turn of the chain does to the store: the
    buffer stays, the chain gets the writes of the step at its end, and no
    error is logged. *)
Definition onlyEnqueues (ms : list BufferMessage) (a a' : ActorWorker) : Prop :=
  _buffer a' = _buffer a /\
  bufferWritePromise a'
    = {| settled := settled (bufferWritePromise a);
         writing := writing (bufferWritePromise a);
         waiting := waiting (bufferWritePromise a) ++ ms |} /\
  writeErrors (logged a') = writeErrors (logged a).

End ChainSpec.

(** * [actor.ts], cut at every [await]

    [Actor.act] runs an iteration of [processQueue] in one piece.  In the
    source an iteration that builds a fresh state is suspended at
    [await this.buildSystemPrompt(...)] (part_008, line 332): first inside
    [getBuffer], then until the prompt is handed back; calls of [work],
    events of the agent and turns of the buffer chain come in meanwhile.
    Here the suspended iteration is part of the state.  The getter
    [config.systemPrompt] ([config.ts], lines 276-284) reads the prompt file
    at every call and throws when it does not find it: [promptFile n] is
    what the read number [n] gives ([inr]: the getter throws). *)

Module Interleaved.

Import Actor.

(** The iteration of [processQueue] that is suspended inside
    [buildSystemPrompt], with its local variables: the batches it has
    drained and the template it has read; once [getBuffer] has returned,
    the prompt made from the window it gave. *)
Inductive Suspended :=
| AwaitingBuffer (batches : list BufferMessage) (template : string)
| AwaitingPrompt (batches : list BufferMessage) (prompt : string).

(** A worker, its suspended iteration if there is one, and the number of
    reads of the prompt file so far. *)
Record State := {
  worker : ActorWorker;
  suspended : option Suspended;
  reads : nat
}.

Definition initial : State :=
  {| worker := newActorWorker; suspended := None; reads := 0 |}.

(** The statements that start the run once the state of the run is in
    place (part_008, lines 339-342). *)
Definition launch (a : ActorWorker) : ActorWorker :=
  let a1 := setHasEmaReplyInRun false (setResumeStateAfterAbort false a) in
  setCurrentRunPromise true (setStatus running a1).

(** The loop test of [processQueue] (part_008, line 323) and what follows
    it without interruption.  With an empty queue the driver ends.
    Otherwise the queue is drained; with the resume flag set and a state
    present the records are appended to the state and the run starts; if
    not, the prompt file is read and the iteration is suspended inside
    [buildSystemPrompt].  An exception ends the driver through the outer
    [finally]. *)
Definition loop (env : Env) (promptFile : nat -> string + string) (s : State) : State :=
  let a := worker s in
  match queue a with
  | [] =>
      {| worker := setProcessingQueue false a; suspended := suspended s;
         reads := reads s |}
  | _ :: _ =>
      let a1 := setStatus preparing a in
      let batches := queue a1 in
      let a2 := setQueue [] a1 in
      match resumeStateAfterAbort a2, agentState a2 with
      | true, Some st =>
          match toUserMessages env batches with
          | inr _ =>
              {| worker := setProcessingQueue false a2; suspended := suspended s;
                 reads := reads s |}
          | inl userMessages =>
              {| worker :=
                   launch
                     (setAgentState
                        (Some {| as_systemPrompt := as_systemPrompt st;
                                 as_messages := as_messages st ++ userMessages;
                                 as_tools := as_tools st |}) a2);
                 suspended := suspended s;
                 reads := reads s |}
          end
      | _, _ =>
          match promptFile (reads s) with
          | inr _ =>
              {| worker := setProcessingQueue false a2; suspended := suspended s;
                 reads := S (reads s) |}
          | inl template =>
              {| worker := a2; suspended := Some (AwaitingBuffer batches template);
                 reads := S (reads s) |}
          end
      end
  end.

(** What can happen to a worker, one uninterrupted piece of code at a
    time. *)
Inductive Step :=
| Call (inputs : list Content) (now : Z)
| Event (e : AgentEvent) (now : Z)
| Settled (s : Settlement)
| ChainTurn
| BufferRead
| PromptBuilt.

(** - [Call]: a call of [work], up to its first [await].
    - [Event]: an event of the agent.
    - [Settled]: the promise of the run settles; the [finally] block runs
      and, unless the run has rejected, the loop goes on.
    - [ChainTurn]: a turn of the buffer-write chain.
    - [BufferRead]: [getBuffer] resumes inside [buildSystemPrompt] and takes
      its window of the buffer as it is now (part_008, lines 304-305).
    - [PromptBuilt]: the prompt is handed back and the iteration resumes:
      the batches are converted, the state of the run is set and the run
      starts (part_008, lines 331-342). *)
Definition step (env : Env) (promptFile : nat -> string + string) (x : Step) (s : State)
  : State :=
  let a := worker s in
  let keep (a' : ActorWorker) :=
    {| worker := a'; suspended := suspended s; reads := reads s |} in
  match x with
  | Call inputs now =>
      match work env inputs now a with
      | (inl _, a') => keep a'
      | (inr AbortCurrentRun, a') => keep (abortCurrentRun a')
      | (inr ProcessQueue, a') =>
          if processingQueue a' then keep a'
          else loop env promptFile (keep (setProcessingQueue true a'))
      end
  | Event e now => keep (emitEvent env now (ActorAgentEvent e) a)
  | Settled r =>
      if currentRunPromise a then
        match r with
        | Resolved => loop env promptFile (keep (finishRun a))
        | Rejected _ => keep (setProcessingQueue false (finishRun a))
        end
      else s
  | ChainTurn => keep (bufferWriteTurn env a)
  | BufferRead =>
      match suspended s with
      | Some (AwaitingBuffer batches template) =>
          {| worker := a;
             suspended := Some (AwaitingPrompt batches (buildSystemPrompt env template a));
             reads := reads s |}
      | _ => s
      end
  | PromptBuilt =>
      match suspended s with
      | Some (AwaitingPrompt batches prompt) =>
          match toUserMessages env batches with
          | inr _ =>
              {| worker := setProcessingQueue false a; suspended := None;
                 reads := reads s |}
          | inl userMessages =>
              {| worker :=
                   launch
                     (setAgentState
                        (Some {| as_systemPrompt := prompt;
                                 as_messages := userMessages;
                                 as_tools := config_baseTools env |}) a);
                 suspended := None;
                 reads := reads s |}
          end
      | _ => s
      end
  end.

Definition steps (env : Env) (promptFile : nat -> string + string) (xs : list Step)
    (s : State) : State :=
  fold_left (fun s x => step env promptFile x s) xs s.

(** The step that starts an action of [Actor], and the schedule in which
    the iteration it may start is resumed at once. *)
Definition ofAction (x : Action) : Step :=
  match x with
  | Work inputs now => Call inputs now
  | Relay e now => Event e now
  | RunSettled s => Settled s
  | BufferTurn => ChainTurn
  end.

Definition uninterrupted (x : Action) : list Step :=
  [ofAction x; BufferRead; PromptBuilt].

(** The buffer writes a step enqueues. *)
Definition enqueuedBy (env : Env) (x : Step) : list BufferMessage :=
  match x with
  | Call (input :: rest) now =>
      if forallb isText (input :: rest)
      then [bufferMessageFromUser (userId env) "User" (input :: rest) now]
      else []
  | Event (emaReplyReceived reply) now =>
      [bufferMessageFromEma env (actorId env) "EMA" reply now]
  | _ => []
  end.

Definition enqueued (env : Env) (xs : list Step) : list BufferMessage :=
  flat_map (enqueuedBy env) xs.

(** Letting the chain run until nothing is left to do. *)
Definition settle (env : Env) (s : State) : State :=
  {| worker := Actor.settle env (worker s); suspended := suspended s;
     reads := reads s |}.

End Interleaved.

Module ActorScenario.

Import Actor.

(** The constructor arguments of the examples. *)
Definition inMemory : Env :=
  {| userId := 1; actorId := 7;
     config_systemPrompt := "Recent: {MEMORY_BUFFER}";
     config_baseTools := [];
     formatTime := Js.showZ;
     stringifyReply := fun _ => "{}" |}.

Definition say (s : string) : list Content := [textContent s].

Definition image : Content := {| type := "image"; text := "" |}.

(** A worker in the middle of a run. *)
Definition busy (replied : bool) : ActorWorker :=
  {| currentStatus := running;
     agentState :=
       Some {| as_systemPrompt := "Recent: None.";
               as_messages := [MUser {| u_contents := say "first" |}];
               as_tools := [] |};
     _buffer := []; queue := [];
     hasEmaReplyInRun := replied; currentRunPromise := true;
     processingQueue := true;
     bufferWritePromise := {| settled := Fulfilled; writing := None; waiting := [] |};
     resumeStateAfterAbort := false; events := []; logged := [];
     abortRequests := 0 |}.

(** A prompt file that is there at every read. *)
Definition promptFile (n : nat) : string + string := inl "Recent: {MEMORY_BUFFER}".

(** A prompt file that is missing. *)
Definition noPromptFile (n : nat) : string + string :=
  inr "System prompt file not found: system_prompt.md".

(** An input, a second input that comes in while the iteration started by
    the first is suspended, a reply of the agent, and turns of the chain in
    between. *)
Definition schedule : list Interleaved.Step :=
  [Interleaved.Call (say "one") 1; Interleaved.ChainTurn; Interleaved.BufferRead;
   Interleaved.Call (say "two") 2; Interleaved.PromptBuilt;
   Interleaved.Event (emaReplyReceived (Js.JStr "hi")) 3; Interleaved.ChainTurn].

End ActorScenario.

(** * The shape of a run: vocabulary

    The events of a run by the step and the tool call they belong to. *)

(** [config.ts]: the tools a worker gives to its agent. *)
Module Config.

(** [new FinalReplyTool()] as the agent calls it: the positional arguments
    are bound to the four parameters of [execute], a missing one is
    [undefined]. *)
Definition finalReplyTool : Tool :=
  {| name := FinalReplyTool.name;
     properties := Some FinalReplyTool.parameters;
     execute := fun _ args =>
       Returned (FinalReplyTool.execute
                   (nth 0 args Js.VUndefined) (nth 1 args Js.VUndefined)
                   (nth 2 args Js.VUndefined) (nth 3 args Js.VUndefined)) |}.

(** [Config.baseTools] ([config.ts], line 287). *)
Definition baseTools : list Tool := [finalReplyTool].

End Config.

(** The events of [summarizeMessages] and of what it calls. *)
Definition isSummaryEvent (e : AgentEvent) : bool :=
  match e with
  | tokenEstimationFallbacked _
  | summarizeMessagesStarted _ _ _
  | summarizeMessagesFinished _ _ _
  | createSummaryFinished _ _ _ _ => true
  | _ => false
  end.


Definition isRunFinished (e : AgentEvent) : bool :=
  match e with runFinished _ _ => true | _ => false end.

(** The events of a tool call. *)
Definition isCallEvent (e : AgentEvent) : bool :=
  match e with
  | toolCallStarted _ _ _ | toolCallFinished _ _ _ _ | emaReplyReceived _ => true
  | _ => false
  end.


(** What a piece of code adds to the events, all of it in the class [P]. *)
Definition addsOnly (P : AgentEvent -> bool) (st st' : RunState) : Prop :=
  exists d, emitted st' = emitted st ++ d /\ Forall (fun e => P e = true) d.

(** The two announcements of a tool call. *)
Definition callStarted (tc : ToolCall) : AgentEvent :=
  toolCallStarted (idOrEmpty (tc_id tc)) (tc_name tc) (tc_args tc).

Definition callFinished (tc : ToolCall) (res : ToolResult) : AgentEvent :=
  toolCallFinished (success res) (idOrEmpty (tc_id tc)) (tc_name tc) res.

(** The events of one tool call, by the way the call leaves the run: its
    start, its end with the result, and for a successful call of the reply
    tool the reply parsed from the result; a content that does not parse
    rejects the run right after the end of the call, and an execution that
    throws a [TypeError] rejects it right after the start. *)
Inductive CallTrace (w : World) (tc : ToolCall) : Settlement -> list AgentEvent -> Prop :=
| CallTrace_plain res :
    success res && bool_decide (tc_name tc = "ema_reply") = false ->
    CallTrace w tc Resolved [callStarted tc; callFinished tc res]
| CallTrace_reply res reply :
    success res = true -> tc_name tc = "ema_reply" ->
    parseContent w res = Some reply ->
    CallTrace w tc Resolved [callStarted tc; callFinished tc res; emaReplyReceived reply]
| CallTrace_rejected res :
    success res = true -> tc_name tc = "ema_reply" ->
    parseContent w res = None ->
    CallTrace w tc (Rejected "SyntaxError") [callStarted tc; callFinished tc res]
| CallTrace_threw :
    CallTrace w tc (Rejected "TypeError") [callStarted tc].

(** The events of the tool calls of one response, in the order of the
    calls; a call that rejects the run is the last one executed. *)
Inductive CallsTrace (w : World) : list ToolCall -> Settlement -> list AgentEvent -> Prop :=
| CallsTrace_nil : CallsTrace w [] Resolved []
| CallsTrace_next tc tcs d s rest :
    CallTrace w tc Resolved d -> CallsTrace w tcs s rest ->
    CallsTrace w (tc :: tcs) s (d ++ rest)
| CallsTrace_rejected tc tcs e d :
    CallTrace w tc (Rejected e) d ->
    CallsTrace w (tc :: tcs) (Rejected e) d.

(** The events of a run from the moment [step] steps are done, by the way
    the run settles.  Every step starts with the events of the
    summarization, announces itself, and then
    - the call of the model fails: the run is finished, not ok;
    - the answer has no tool calls: it is announced and the run is finished,
      ok, with the finish reason of the answer;
    - the answer has tool calls: it is announced, the calls follow in order,
      and the next step follows unless a call rejects the run.
    When [limit] steps are done the run is finished, not ok. *)
Inductive StepsTrace (w : World) (limit : nat) : nat -> Settlement -> list AgentEvent -> Prop :=
| StepsTrace_exhausted :
    StepsTrace w limit limit Resolved [runFinished false (maxStepsMessage limit)]
| StepsTrace_failed step pre msg :
    step < limit -> Forall (fun e => isSummaryEvent e = true) pre ->
    StepsTrace w limit step Resolved
      (pre ++ [stepStarted (step + 1) limit; runFinished false msg])
| StepsTrace_done step pre response :
    step < limit -> Forall (fun e => isSummaryEvent e = true) pre ->
    (toolCalls (message response) = None \/ toolCalls (message response) = Some []) ->
    StepsTrace w limit step Resolved
      (pre ++ [stepStarted (step + 1) limit; llmResponseReceived response;
               runFinished true (finishReason response)])
| StepsTrace_rejected step pre response tcs e d :
    step < limit -> Forall (fun e => isSummaryEvent e = true) pre ->
    toolCalls (message response) = Some tcs ->
    CallsTrace w tcs (Rejected e) d ->
    StepsTrace w limit step (Rejected e)
      (pre ++ [stepStarted (step + 1) limit; llmResponseReceived response] ++ d)
| StepsTrace_step step pre response tcs d s rest :
    step < limit -> Forall (fun e => isSummaryEvent e = true) pre ->
    toolCalls (message response) = Some tcs -> tcs <> [] ->
    CallsTrace w tcs Resolved d ->
    StepsTrace w limit (S step) s rest ->
    StepsTrace w limit step s
      (pre ++ [stepStarted (step + 1) limit; llmResponseReceived response] ++ d ++ rest).

(** The tool messages the calls of one response leave in the context: one
    for every call, in the order of the calls, under the id and the name of
    the call. *)
Definition answers (tc : ToolCall) (m : Message) : Prop :=
  exists res, m = MTool {| t_id := tc_id tc; t_name := tc_name tc; result := res |}.




(** * Further scenarios *)

Module Scenario2.



(** A tool that throws [null]. *)
Definition nullTool : Tool :=
  {| name := "null";
     properties := None;
     execute := fun _ _ => ThrewNothing |}.

Definition nullCall : ToolCall :=
  {| tc_id := Some "call-3"; tc_name := "null"; tc_args := [];
     thoughtSignature := None |}.


Definition missingCall : ToolCall :=
  {| tc_id := None; tc_name := "search"; tc_args := [("q", Js.ofString "x")];
     thoughtSignature := None |}.

Definition finalReplyCall : ToolCall :=
  {| tc_id := Some "call-1";
     tc_name := "final_reply";
     tc_args := [("think", Js.ofString "t"); ("expression", Js.ofString "e");
                 ("action", Js.ofString "a"); ("response", Js.ofString "hi")];
     thoughtSignature := None |}.

(** A model that first calls the tool ["final_reply"] and then ends the
    run. *)
Definition finalReplies : World :=
  {| generate := fun n _ _ _ =>
       if Nat.eqb n 0
       then Generated
              {| message := {| m_contents := []; toolCalls := Some [finalReplyCall] |};
                 finishReason := "tool_calls"; totalTokens := 10 |}
       else Generated Scenario.finalResponse;
     encode := fun s => inl (String.length s);
     stringifyToolCalls := fun _ => "[]";
     JSON_parse := fun s =>
       if bool_decide (s = Scenario.theReplyText) then Some Scenario.theReply else None |}.

(** An agent with the tools of [Config.baseTools]. *)
Definition configured : RunState :=
  newAgent Scenario.config [Scenario.hello] Config.baseTools.

End Scenario2.

(** * Summarization: further vocabulary *)

(** The test [executionMessages.length > 0] of the loop of
    [summarizeMessages], on a round. *)
Definition hasExecution (r : Message * list Message) : bool :=
  Nat.ltb 0 (length (snd r)).

(** The number of rounds that have messages to summarize. *)
Definition roundsToSummarize (rs : list (Message * list Message)) : nat :=
  length (filter (fun r => hasExecution r = true) rs).

(** The number of tokens the tokenizer gives for a string it encodes. *)
Definition tokensOf (w : World) (p : string) : nat :=
  match encode w p with inl n => n | inr _ => 0 end.

(** The tokenizer encodes every measured string of the message. *)
Definition encodable (w : World) (m : Message) : Prop :=
  Forall (fun p => exists n, encode w p = inl n) (measuredParts w m).

(** The tokenizer throws on a measured string of the message. *)
Definition unencodable (w : World) (m : Message) : Prop :=
  Exists (fun p => exists e, encode w p = inr e) (measuredParts w m).

(** The tokens counted for a message: those of its measured strings and
    four for the message itself. *)
Definition messageTokens (w : World) (m : Message) : nat :=
  list_sum (map (tokensOf w) (measuredParts w m)) + 4.

(** * The states of a worker: vocabulary *)

Module WorkerSpec.

Import Actor.

(** The fields that decide what a worker does next. *)
Definition control (a : ActorWorker)
  : ActorStatus * option AgentState * list BufferMessage * bool * bool * bool :=
  (currentStatus a, agentState a, queue a, currentRunPromise a, processingQueue a,
   resumeStateAfterAbort a).

(** A worker at rest: idle, nothing queued, no state of a run kept, no run
    in flight and no driver of the queue. *)
Definition resting (a : ActorWorker) : Prop :=
  currentStatus a = idle /\ agentState a = None /\ queue a = [] /\
  currentRunPromise a = false /\ processingQueue a = false.

(** A worker waiting for a run: running, with the state of the run, the run
    in flight and the driver of the queue suspended on it. *)
Definition driving (a : ActorWorker) : Prop :=
  currentStatus a = running /\ is_Some (agentState a) /\
  currentRunPromise a = true /\ processingQueue a = true.

(** A worker that is busy with no run in flight and no driver of the
    queue. *)
Definition stalled (a : ActorWorker) : Prop :=
  isBusy a = true /\ currentRunPromise a = false /\ processingQueue a = false.

(** The text that replaces the placeholder of the prompt for a window of
    records. *)
Definition bufferText (env : Env) (window : list BufferMessage) : string :=
  Js.join Js.nl (map (bufferMessageToPrompt env) window).

(** The text a worker shows for its buffer: the lines of the window it
    takes, ["None."] when the buffer is empty. *)
Definition shownText (env : Env) (a : ActorWorker) : string :=
  let window := getBuffer 10 a in
  match window with
  | [] => "None."
  | _ => bufferText env window
  end.

Definition placeholder : string := "{MEMORY_BUFFER}".

(** A text without a given character. *)
Fixpoint hasChar (c : Ascii.ascii) (s : string) : bool :=
  match s with
  | EmptyString => false
  | String d rest => Ascii.eqb d c || hasChar c rest
  end.

Definition braceFree (s : string) : Prop := hasChar "{" s = false.

Definition dollarFree (s : string) : Prop := hasChar Js.dollar s = false.

(** The agent events among the events a worker has passed on, and the
    agent events a schedule relays, in order. *)
Definition agentEventsOf (l : list ActorEvent) : list AgentEvent :=
  omap (fun e => match e with ActorAgentEvent c => Some c | _ => None end) l.

Definition relayedBy (x : Action) : list AgentEvent :=
  match x with Relay e _ => [e] | _ => [] end.

Definition relayed (xs : list Action) : list AgentEvent := flat_map relayedBy xs.

End WorkerSpec.

(** * The states of a worker whose iteration can be suspended *)

Module InterleavedSpec.

Import Actor Interleaved WorkerSpec.

(** At rest, waiting for a run, stalled: as before, with no iteration
    suspended. *)
Definition atRest (s : State) : Prop := resting (worker s) /\ suspended s = None.

Definition awaitingRun (s : State) : Prop := driving (worker s) /\ suspended s = None.

Definition stalledWorker (s : State) : Prop := stalled (worker s) /\ suspended s = None.

(** Preparing a run: the status is [preparing], the driver of the queue is
    active and suspended inside [buildSystemPrompt], no run is in flight. *)
Definition preparingRun (s : State) : Prop :=
  currentStatus (worker s) = preparing /\ currentRunPromise (worker s) = false /\
  processingQueue (worker s) = true /\ is_Some (suspended s).

(** No run of the schedule rejects. *)
Definition runsResolve (xs : list Step) : Prop :=
  Forall (fun x => forall e, x <> Settled (Rejected e)) xs.

(** The prompt file is there at every read. *)
Definition promptFileFound (promptFile : nat -> string + string) : Prop :=
  forall n, exists template, promptFile n = inl template.

(** The batches a suspended iteration holds. *)
Definition batchesOf (o : option Suspended) : list BufferMessage :=
  match o with
  | Some (AwaitingBuffer batches _) | Some (AwaitingPrompt batches _) => batches
  | None => []
  end.

(** What the theorems carry along a schedule. *)
Definition invariant (s : State) : Prop :=
  (atRest s \/ preparingRun s \/ awaitingRun s \/ stalledWorker s) /\
  (suspended s = None -> resumeStateAfterAbort (worker s) = true ->
   queue (worker s) <> []) /\
  Forall (fun m => kind m = user) (queue (worker s)) /\
  Forall (fun m => kind m = user) (batchesOf (suspended s)).

End InterleavedSpec.

(** * [retry.ts]

    The retry wrapper around an asynchronous method.  The numbers of the
    configuration are finite; their arithmetic is exact.  ([NaN] as
    [max_retries] behaves like a negative number: the loop body never runs.
    With [Infinity] the loop has no bound, which the wrapper of this model
    does not cover.) *)

Module Retry.

Record RetryConfig := {
  enabled : bool;
  max_retries : Q;
  initial_delay : Q;
  max_delay : Q;
  exponential_base : Q
}.

(** [new RetryConfig()]. *)
Definition defaultConfig : RetryConfig :=
  {| enabled := true; max_retries := 3; initial_delay := 1; max_delay := 60;
     exponential_base := 2 |}.

Definition ofNat (n : nat) : Q := inject_Z (Z.of_nat n).

(** [calculateDelay]: exponential backoff, capped; in seconds. *)
Definition calculateDelay (attempt : nat) (initial_delay exponential_base max_delay : Q)
  : Q :=
  Qmin (initial_delay * exponential_base ^ Z.of_nat attempt) max_delay.

(** A value that is thrown.  The wrapper looks at its truthiness and puts
    its [message] into a template:
    - [null] or [undefined], of which no property can be read;
    - a value with the text the template shows for its [message] (for an
      [Error] its message, ["undefined"] for a value without one);
    - an object of which the message cannot be shown, because the getter
      throws or the message has no text (a symbol, an object whose
      conversion throws): reading and showing it throws [thrown]. *)
Inductive Exception :=
| Nothing
| Value (truthy : bool) (message : string)
| Unreadable (thrown : Exception).

(** [new Error(message)]. *)
Definition anError (message : string) : Exception := Value true message.

(** Truthiness: objects are truthy, [null] and [undefined] are not. *)
Definition truthyOf (e : Exception) : bool :=
  match e with
  | Nothing => false
  | Value truthy _ => truthy
  | Unreadable _ => true
  end.

(** The exceptions of which the message can be shown. *)
Definition readable (e : Exception) : bool :=
  match e with
  | Value _ _ => true
  | _ => false
  end.

(** How the promise of the wrapped method settles: with a value, with a
    [RetryExhaustedError], with the [TypeError] of reading the [message] of
    [null] or [undefined], or with another thrown value.  Every call of the
    original method settles. *)
Inductive Outcome (A : Type) :=
| Resolves (v : A)
| RejectsExhausted (lastException : Exception) (attempts : nat)
| RejectsTypeError
| Rejects (thrown : Exception).

Arguments Resolves {A} v.
Arguments RejectsExhausted {A} lastException attempts.
Arguments RejectsTypeError {A}.
Arguments Rejects {A} thrown.

(** What the wrapped method does on the way: it calls the original method,
    writes to the console (the values interpolated in the message are kept),
    calls [onRetry] and sleeps (in milliseconds). *)
Inductive Effect :=
| Called (attempt : nat)
| ConsoleError (maxRetries : Q)
| ConsoleWarn (call : nat) (emessage : string) (next : nat) (delay : Q)
| OnRetry (exception : Exception) (attempt : nat)
| Slept (ms : Q).

(** The number of values 0, 1, 2, ... that are at most [q]: the number of
    times the test [attempt <= max_retries] of the loop holds. *)
Definition iterations (q : Q) : nat :=
  if Qle_bool 0 q then S (Z.to_nat (Qfloor q)) else 0.

Section Wrapped.

Context {A : Type}.

(** The configuration, the optional callback ([Some e]: it throws [e]), and
    the original method: what its call number [attempt] does ([inr]: it
    throws). *)
Variable config : RetryConfig.
Variable onRetry : option (Exception -> nat -> option Exception).
Variable originalMethod : nat -> A + Exception.

(** The [for] loop of the wrapped method with [remaining] iterations to go,
    and the statements after it (lines 183-214).  In the [catch] block the
    test [attempt >= max_retries] comes first; the message of the exception
    is read by the constructor of [RetryExhaustedError] after
    [console.error], and by the template of [console.warn] before anything
    else is done.  After the loop the last exception is thrown again if it
    is truthy. *)
Fixpoint attemptsFrom (remaining attempt : nat) (lastException : option Exception)
  : Outcome A * list Effect :=
  match remaining with
  | 0 =>
      (match lastException with
       | Some e => if truthyOf e then Rejects e else Rejects (anError "Unknown error")
       | None => Rejects (anError "Unknown error")
       end, [])
  | S remaining' =>
      match originalMethod attempt with
      | inl v => (Resolves v, [Called attempt])
      | inr e =>
          if Qle_bool (max_retries config) (ofNat attempt) then
            (match e with
             | Nothing => RejectsTypeError
             | Value _ _ => RejectsExhausted e (attempt + 1)
             | Unreadable thrown => Rejects thrown
             end,
             [Called attempt; ConsoleError (max_retries config)])
          else
            match e with
            | Nothing => (RejectsTypeError, [Called attempt])
            | Unreadable thrown => (Rejects thrown, [Called attempt])
            | Value _ message =>
                let delay :=
                  calculateDelay attempt (initial_delay config) (exponential_base config)
                    (max_delay config) in
                let warn := ConsoleWarn (attempt + 1) message (attempt + 2) delay in
                match onRetry with
                | Some callback =>
                    match callback e (attempt + 1) with
                    | Some thrown =>
                        (Rejects thrown, [Called attempt; warn; OnRetry e (attempt + 1)])
                    | None =>
                        let '(outcome, effects) :=
                          attemptsFrom remaining' (attempt + 1) (Some e) in
                        (outcome,
                         [Called attempt; warn; OnRetry e (attempt + 1);
                          Slept (delay * 1000)] ++ effects)
                    end
                | None =>
                    let '(outcome, effects) :=
                      attemptsFrom remaining' (attempt + 1) (Some e) in
                    (outcome, [Called attempt; warn; Slept (delay * 1000)] ++ effects)
                end
            end
      end
  end.

(** The method [asyncRetry] installs: the loop runs for [attempt] from 0 as
    long as [attempt <= max_retries]. *)
Definition asyncRetry : Outcome A * list Effect :=
  attemptsFrom (iterations (max_retries config)) 0 None.

End Wrapped.

(** [wrapWithRetry]: the same method, installed on a descriptor of its
    own. *)
Definition wrapWithRetry {A} (fn : nat -> A + Exception) (config : RetryConfig)
    (onRetry : option (Exception -> nat -> option Exception))
  : Outcome A * list Effect :=
  asyncRetry config onRetry fn.

(** The calls of the original method, the callbacks and the sleeps of a
    list of effects. *)
Definition callsOf (effects : list Effect) : list nat :=
  omap (fun x => match x with Called n => Some n | _ => None end) effects.

Definition callbacksOf (effects : list Effect) : list (Exception * nat) :=
  omap (fun x => match x with OnRetry e n => Some (e, n) | _ => None end) effects.

Definition sleepsOf (effects : list Effect) : list Q :=
  omap (fun x => match x with Slept ms => Some ms | _ => None end) effects.

(** A callback that returns. *)
Definition returns (onRetry : option (Exception -> nat -> option Exception)) : Prop :=
  forall callback e n, onRetry = Some callback -> callback e n = None.

(** How the wrapped method can end after the call number [k] of the
    original method, where [last] is the greatest number 0, 1, 2, ... that is
    at most [max_retries]. *)
Definition endsAfter {A} (config : RetryConfig)
    (onRetry : option (Exception -> nat -> option Exception))
    (originalMethod : nat -> A + Exception) (outcome : Outcome A) (last k : nat) : Prop :=
  match outcome with
  | Resolves v => originalMethod k = inl v
  | RejectsExhausted e attempts =>
      attempts = k + 1 /\ k = last /\ (max_retries config == ofNat last)%Q /\
      readable e = true /\ originalMethod k = inr e
  | RejectsTypeError => originalMethod k = inr Nothing
  | Rejects thrown =>
      originalMethod k = inr (Unreadable thrown) \/
      (exists callback e,
         onRetry = Some callback /\ readable e = true /\ originalMethod k = inr e /\
         callback e (k + 1) = Some thrown) \/
      (exists e,
         k = last /\ ~ (max_retries config == ofNat last)%Q /\
         readable e = true /\ originalMethod k = inr e /\
         thrown = if truthyOf e then e else anError "Unknown error")
  end.

End Retry.

(** * Reading quoted text back

    The inverse of the quoting of one character, and the text of a reply
    with its four quoted bodies in a row: the tools of the proof that the
    content of a reply loses nothing. *)

Module Unquote.

Definition hexValue (c : Ascii.ascii) : option nat :=
  let n := Ascii.nat_of_ascii c in
  if Nat.leb 48 n && Nat.leb n 57 then Some (n - 48)
  else if Nat.leb 97 n && Nat.leb n 102 then Some (n - 87)
  else None.

(** The character a quoted text starts with, and the rest of the text;
    nothing when the text starts with a bare quote or a broken escape. *)
Definition unquoteHead (s : string) : option (Ascii.ascii * string) :=
  match s with
  | EmptyString => None
  | String c rest =>
      let n := Ascii.nat_of_ascii c in
      if Nat.eqb n 34 then None
      else if Nat.eqb n 92 then
        match rest with
        | EmptyString => None
        | String e rest' =>
            let k := Ascii.nat_of_ascii e in
            if Nat.eqb k 34 then Some (Js.dquote, rest')
            else if Nat.eqb k 92 then Some (Js.backslash, rest')
            else if Nat.eqb k 98 then Some (Ascii.ascii_of_nat 8, rest')
            else if Nat.eqb k 102 then Some (Ascii.ascii_of_nat 12, rest')
            else if Nat.eqb k 110 then Some (Ascii.ascii_of_nat 10, rest')
            else if Nat.eqb k 114 then Some (Ascii.ascii_of_nat 13, rest')
            else if Nat.eqb k 116 then Some (Ascii.ascii_of_nat 9, rest')
            else if Nat.eqb k 117 then
              match rest' with
              | String _ (String _ (String h (String l rest''))) =>
                  match hexValue h, hexValue l with
                  | Some a, Some b => Some (Ascii.ascii_of_nat (16 * a + b), rest'')
                  | _, _ => None
                  end
              | _ => None
              end
            else None
        end
      else Some (c, rest)
  end.

(** What comes before the quoted body of a field, the first field and the
    others, and what comes after the last one. *)
Definition opening (key : string) : string :=
  "{" +:+ Js.nl +:+ "  " +:+ Js.stringifyString key +:+ ": " +:+ Js.quote.

Definition separator (key : string) : string :=
  "," +:+ Js.nl +:+ "  " +:+ Js.stringifyString key +:+ ": " +:+ Js.quote.

Definition closing : string := Js.nl +:+ "}".

(** The text of [LLMReply.stringify2], every quoted body followed by its
    closing quote and the rest of the text. *)
Definition replyText (think expression action response : string) : string :=
  opening "think" +:+ Js.quoteBody think +:+
  String Js.dquote (separator "expression" +:+ Js.quoteBody expression +:+
  String Js.dquote (separator "action" +:+ Js.quoteBody action +:+
  String Js.dquote (separator "response" +:+ Js.quoteBody response +:+
  String Js.dquote closing))).

End Unquote.

(** * Converting arguments to strings: vocabulary *)

(** A JSON value that is an object with an own property [toString], or an
    array that holds one, at any depth. *)
Fixpoint holdsOwnToString (j : Js.json) : bool :=
  match j with
  | Js.JObj fields => Js.hasOwn "toString" fields
  | Js.JArr items => existsb holdsOwnToString items
  | _ => false
  end.

(** The failure branch of [FinalReplyTool.execute] as the specification
    words it: no arguments, missing or JSON values, reach it. *)
Definition failureUnreachable : Prop :=
  forall th ex ac re : option Js.json,
    success (FinalReplyTool.execute (Js.ofJson th) (Js.ofJson ex) (Js.ofJson ac)
               (Js.ofJson re)) = true.

(** [{"toString": 1}]. *)
Definition toStringObject : Js.json := Js.JObj [("toString", Js.JNum "1")].

(** The items of an array, converted one after the other: a [null] item
    gives the empty string ([Array.prototype.join]). *)
Definition itemText (i : Js.json) : option string :=
  match i with Js.JNull => Some "" | _ => Js.jsonToString i end.

Fixpoint elements (l : list Js.json) : option (list string) :=
  match l with
  | [] => Some []
  | i :: rest =>
      match itemText i with
      | None => None
      | Some s =>
          match elements rest with
          | None => None
          | Some ss => Some (s :: ss)
          end
      end
  end.

(** A text between double quotes. *)
Definition quoted (s : string) : string := Js.quote +:+ s +:+ Js.quote.

(** The content of the reply whose [think] is the three characters [a],
    double quote, [b], whose [expression] is empty, whose [action] is
    [true] and whose [response] is [1,,2], character by character: the
    quote inside [think] is escaped by a backslash. *)
Definition sampleContent : string :=
  "{" +:+ Js.nl +:+
  "  " +:+ quoted "think" +:+ ": " +:+
    quoted ("a" +:+ String Js.backslash Js.quote +:+ "b") +:+ "," +:+ Js.nl +:+
  "  " +:+ quoted "expression" +:+ ": " +:+ quoted "" +:+ "," +:+ Js.nl +:+
  "  " +:+ quoted "action" +:+ ": " +:+ quoted "true" +:+ "," +:+ Js.nl +:+
  "  " +:+ quoted "response" +:+ ": " +:+ quoted "1,,2" +:+ Js.nl +:+
  "}".
(** * Verification *)

(** ** The final-reply tool *)

Section FinalReply.

Import LLMReply Unquote.

Lemma append_assoc (a b c : string) : (a +:+ b) +:+ c = a +:+ (b +:+ c).
Proof.
  induction a as [|x a IH]; [reflexivity|].
  change (String x ((a +:+ b) +:+ c) = String x (a +:+ (b +:+ c))).
  f_equal. exact IH.
Qed.

(** The text of a reply, field by field. *)
Lemma stringify2_replyText (r : LLMReply.t) :
  LLMReply.stringify2 r
  = replyText (LLMReply.think r) (LLMReply.expression r) (LLMReply.action r)
      (LLMReply.response r).
Proof.
  unfold LLMReply.stringify2, replyText, opening, separator, closing.
  unfold Js.stringifyString at 2 4 6 8.
  rewrite !append_assoc. reflexivity.
Qed.

(** Induction on JSON values, through the items of arrays. *)
Lemma json_nested_ind (P : Js.json -> Prop) :
  P Js.JNull -> (forall b, P (Js.JBool b)) -> (forall t, P (Js.JNum t)) ->
  (forall s, P (Js.JStr s)) ->
  (forall items, Forall P items -> P (Js.JArr items)) ->
  (forall fields, P (Js.JObj fields)) ->
  forall j, P j.
Proof.
  intros Hnull Hbool Hnum Hstr Harr Hobj.
  fix IH 1.
  intros [|b|t|s|items|fields];
    [exact Hnull|apply Hbool|apply Hnum|apply Hstr| |apply Hobj].
  apply Harr. induction items as [|i items IHitems]; constructor;
    [apply IH|exact IHitems].
Qed.

Lemma jsonToString_array (items : list Js.json) :
  Js.jsonToString (Js.JArr items) = option_map (Js.join ",") (elements items).
Proof. reflexivity. Qed.

Lemma itemText_throws (i : Js.json) :
  itemText i = None <-> Js.jsonToString i = None.
Proof. destruct i; try reflexivity. split; discriminate. Qed.

Lemma elements_throws (items : list Js.json) :
  Forall (fun j => Js.jsonToString j = None <-> holdsOwnToString j = true) items ->
  elements items = None <-> existsb holdsOwnToString items = true.
Proof.
  induction 1 as [|i items Hi _ IH]; cbn [elements existsb].
  - split; discriminate.
  - rewrite orb_true_iff, <- IH, <- Hi, <- itemText_throws.
    destruct (itemText i), (elements items); split; intros H;
      try discriminate H; auto; destruct H as [H|H]; discriminate H.
Qed.

(** An array whose items can all be converted gives their texts, joined by
    commas. *)
Lemma jsonToString_joins (items : list Js.json) (texts : list string) :
  Forall2 (fun i t => itemText i = Some t) items texts ->
  Js.jsonToString (Js.JArr items) = Some (Js.join "," texts).
Proof.
  intros H. rewrite jsonToString_array.
  assert (He : elements items = Some texts).
  { induction H as [|i t items texts Hi _ IH]; [reflexivity|].
    cbn [elements]. rewrite Hi, IH. reflexivity. }
  rewrite He. reflexivity.
Qed.

(** The conversion [String(j)] throws exactly on an object with an own
    [toString] and on an array that holds one. *)
Lemma jsonToString_throws (j : Js.json) :
  Js.jsonToString j = None <-> holdsOwnToString j = true.
Proof.
  induction j as [|b|t|s|items IH|fields] using json_nested_ind;
    try (cbn; split; discriminate).
  - destruct b; cbn; split; discriminate.
  - rewrite jsonToString_array. cbn [holdsOwnToString].
    rewrite <- (elements_throws items IH).
    destruct (elements items); cbn; split; auto; discriminate.
  - cbn. destruct (Js.hasOwn "toString" fields); split; auto; discriminate.
Qed.

(** On strings the conversion [String(v ?? "")] is the identity. *)
Lemma stringOrEmpty_str (s : string) :
  Js.stringOrEmpty (Js.ofString s) = inl s.
Proof. reflexivity. Qed.

(** What [String(v ?? "")] makes of a JSON argument: a missing or [null]
    argument gives the empty string, any other value is converted, and the
    conversion may throw. *)
Lemma stringOrEmpty_ofJson (o : option Js.json) :
  Js.stringOrEmpty (Js.ofJson o)
  = match o with
    | Some Js.JNull | None => inl ""
    | Some j =>
        match Js.jsonToString j with
        | Some s => inl s
        | None => inr Js.cannotConvert
        end
    end.
Proof. destruct o as [[]|]; reflexivity. Qed.

(** C10 (as amended). [FinalReplyTool.execute] converts each of its four
    arguments with [String(x ?? "")], in the order [think], [expression],
    [action], [response].  A missing or [null] argument gives the empty
    string, a string itself, [true] and [false] their names, a number its
    text, an array the conversions of its items joined by commas, an object
    ["[object Object]"]; the conversion throws exactly for an object with an
    own property [toString] and for an array that holds such an object.
    When the four conversions return, the result has [success] true and as
    content the two-space JSON text of the four strings; in particular for
    all string arguments.  When one of them throws, the [catch] branch is
    taken: the result has [success] false, no content, and the error
    ["Invalid structured reply: Cannot convert object to primitive
    value"].  The last part is a call written out: a string with a quote in
    it, a missing argument, [true] and the array [[1, null, 2]] give the
    text [sampleContent]. *)
Theorem FinalReplyTool_execute_by_conversion (th ex ac re : option Js.json) :
  let coerce (o : option Js.json) : option string :=
    match o with
    | Some Js.JNull | None => Some ""
    | Some j => Js.jsonToString j
    end in
  FinalReplyTool.execute (Js.ofJson th) (Js.ofJson ex) (Js.ofJson ac) (Js.ofJson re)
  = match coerce th, coerce ex, coerce ac, coerce re with
    | Some s1, Some s2, Some s3, Some s4 =>
        {| success := true; content := Some (replyText s1 s2 s3 s4); error := None |}
    | _, _, _, _ =>
        {| success := false; content := None;
           error := Some "Invalid structured reply: Cannot convert object to primitive value" |}
    end /\
  (forall s1 s2 s3 s4 : string,
     FinalReplyTool.execute (Js.ofString s1) (Js.ofString s2)
                            (Js.ofString s3) (Js.ofString s4)
     = {| success := true; content := Some (replyText s1 s2 s3 s4); error := None |}) /\
  (forall j, Js.jsonToString j = None <-> holdsOwnToString j = true) /\
  (forall s t fields,
     Js.jsonToString (Js.JStr s) = Some s /\
     Js.jsonToString (Js.JBool true) = Some "true" /\
     Js.jsonToString (Js.JBool false) = Some "false" /\
     Js.jsonToString (Js.JNum t) = Some t /\
     Js.jsonToString (Js.JArr [Js.JStr s; Js.JNull; Js.JArr [Js.JNum t; Js.JStr s]])
       = Some (s +:+ ",," +:+ t +:+ "," +:+ s) /\
     (Js.hasOwn "toString" fields = false ->
      Js.jsonToString (Js.JObj fields) = Some "[object Object]")) /\
  (forall items texts,
     Forall2 (fun i t => itemText i = Some t) items texts ->
     Js.jsonToString (Js.JArr items) = Some (Js.join "," texts)) /\
  FinalReplyTool.execute
    (Js.ofJson (Some (Js.JStr ("a" +:+ Js.quote +:+ "b")))) (Js.ofJson None)
    (Js.ofJson (Some (Js.JBool true)))
    (Js.ofJson (Some (Js.JArr [Js.JNum "1"; Js.JNull; Js.JNum "2"])))
  = {| success := true; content := Some sampleContent; error := None |}.
Proof.
  intros coerce. split; [|split; [|split; [|split; [|split]]]].
  - unfold FinalReplyTool.execute, normalize.
    cbn [i_think i_expression i_action i_response].
    rewrite !stringOrEmpty_ofJson.
    assert (Hc : forall o,
              match o with
              | Some Js.JNull | None => inl ""
              | Some j =>
                  match Js.jsonToString j with
                  | Some s => inl s
                  | None => inr Js.cannotConvert
                  end
              end
              = match coerce o with
                | Some s => inl s
                | None => @inr string string Js.cannotConvert
                end).
    { intros [[]|]; reflexivity. }
    rewrite !Hc.
    destruct (coerce th) as [s1|]; [|reflexivity].
    destruct (coerce ex) as [s2|]; [|reflexivity].
    destruct (coerce ac) as [s3|]; [|reflexivity].
    destruct (coerce re) as [s4|]; [|reflexivity].
    rewrite stringify2_replyText. reflexivity.
  - intros s1 s2 s3 s4. unfold FinalReplyTool.execute, normalize.
    cbn [i_think i_expression i_action i_response]. rewrite !stringOrEmpty_str.
    rewrite stringify2_replyText. reflexivity.
  - exact jsonToString_throws.
  - intros s t fields. repeat split; try reflexivity.
    intros H. cbn. rewrite H. reflexivity.
  - exact jsonToString_joins.
  - vm_compute. reflexivity.
Qed.

(** Whatever its arguments, the tool returns a result that meets the
    contract of [ToolResult]. *)
Lemma FinalReplyTool_execute_invariant (a b c d : Js.jsval) :
  toolResultInvariant (FinalReplyTool.execute a b c d).
Proof.
  unfold FinalReplyTool.execute.
  destruct (normalize _); split; simpl; intros; try discriminate; eauto.
Qed.

End FinalReply.

(** C10 (counterexample). An argument that is an object with an own
    property [toString], such as [{"toString": 1}], cannot be converted:
    [execute] takes its [catch] branch and returns a failed result, whatever
    the other arguments are, here three strings. *)
Lemma FinalReplyTool_execute_fails_on_toString_object :
  FinalReplyTool.execute (Js.VJson toStringObject) (Js.ofString "e") (Js.ofString "a")
    (Js.ofString "hi")
  = {| success := false; content := None;
       error := Some "Invalid structured reply: Cannot convert object to primitive value" |} /\
  ~ failureUnreachable.
Proof.
  split; [reflexivity|].
  intros H.
  specialize (H (Some toStringObject) (Some (Js.JStr "e")) (Some (Js.JStr "a"))
                (Some (Js.JStr "hi"))).
  discriminate H.
Qed.

(** ** The context manager: token gate *)

Section TokenGate.

Variable w : World.

Lemma estimateTokens_context (st : RunState) :
  contextManager (snd (estimateTokens w st)) = contextManager st.
Proof. unfold estimateTokens. destruct (countTokens _ _); reflexivity. Qed.

Lemma estimateTokens_calls (st : RunState) :
  calls (snd (estimateTokens w st)) = calls st.
Proof. unfold estimateTokens. destruct (countTokens _ _); reflexivity. Qed.

(** The estimate is a function of the messages alone. *)
Lemma estimateTokens_deterministic (st st' : RunState) :
  messages (contextManager st) = messages (contextManager st') ->
  fst (estimateTokens w st) = fst (estimateTokens w st').
Proof.
  unfold estimateTokens, estimateTokensFallback. intros H. rewrite H.
  destruct (countTokens _ _); simpl; rewrite ?H; reflexivity.
Qed.

Lemma updateApiTokens_tools (response : LLMResponse) (cm : ContextManager) :
  tools (updateApiTokens response cm) = tools cm.
Proof. unfold updateApiTokens. destruct (Z.eqb _ 0); reflexivity. Qed.

Lemma updateApiTokens_messages (response : LLMResponse) (cm : ContextManager) :
  messages (updateApiTokens response cm) = messages cm.
Proof. unfold updateApiTokens. destruct (Z.eqb _ 0); reflexivity. Qed.

(** C8 (as amended). [updateApiTokens] overwrites [apiTotalTokens] with
    [response.totalTokens] when that number is not zero, negative numbers
    included, and changes nothing when it is zero; no other field is
    touched. *)
Theorem updateApiTokens_nonzero (response : LLMResponse) (cm : ContextManager) :
  apiTotalTokens (updateApiTokens response cm)
    = (if Z.eqb (totalTokens response) 0 then apiTotalTokens cm
       else totalTokens response) /\
  (totalTokens response = 0%Z -> updateApiTokens response cm = cm) /\
  messages (updateApiTokens response cm) = messages cm /\
  tools (updateApiTokens response cm) = tools cm /\
  tokenLimit (updateApiTokens response cm) = tokenLimit cm /\
  skipNextTokenCheck (updateApiTokens response cm) = skipNextTokenCheck cm.
Proof.
  unfold updateApiTokens.
  destruct (Z.eqb_spec (totalTokens response) 0) as [E|E]; simpl; intuition congruence.
Qed.

(** C7. [summarizeMessages] with the skip flag set only clears the flag.
    With the flag clear, when the local estimate and the API total are both
    at most [tokenLimit] (an estimate equal to the limit included), or when
    there is no user message, the message list and the flag stay as they are;
    in the remaining case the list is rebuilt and the flag is set. *)
Theorem summarizeMessages_gate (st : RunState) :
  let cm := contextManager st in
  let cm' := contextManager (summarizeMessages w st) in
  let estimated := fst (estimateTokens w st) in
  if skipNextTokenCheck cm then
    summarizeMessages w st = setContext (setSkipNextTokenCheck false cm) st /\
    messages cm' = messages cm /\ skipNextTokenCheck cm' = false
  else if Z.leb estimated (tokenLimit cm) && Z.leb (apiTotalTokens cm) (tokenLimit cm) then
    messages cm' = messages cm /\ skipNextTokenCheck cm' = false
  else
    match userIndices (messages cm) with
    | [] => messages cm' = messages cm /\ skipNextTokenCheck cm' = false
    | _ :: _ => skipNextTokenCheck cm' = true
    end.
Proof.
  intros cm cm' estimated. subst cm'. unfold summarizeMessages. fold cm.
  destruct (skipNextTokenCheck cm) eqn:Hskip; [auto|].
  pose proof (estimateTokens_context st) as Hcm. fold cm in Hcm.
  subst estimated. destruct (estimateTokens w st) as [est st1]. simpl in *.
  rewrite !Z.leb_antisym, <- negb_orb.
  destruct (Z.ltb (tokenLimit cm) est || Z.ltb (tokenLimit cm) (apiTotalTokens cm));
    simpl; [|rewrite Hcm; auto].
  destruct (userIndices (messages cm)) as [|i0 rest]; cbn [length Nat.ltb Nat.leb].
  - simpl. rewrite Hcm. auto.
  - destruct (summarizeRounds _ _ _ _ _ _ _) as [[newMessages summaryCount] st3].
    match goal with
    | |- context [estimateTokens w ?s] =>
        pose proof (estimateTokens_context s) as H4;
        destruct (estimateTokens w s) as [newTokens st5]
    end.
    simpl in *. rewrite H4. reflexivity.
Qed.

End TokenGate.

(** C8 (counterexample). For a response whose [totalTokens] is [-1] the
    stored total is overwritten, although the number is not positive. *)
Lemma updateApiTokens_negative_overwrites :
  let response :=
    {| message := {| m_contents := []; toolCalls := None |};
       finishReason := "stop"; totalTokens := -1 |} in
  let cm := setApiTotalTokens 50 (newContextManager 100 [] []) in
  ~ (totalTokens response > 0)%Z /\
  apiTotalTokens cm = 50%Z /\
  apiTotalTokens (updateApiTokens response cm) = (-1)%Z /\
  apiTotalTokens (updateApiTokens response cm) <> apiTotalTokens cm.
Proof. simpl. repeat split; try reflexivity; lia. Qed.

(** ** The context manager: summarization by rounds *)

Section Rounds.

Variable w : World.

Implicit Types (ms before : list Message) (rs : list (Message * list Message)).

Lemma splitRounds_cons m ms :
  splitRounds (m :: ms) =
    if isUserMessage m then ([], (m, fst (splitRounds ms)) :: rounds ms)
    else (m :: fst (splitRounds ms), rounds ms).
Proof. unfold rounds. simpl. destruct (splitRounds ms). reflexivity. Qed.

(** The list is its leading part followed by its rounds. *)
Lemma splitRounds_flatten ms :
  ms = fst (splitRounds ms) ++ concat (map (fun r => fst r :: snd r) (rounds ms)).
Proof.
  induction ms as [|m ms IH]; [reflexivity|].
  unfold rounds in *. rewrite splitRounds_cons.
  destruct (isUserMessage m); simpl; f_equal; exact IH.
Qed.

Lemma splitRounds_take ms :
  take (length (fst (splitRounds ms))) ms = fst (splitRounds ms).
Proof. rewrite (splitRounds_flatten ms) at 2. apply take_app_length. Qed.

(** The users of the rounds are the user messages of the list, in order. *)
Lemma rounds_users ms :
  map fst (rounds ms) = filter (fun m => isUserMessage m = true) ms.
Proof.
  induction ms as [|m ms IH]; [reflexivity|].
  unfold rounds in *. rewrite splitRounds_cons.
  destruct (isUserMessage m) eqn:E; simpl.
  - rewrite filter_cons_True by exact E. f_equal. exact IH.
  - rewrite filter_cons_False by congruence. exact IH.
Qed.

Lemma rounds_length ms :
  length (rounds ms) = length (userIndices ms).
Proof.
  unfold userIndices. generalize 0.
  induction ms as [|m ms IH]; intros base; [reflexivity|].
  unfold rounds in *. rewrite splitRounds_cons. simpl.
  destruct (isUserMessage m); simpl; rewrite <- (IH (S base)); reflexivity.
Qed.

(** The index the loop takes as the end of a round: the next user index, or
    the length of the list. *)
Lemma next_user_index base ms total :
  total = base + length ms ->
  match userIndicesFrom base ms with
  | next :: _ => next
  | [] => total
  end = base + length (fst (splitRounds ms)).
Proof.
  revert base. induction ms as [|m ms IH]; intros base ->.
  - simpl. lia.
  - rewrite splitRounds_cons. cbn [userIndicesFrom].
    destruct (isUserMessage m); cbn [fst].
    + simpl. lia.
    + rewrite (IH (S base)) by (simpl; lia). simpl. lia.
Qed.

Lemma leadingMessage_rounds ms :
  leadingMessage ms = take 1 (fst (splitRounds ms)).
Proof.
  destruct ms as [|m ms]; [reflexivity|].
  rewrite splitRounds_cons. simpl. destruct (isUserMessage m); reflexivity.
Qed.

Lemma createSummary_nil roundNum st : createSummary w [] roundNum st = ("", st).
Proof. reflexivity. Qed.

Lemma roundSummaries_length rs : forall i st,
  length (fst (roundSummaries w i rs st)) = length rs.
Proof.
  induction rs as [|r rs IH]; intros i st; simpl; [reflexivity|].
  destruct (createSummary w (snd r) (i + 1) st) as [txt st1].
  specialize (IH (i + 1) st1).
  destruct (roundSummaries w (i + 1) rs st1) as [texts st']. simpl in *. lia.
Qed.

(** The loop over the user indices computes the rebuilt list by rounds. *)
Lemma summarizeRounds_by_rounds all : forall ms before i newMessages summaryCount st,
  all = before ++ ms ->
  summarizeRounds w all i (userIndicesFrom (length before) ms)
    newMessages summaryCount st
  = let '(texts, st') := roundSummaries w i (rounds ms) st in
    (newMessages ++ rebuiltAsCoded (rounds ms) texts,
     summaryCount + summariesIn Js.truthy (rounds ms) texts,
     st').
Proof.
  induction ms as [|m ms IH]; intros before i newMessages summaryCount st Hall.
  - simpl. rewrite app_nil_r, Nat.add_0_r. reflexivity.
  - assert (Hall' : all = (before ++ [m]) ++ ms) by (rewrite <- app_assoc; exact Hall).
    assert (Hlen : length (before ++ [m]) = S (length before))
      by (rewrite length_app; simpl; lia).
    unfold rounds in *. rewrite splitRounds_cons. unfold rounds.
    cbn [userIndicesFrom]. destruct (isUserMessage m) eqn:Huser; cbn [snd].
    + cbn [summarizeRounds roundSummaries snd fst].
      rewrite (next_user_index (S (length before)) ms (length all))
        by (rewrite Hall, length_app; simpl; lia).
      assert (Hlook : all !! length before = Some m)
        by (rewrite Hall; apply list_lookup_middle; reflexivity).
      rewrite Hlook.
      assert (Hslice :
        slice (length before + 1) (S (length before) + length (fst (splitRounds ms))) all
        = fst (splitRounds ms)).
      { unfold slice. rewrite Hall'.
        rewrite drop_app_length' by (rewrite Hlen; lia).
        replace (S (length before) + length (fst (splitRounds ms)) - (length before + 1))
          with (length (fst (splitRounds ms))) by lia.
        apply splitRounds_take. }
      rewrite Hslice. rewrite <- Hlen.
      destruct (fst (splitRounds ms)) as [|e es] eqn:Hexec.
      * cbn [length Nat.ltb Nat.leb]. rewrite createSummary_nil.
        rewrite (IH (before ++ [m]) (i + 1) _ _ st Hall').
        destruct (roundSummaries w (i + 1) (snd (splitRounds ms)) st) as [texts st'].
        unfold rebuiltAsCoded, rebuilt, summariesIn, rebuiltRound, summarized.
        cbn [zip_with concat list_sum fst snd].
        rewrite <- app_assoc. reflexivity.
      * cbn [length Nat.ltb Nat.leb].
        destruct (createSummary w (e :: es) (i + 1) st) as [txt st1].
        destruct (Js.truthy txt) eqn:Htxt;
          rewrite (IH (before ++ [m]) (i + 1) _ _ st1 Hall');
          destruct (roundSummaries w (i + 1) (snd (splitRounds ms)) st1) as [texts st'];
          unfold rebuiltAsCoded, rebuilt, summariesIn, rebuiltRound, summarized;
          cbn [zip_with concat list_sum fst snd]; rewrite Htxt;
          rewrite <- !app_assoc; simpl; rewrite <- ?Nat.add_assoc; reflexivity.
    + rewrite <- Hlen. exact (IH (before ++ [m]) i _ _ st Hall').
Qed.

End Rounds.

Section Summarization.

Variable w : World.

Implicit Types (st : RunState) (rs : list (Message * list Message)).

(** When nothing is rebuilt the messages stay as they are. *)
Lemma summarizeMessages_unchanged st :
  skipNextTokenCheck (contextManager st) = true \/ ~ overLimit w st \/
  rounds (messages (contextManager st)) = [] ->
  messages (contextManager (summarizeMessages w st)) = messages (contextManager st).
Proof.
  intros H. unfold summarizeMessages.
  destruct (skipNextTokenCheck (contextManager st)) eqn:Hskip; [reflexivity|].
  pose proof (estimateTokens_context w st) as Hcm.
  unfold overLimit in H.
  destruct (estimateTokens w st) as [est st1]. simpl in *.
  destruct (Z.ltb_spec (tokenLimit (contextManager st)) est) as [H1|H1];
    destruct (Z.ltb_spec (tokenLimit (contextManager st))
                (apiTotalTokens (contextManager st))) as [H2|H2];
    cbn [orb negb]; try (rewrite Hcm; reflexivity).
  all: destruct H as [H|[H|H]]; try discriminate; try (exfalso; apply H; lia).
  all: pose proof (rounds_length (messages (contextManager st))) as Hlen;
    rewrite H in Hlen;
    destruct (userIndices (messages (contextManager st))); [|discriminate];
    simpl; rewrite Hcm; reflexivity.
Qed.

(** The boundary case: an estimate exactly at the limit does not trigger a
    summarization when the API total does not exceed the limit either. *)
Corollary summarizeMessages_at_limit st :
  fst (estimateTokens w st) = tokenLimit (contextManager st) ->
  (apiTotalTokens (contextManager st) <= tokenLimit (contextManager st))%Z ->
  messages (contextManager (summarizeMessages w st)) = messages (contextManager st).
Proof.
  intros Hest Hapi. apply summarizeMessages_unchanged. right. left.
  unfold overLimit. rewrite Hest. lia.
Qed.

(** When the list is rebuilt, it is rebuilt by rounds. *)
Lemma summarizeMessages_rebuild st :
  let cm := contextManager st in
  let texts := fst (roundSummaries w 0 (rounds (messages cm)) (started w st)) in
  skipNextTokenCheck cm = false ->
  overLimit w st ->
  rounds (messages cm) <> [] ->
  messages (contextManager (summarizeMessages w st))
    = leadingMessage (messages cm) ++ rebuiltAsCoded (rounds (messages cm)) texts /\
  exists newTokens,
    last (emitted (summarizeMessages w st))
    = Some (summarizeMessagesFinished true finishedNotice
              (Some (fst (estimateTokens w st), newTokens,
                     length (rounds (messages cm)),
                     summariesIn Js.truthy (rounds (messages cm)) texts))).
Proof.
  intros cm texts Hskip Hover Hrounds. subst texts. unfold started.
  unfold summarizeMessages. fold cm. rewrite Hskip.
  pose proof (estimateTokens_context w st) as Hcm. fold cm in Hcm.
  unfold overLimit in Hover. fold cm in Hover.
  destruct (estimateTokens w st) as [est st1]. cbn [fst snd] in *.
  assert (Hgate : Z.ltb (tokenLimit cm) est || Z.ltb (tokenLimit cm) (apiTotalTokens cm)
                  = true).
  { apply orb_true_iff. destruct Hover; [left|right]; apply Z.ltb_lt; assumption. }
  rewrite Hgate. cbn [negb].
  pose proof (rounds_length (messages cm)) as Hlen.
  assert (Hcount : Nat.ltb (length (userIndices (messages cm))) 1 = false).
  { apply Nat.ltb_ge. rewrite <- Hlen. destruct (rounds (messages cm)); [done|simpl; lia]. }
  rewrite Hcount.
  unfold userIndices at 2.
  rewrite (summarizeRounds_by_rounds w (messages cm) (messages cm) [] 0 _ 0 _ eq_refl).
  destruct (roundSummaries w 0 (rounds (messages cm)) _) as [texts st3].
  match goal with
  | |- context [estimateTokens w ?s] =>
      pose proof (estimateTokens_context w s) as H4;
      destruct (estimateTokens w s) as [newTokens st5]
  end.
  cbn [fst snd] in *. split.
  - unfold emit; cbn [contextManager]. rewrite H4. reflexivity.
  - exists newTokens. unfold emit; cbn [emitted]. rewrite last_snoc.
    rewrite <- Hlen. reflexivity.
Qed.

Lemma summaryContent_truthy ms roundNum : Js.truthy (summaryContent ms roundNum) = true.
Proof. reflexivity. Qed.

(** For a round that has messages to summarize, a model that writes its
    summaries yields a non-empty text, and so does the fallback. *)
Lemma createSummary_truthy e es roundNum st :
  writesSummaries w ->
  Js.truthy (fst (createSummary w (e :: es) roundNum st)) = true.
Proof.
  intros Hw. unfold createSummary.
  destruct (generate w _ _ _ _) as [r|n x|x] eqn:Hgen; cbn [fst].
  - exact (Hw _ _ _ _ _ Hgen).
  - apply summaryContent_truthy.
  - apply summaryContent_truthy.
Qed.

Lemma rebuilt_every_round rs : forall i st,
  writesSummaries w ->
  Forall (fun r => snd r <> []) rs ->
  let texts := fst (roundSummaries w i rs st) in
  length (rebuiltAsCoded rs texts) = 2 * length rs /\
  summariesIn Js.truthy rs texts = length rs.
Proof.
  induction rs as [|[u exec] rs IH]; intros i st Hw Hall; [split; reflexivity|].
  apply Forall_cons in Hall as [Hexec Hall]. cbn [snd] in Hexec.
  destruct exec as [|e es]; [congruence|].
  cbn [roundSummaries snd].
  pose proof (createSummary_truthy e es (i + 1) st Hw) as Htxt.
  destruct (createSummary w (e :: es) (i + 1) st) as [txt st1]. cbn [fst] in Htxt.
  specialize (IH (i + 1) st1 Hw Hall).
  destruct (roundSummaries w (i + 1) rs st1) as [texts st']. cbn [fst] in *.
  destruct IH as [IH1 IH2].
  unfold rebuiltAsCoded, rebuilt, summariesIn, rebuiltRound, summarized in *.
  cbn [zip_with concat list_sum fst snd]. rewrite Htxt.
  cbn [app length]. rewrite IH1. split; [lia|].
  etransitivity; [|exact (f_equal S IH2)]. reflexivity.
Qed.

(** The users of the rounds are kept, in order, in the rebuilt list. *)
Lemma rebuilt_keeps_users keep rs : forall texts,
  length texts = length rs ->
  map fst rs `sublist_of` rebuilt keep rs texts.
Proof.
  induction rs as [|r rs IH]; intros [|t texts] Hlen; try discriminate.
  - constructor.
  - unfold rebuilt, rebuiltRound. cbn [zip_with concat map].
    cbn [app]. apply sublist_skip.
    apply sublist_inserts_l. apply IH. simpl in Hlen. lia.
Qed.

(** C3. After [summarizeMessages], whatever branch it took, the user
    messages that were in the list are still in it, in the same relative
    order: they form a subsequence of the new list. *)
Theorem summarizeMessages_keeps_user_messages st :
  filter (fun m => isUserMessage m = true) (messages (contextManager st))
    `sublist_of` messages (contextManager (summarizeMessages w st)).
Proof.
  set (ms := messages (contextManager st)).
  destruct (skipNextTokenCheck (contextManager st)) eqn:Hskip.
  { rewrite summarizeMessages_unchanged by auto. apply sublist_filter. }
  destruct (decide (overLimit w st)) as [Hover|Hover].
  2:{ rewrite summarizeMessages_unchanged by auto. apply sublist_filter. }
  destruct (rounds ms) as [|r rs] eqn:Hrounds.
  { rewrite summarizeMessages_unchanged by auto. apply sublist_filter. }
  destruct (summarizeMessages_rebuild st Hskip Hover) as [-> _].
  { fold ms. rewrite Hrounds. discriminate. }
  fold ms. rewrite <- (rounds_users ms).
  apply sublist_inserts_l. apply rebuilt_keeps_users.
  apply roundSummaries_length.
Qed.

(** C6 (as amended). When [summarizeMessages] rebuilds the list, the new
    list is the first message if it is not a user message, followed for each
    round in order by the user message of the round and, when the round has
    messages to summarize and [createSummary] returned a non-empty text, by
    one user message whose single text block is ["[Model Execution Summary]"],
    a blank line and that text; [summaryCount] counts those messages.  When
    in addition every round has messages to summarize and the model writes
    non-empty summaries, the rounds contribute two messages each and
    [summaryCount] is the number of user messages: six and three for three
    rounds. *)
Theorem summarizeMessages_rebuilt_by_rounds st :
  let cm := contextManager st in
  let rs := rounds (messages cm) in
  let texts := fst (roundSummaries w 0 rs (started w st)) in
  skipNextTokenCheck cm = false ->
  overLimit w st ->
  rs <> [] ->
  messages (contextManager (summarizeMessages w st))
    = leadingMessage (messages cm) ++ rebuiltAsCoded rs texts /\
  (exists newTokens,
    last (emitted (summarizeMessages w st))
    = Some (summarizeMessagesFinished true finishedNotice
              (Some (fst (estimateTokens w st), newTokens,
                     length rs, summariesIn Js.truthy rs texts)))) /\
  rebuiltAsCoded rs texts
    = concat (zip_with (fun r text =>
        fst r :: match snd r with
                 | [] => []
                 | _ :: _ =>
                     if Js.truthy text
                     then [MUser {| u_contents :=
                             [textContent ("[Model Execution Summary]" +:+ Js.nl +:+
                                           Js.nl +:+ text)] |}]
                     else []
                 end) rs texts) /\
  (writesSummaries w -> Forall (fun r => snd r <> []) rs ->
   length (rebuiltAsCoded rs texts) = 2 * length rs /\
   summariesIn Js.truthy rs texts = length rs).
Proof.
  intros cm rs texts Hskip Hover Hrs.
  destruct (summarizeMessages_rebuild st Hskip Hover Hrs) as [Hmsgs Hlast].
  repeat split.
  - exact Hmsgs.
  - exact Hlast.
  - unfold rebuiltAsCoded, rebuilt. f_equal.
    clear. generalize texts. clear texts.
    induction rs as [|[u exec] rs' IH]; intros [|t texts]; try reflexivity.
    cbn [zip_with]. f_equal; [|apply IH].
    unfold rebuiltRound, summarized. destruct exec; reflexivity.
  - apply rebuilt_every_round; assumption.
  - apply rebuilt_every_round; assumption.
Qed.

End Summarization.

(** ** The agent loop: what is emitted *)

Section Emitted.

Variable w : World.

Implicit Types (st : RunState) (d : list AgentEvent).

Lemma Paired_app d1 d2 : Paired w d1 -> Paired w d2 -> Paired w (d1 ++ d2).
Proof. induction 1; intros; simpl; auto using Paired. Qed.

Lemma Paired_of_quiet d : Forall (fun e => quiet e = true) d -> Paired w d.
Proof. induction 1; auto using Paired. Qed.

Lemma RunTrace_app s d1 d2 :
  Paired w d1 -> RunTrace w s d2 -> RunTrace w s (d1 ++ d2).
Proof.
  destruct s as [|e]; simpl.
  - apply Paired_app.
  - intros H1 (before & last & -> & H2 & Hp).
    exists (d1 ++ before), last.
    rewrite app_assoc. auto using Paired_app.
Qed.

Lemma addsQuiet_refl st : addsQuiet st st.
Proof. exists []. rewrite app_nil_r. auto. Qed.

Lemma addsQuiet_trans st1 st2 st3 :
  addsQuiet st1 st2 -> addsQuiet st2 st3 -> addsQuiet st1 st3.
Proof.
  intros (d1 & E1 & Q1) (d2 & E2 & Q2). exists (d1 ++ d2).
  rewrite E2, E1, app_assoc. split; [reflexivity|]. apply Forall_app; auto.
Qed.

Lemma addsQuiet_emit e st : quiet e = true -> addsQuiet st (emit e st).
Proof. intros H. exists [e]. split; [reflexivity|]. auto. Qed.

Lemma addsQuiet_same st st' : emitted st' = emitted st -> addsQuiet st st'.
Proof. intros H. exists []. rewrite app_nil_r. auto. Qed.

Lemma addsQuiet_emit_r e st st' :
  quiet e = true -> addsQuiet st st' -> addsQuiet st (emit e st').
Proof. intros H H'. eapply addsQuiet_trans; [exact H'|apply addsQuiet_emit, H]. Qed.

Lemma addsQuiet_setContext_r cm st st' :
  addsQuiet st st' -> addsQuiet st (setContext cm st').
Proof. intros H. eapply addsQuiet_trans; [exact H|apply addsQuiet_same; reflexivity]. Qed.

Lemma addsQuiet_tick_r st st' : addsQuiet st st' -> addsQuiet st (tick st').
Proof. intros H. eapply addsQuiet_trans; [exact H|apply addsQuiet_same; reflexivity]. Qed.

Lemma estimateTokens_quiet st : addsQuiet st (snd (estimateTokens w st)).
Proof.
  unfold estimateTokens. destruct (countTokens _ _); simpl.
  - apply addsQuiet_refl.
  - apply addsQuiet_emit. reflexivity.
Qed.

Lemma createSummary_quiet ms roundNum st :
  addsQuiet st (snd (createSummary w ms roundNum st)).
Proof.
  unfold createSummary. destruct ms; [apply addsQuiet_refl|].
  destruct (generate w _ _ _ _); cbn [snd];
    (apply addsQuiet_emit_r; [reflexivity|]);
    apply addsQuiet_tick_r, addsQuiet_refl.
Qed.

Lemma summarizeRounds_quiet ms remaining : forall i newMessages summaryCount st,
  addsQuiet st (snd (summarizeRounds w ms i remaining newMessages summaryCount st)).
Proof.
  induction remaining as [|userIdx rest IH]; intros i newMessages summaryCount st.
  - apply addsQuiet_refl.
  - cbn [summarizeRounds]. destruct (Nat.ltb 0 _); [|apply IH].
    pose proof (createSummary_quiet
      (slice (userIdx + 1) match rest with [] => length ms | next :: _ => next end ms)
      (i + 1) st) as Hc.
    destruct (createSummary w _ _ st) as [txt st1]. cbn [snd] in Hc.
    destruct (Js.truthy txt); (eapply addsQuiet_trans; [exact Hc|apply IH]).
Qed.

Lemma summarizeMessages_quiet st : addsQuiet st (summarizeMessages w st).
Proof.
  unfold summarizeMessages.
  destruct (skipNextTokenCheck _); [apply addsQuiet_same; reflexivity|].
  pose proof (estimateTokens_quiet st) as H1.
  destruct (estimateTokens w st) as [est st1]. cbn [snd] in H1.
  destruct (negb _); [exact H1|].
  destruct (Nat.ltb _ 1).
  { do 2 (apply addsQuiet_emit_r; [reflexivity|]). exact H1. }
  match goal with
  | |- context [summarizeRounds w ?a ?b ?c ?d ?e ?s] =>
      pose proof (summarizeRounds_quiet a c b d e s) as H3;
      destruct (summarizeRounds w a b c d e s) as [[newMessages summaryCount] st3]
  end.
  cbn [snd] in H3.
  match goal with
  | |- context [estimateTokens w ?s] =>
      pose proof (estimateTokens_quiet s) as H5;
      destruct (estimateTokens w s) as [newTokens st5]
  end.
  cbn [snd] in H5.
  apply addsQuiet_emit_r; [reflexivity|].
  eapply addsQuiet_trans; [|exact H5].
  apply addsQuiet_setContext_r.
  eapply addsQuiet_trans; [|exact H3].
  apply addsQuiet_emit_r; [reflexivity|exact H1].
Qed.

Lemma adds_quiet s st1 st2 st3 :
  addsQuiet st1 st2 -> adds w s st2 st3 -> adds w s st1 st3.
Proof.
  intros (d1 & E1 & Q1) (d2 & E2 & T2). exists (d1 ++ d2).
  rewrite E2, E1, app_assoc. split; [reflexivity|].
  apply RunTrace_app; auto using Paired_of_quiet.
Qed.

Lemma adds_resolved s st1 st2 st3 :
  adds w Resolved st1 st2 -> adds w s st2 st3 -> adds w s st1 st3.
Proof.
  intros (d1 & E1 & Q1) (d2 & E2 & T2). exists (d1 ++ d2).
  rewrite E2, E1, app_assoc. split; [reflexivity|].
  apply RunTrace_app; auto.
Qed.

Lemma adds_of_quiet st st' : addsQuiet st st' -> adds w Resolved st st'.
Proof. intros (d & E & Q). exists d. split; [exact E|]. apply Paired_of_quiet, Q. Qed.

Lemma executeTool_emitted functionName callArgs st :
  emitted (snd (executeTool functionName callArgs st)) = emitted st.
Proof.
  unfold executeTool. destruct (toolDict_get _ _); [|reflexivity].
  destruct (execute _ _ _); reflexivity.
Qed.

(** One tool call: the start, the end, and for a successful call of the
    reply tool the reply right after the end. *)
Lemma runToolCall_adds toolCall st :
  adds w (fst (runToolCall w toolCall st)) st (snd (runToolCall w toolCall st)).
Proof.
  unfold runToolCall.
  pose proof (executeTool_emitted (tc_name toolCall) (tc_args toolCall)
    (emit (toolCallStarted (idOrEmpty (tc_id toolCall)) (tc_name toolCall)
             (tc_args toolCall)) st)) as He.
  destruct (executeTool _ _ _) as [[res|] st2]; cbn [snd] in He.
  2:{ cbn [fst snd].
      exists [toolCallStarted (idOrEmpty (tc_id toolCall)) (tc_name toolCall)
                (tc_args toolCall)].
      split; [rewrite He; reflexivity|].
      exists [], (toolCallStarted (idOrEmpty (tc_id toolCall)) (tc_name toolCall)
                    (tc_args toolCall)).
      split; [reflexivity|]. split; [constructor|exact I]. }
  destruct (success res) eqn:Hs.
  - destruct (bool_decide (tc_name toolCall = "ema_reply")) eqn:Hn; cbn [andb].
    + apply bool_decide_eq_true in Hn. rewrite Hn.
      destruct (parseContent w res) as [reply|] eqn:Hp; cbn [fst snd].
      * exists [toolCallStarted (idOrEmpty (tc_id toolCall)) "ema_reply" (tc_args toolCall);
                toolCallFinished true (idOrEmpty (tc_id toolCall)) "ema_reply" res;
                emaReplyReceived reply].
        split.
        { cbn [setContext emit emitted]. rewrite He. cbn [emit emitted].
          rewrite Hn, <- !app_assoc. reflexivity. }
        apply Paired_quiet; [reflexivity|].
        apply Paired_reply; [exact Hp|constructor].
      * exists [toolCallStarted (idOrEmpty (tc_id toolCall)) "ema_reply" (tc_args toolCall);
                toolCallFinished true (idOrEmpty (tc_id toolCall)) "ema_reply" res].
        split.
        { cbn [emit emitted]. rewrite He. cbn [emit emitted].
          rewrite Hn, <- !app_assoc. reflexivity. }
        exists [toolCallStarted (idOrEmpty (tc_id toolCall)) "ema_reply" (tc_args toolCall)],
          (toolCallFinished true (idOrEmpty (tc_id toolCall)) "ema_reply" res).
        split; [reflexivity|]. split; [|split; [reflexivity|exact Hp]].
        apply Paired_quiet; [reflexivity|constructor].
    + cbn [fst snd]. apply adds_of_quiet.
      eexists [_; _]. split.
      { cbn [setContext emit emitted]. rewrite He. cbn [emit emitted].
        rewrite <- !app_assoc. reflexivity. }
      repeat constructor. cbn [quiet]. rewrite Hn. reflexivity.
  - cbn [fst snd]. apply adds_of_quiet.
    eexists [_; _]. split.
    { cbn [setContext emit emitted]. rewrite He. cbn [emit emitted].
      rewrite <- !app_assoc. reflexivity. }
    repeat constructor.
Qed.

Lemma runToolCalls_adds tcs : forall st,
  adds w (fst (runToolCalls w tcs st)) st (snd (runToolCalls w tcs st)).
Proof.
  induction tcs as [|tc rest IH]; intros st; cbn [runToolCalls].
  - apply adds_of_quiet, addsQuiet_refl.
  - pose proof (runToolCall_adds tc st) as H1.
    destruct (runToolCall w tc st) as [[|e] st']; cbn [fst snd] in *.
    + eapply adds_resolved; [exact H1|apply IH].
    + exact H1.
Qed.

Lemma runSteps_adds limit systemPrompt remaining : forall step st,
  adds w (fst (runSteps w limit systemPrompt remaining step st)) st
       (snd (runSteps w limit systemPrompt remaining step st)).
Proof.
  induction remaining as [|remaining IH]; intros step st; cbn [runSteps].
  - apply adds_of_quiet, addsQuiet_emit. reflexivity.
  - set (st2 := emit (stepStarted (step + 1) limit) (summarizeMessages w st)).
    assert (H2 : addsQuiet st st2)
      by (apply addsQuiet_emit_r; [reflexivity|apply summarizeMessages_quiet]).
    destruct (generate w _ _ _ _) as [response|attempts lastException|e].
    + set (st4 := setContext _ (emit (llmResponseReceived response) (tick st2))).
      assert (H4 : addsQuiet st st4).
      { apply addsQuiet_setContext_r. apply addsQuiet_emit_r; [reflexivity|].
        apply addsQuiet_tick_r, H2. }
      destruct (toolCalls (message response)) as [[|tc tcs]|].
      * cbn [fst snd]. apply adds_of_quiet. apply addsQuiet_emit_r; [reflexivity|exact H4].
      * pose proof (runToolCalls_adds (tc :: tcs) st4) as Ht.
        destruct (runToolCalls w (tc :: tcs) st4) as [[|e] st5]; cbn [fst snd] in *.
        -- eapply adds_quiet; [exact H4|].
           eapply adds_resolved; [exact Ht|apply IH].
        -- eapply adds_quiet; [exact H4|exact Ht].
      * cbn [fst snd]. apply adds_of_quiet. apply addsQuiet_emit_r; [reflexivity|exact H4].
    + cbn [fst snd]. apply adds_of_quiet.
      apply addsQuiet_emit_r; [reflexivity|]. apply addsQuiet_tick_r, H2.
    + cbn [fst snd]. apply adds_of_quiet.
      apply addsQuiet_emit_r; [reflexivity|]. apply addsQuiet_tick_r, H2.
Qed.

(** The events of a run form a trace. *)
Lemma run_trace config systemPrompt st :
  RunTrace w (fst (run w config systemPrompt st)) (runEvents w config systemPrompt st).
Proof.
  unfold runEvents, run.
  destruct (runSteps_adds (maxSteps config) systemPrompt (maxSteps config) 0 st)
    as (d & E & T).
  rewrite E, drop_app_length. exact T.
Qed.

End Emitted.

(** ** The agent loop: the reply and the end of its tool call *)

Section ReplyOrder.

Variable w : World.

Implicit Types (d : list AgentEvent).

Lemma Paired_reply_after_finished d :
  Paired w d ->
  forall i reply,
    d !! i = Some (emaReplyReceived reply) ->
    exists j id res,
      i = S j /\ d !! j = Some (toolCallFinished true id "ema_reply" res) /\
      parseContent w res = Some reply.
Proof.
  induction 1 as [|e l Hq _ IH|id res reply0 l Hp _ IH]; intros i reply Hi.
  - discriminate.
  - destruct i as [|i]; simpl in Hi.
    + injection Hi as ->. discriminate.
    + destruct (IH i reply Hi) as (j & id & res & -> & Hj & Hp).
      exists (S j), id, res. auto.
  - destruct i as [|[|i]]; simpl in Hi.
    + discriminate.
    + injection Hi as ->. exists 0, id, res. auto.
    + destruct (IH i reply Hi) as (j & id' & res' & -> & Hj & Hp').
      exists (S (S j)), id', res'. auto.
Qed.

Lemma Paired_finished_then_reply d :
  Paired w d ->
  forall j id res,
    d !! j = Some (toolCallFinished true id "ema_reply" res) ->
    exists reply,
      parseContent w res = Some reply /\ d !! S j = Some (emaReplyReceived reply).
Proof.
  induction 1 as [|e l Hq _ IH|id0 res0 reply0 l Hp _ IH]; intros j id res Hj.
  - discriminate.
  - destruct j as [|j]; simpl in Hj.
    + injection Hj as ->. discriminate.
    + apply IH in Hj. exact Hj.
  - destruct j as [|[|j]]; simpl in Hj.
    + injection Hj as -> ->. exists reply0. auto.
    + discriminate.
    + apply IH in Hj. exact Hj.
Qed.

Lemma RunTrace_reply_after_finished s d :
  RunTrace w s d ->
  forall i reply,
    d !! i = Some (emaReplyReceived reply) ->
    exists j id res,
      i = S j /\ d !! j = Some (toolCallFinished true id "ema_reply" res) /\
      parseContent w res = Some reply.
Proof.
  destruct s as [|e]; simpl.
  - apply Paired_reply_after_finished.
  - intros (before & final & -> & Hb & Hp) i reply Hi.
    apply lookup_app_Some in Hi as [Hi|[Hlen Hi]].
    + destruct (Paired_reply_after_finished before Hb i reply Hi)
        as (j & id & res & -> & Hj & Hp').
      exists j, id, res. split; [reflexivity|]. split; [|exact Hp'].
      apply lookup_app_l_Some, Hj.
    + destruct (i - length before) as [|k]; simpl in Hi; [|discriminate].
      injection Hi as ->. destruct Hp.
Qed.

Lemma RunTrace_finished_then_reply s d :
  RunTrace w s d ->
  forall j id res reply,
    d !! j = Some (toolCallFinished true id "ema_reply" res) ->
    parseContent w res = Some reply ->
    d !! S j = Some (emaReplyReceived reply).
Proof.
  assert (HP : forall l, Paired w l -> forall j id res reply,
    l !! j = Some (toolCallFinished true id "ema_reply" res) ->
    parseContent w res = Some reply ->
    l !! S j = Some (emaReplyReceived reply)).
  { intros l Hl j id res reply Hj Hp.
    destruct (Paired_finished_then_reply l Hl j id res Hj) as (reply' & Hp' & Hn).
    congruence. }
  destruct s as [|e]; simpl.
  - apply HP.
  - intros (before & final & -> & Hb & Hp0) j id res reply Hj Hp.
    apply lookup_app_Some in Hj as [Hj|[Hlen Hj]].
    + apply lookup_app_l_Some. exact (HP before Hb j id res reply Hj Hp).
    + destruct (j - length before) as [|k]; simpl in Hj; [|discriminate].
      injection Hj as ->. destruct Hp0 as [_ Hp0]. congruence.
Qed.

(** C1 (as amended). In the events of every run, every [emaReplyReceived]
    comes directly after the [toolCallFinished] event of a successful call
    of the tool ["ema_reply"] and carries the value parsed from the content
    of that call's result; and every such [toolCallFinished] whose content
    parses is directly followed by the [emaReplyReceived] that carries the
    parsed value.  The end of the tool call is announced first, the reply
    second. *)
Theorem run_reply_follows_finished (config : AgentConfig) (systemPrompt : string)
    (st : RunState) :
  let events := runEvents w config systemPrompt st in
  (forall i reply,
     events !! i = Some (emaReplyReceived reply) ->
     exists j id res,
       i = S j /\ events !! j = Some (toolCallFinished true id "ema_reply" res) /\
       parseContent w res = Some reply) /\
  (forall j id res reply,
     events !! j = Some (toolCallFinished true id "ema_reply" res) ->
     parseContent w res = Some reply ->
     events !! S j = Some (emaReplyReceived reply)).
Proof.
  intros events. pose proof (run_trace w config systemPrompt st) as T. split.
  - exact (RunTrace_reply_after_finished _ _ T).
  - exact (RunTrace_finished_then_reply _ _ T).
Qed.

End ReplyOrder.

(** C1 (counterexample). In scenario S1 the fourth event is the end of the
    call of the reply tool and the fifth is the reply: no reply comes before
    the end of the call. *)
Lemma single_turn_reply_after_finished :
  runEvents Scenario.singleTurn Scenario.config "sys" Scenario.start !! 3
    = Some (toolCallFinished true "call-1" "ema_reply"
              {| success := true; content := Some Scenario.theReplyText; error := None |}) /\
  runEvents Scenario.singleTurn Scenario.config "sys" Scenario.start !! 4
    = Some (emaReplyReceived Scenario.theReply) /\
  ~ replyBeforeFinished (runEvents Scenario.singleTurn Scenario.config "sys" Scenario.start).
Proof.
  split; [vm_compute; reflexivity|]. split; [vm_compute; reflexivity|].
  intros H.
  destruct (H 3 "call-1"
              {| success := true; content := Some Scenario.theReplyText; error := None |})
    as (i & reply & Hi & Hl); [vm_compute; reflexivity|].
  destruct i as [|[|[|i]]]; [vm_compute in Hl; discriminate ..|lia].
Qed.

(** ** The agent loop: the results it stores *)

Section StoredResults.

Variable w : World.

Implicit Types (st : RunState) (cm : ContextManager).

Lemma keeps_refl st : keeps st st.
Proof. split; auto. Qed.

Lemma keeps_trans st1 st2 st3 : keeps st1 st2 -> keeps st2 st3 -> keeps st1 st3.
Proof. intros [T1 M1] [T2 M2]. split; [congruence|auto]. Qed.

Lemma keeps_same st st' : contextManager st' = contextManager st -> keeps st st'.
Proof. intros H. unfold keeps. rewrite H. auto. Qed.

Lemma toolDict_get_elem functionName ts t :
  toolDict_get functionName ts = Some t -> t ∈ ts.
Proof.
  induction ts as [|t0 ts IH]; simpl; [discriminate|].
  destruct (toolDict_get functionName ts) as [t'|].
  - intros [= ->]. right. auto.
  - destruct (bool_decide _); [|discriminate]. intros [= ->]. left.
Qed.

Lemma createSummary_context ms roundNum st :
  contextManager (snd (createSummary w ms roundNum st)) = contextManager st.
Proof.
  unfold createSummary. destruct ms; [reflexivity|].
  destruct (generate w _ _ _ _); reflexivity.
Qed.

Lemma summarizeRounds_context ms remaining : forall i newMessages summaryCount st,
  contextManager (snd (summarizeRounds w ms i remaining newMessages summaryCount st))
  = contextManager st.
Proof.
  induction remaining as [|userIdx rest IH]; intros i newMessages summaryCount st.
  - reflexivity.
  - cbn [summarizeRounds]. destruct (Nat.ltb 0 _); [|apply IH].
    pose proof (createSummary_context
      (slice (userIdx + 1) match rest with [] => length ms | next :: _ => next end ms)
      (i + 1) st) as Hc.
    destruct (createSummary w _ _ st) as [txt st1]. cbn [snd] in Hc.
    destruct (Js.truthy txt); rewrite IH; exact Hc.
Qed.

Lemma summarizeMessages_tools st :
  tools (contextManager (summarizeMessages w st)) = tools (contextManager st).
Proof.
  unfold summarizeMessages.
  destruct (skipNextTokenCheck _); [reflexivity|].
  pose proof (estimateTokens_context w st) as H1.
  destruct (estimateTokens w st) as [est st1]. cbn [snd] in H1.
  destruct (negb _); [rewrite H1; reflexivity|].
  destruct (Nat.ltb _ 1); [cbn; rewrite H1; reflexivity|].
  match goal with
  | |- context [summarizeRounds w ?a ?b ?c ?d ?e ?s] =>
      pose proof (summarizeRounds_context a c b d e s) as H3;
      destruct (summarizeRounds w a b c d e s) as [[newMessages summaryCount] st3]
  end.
  cbn [snd] in H3.
  match goal with
  | |- context [estimateTokens w ?s] =>
      pose proof (estimateTokens_context w s) as H5;
      destruct (estimateTokens w s) as [newTokens st5]
  end.
  cbn [snd] in H5. cbn. rewrite H5. cbn. rewrite H3. cbn. rewrite H1. reflexivity.
Qed.

Lemma user_stored m : isUserMessage m = true -> storedAsCoded m.
Proof. destruct m; simpl; [auto|discriminate|discriminate]. Qed.

Lemma rebuilt_users keep rs texts :
  Forall (fun m => isUserMessage m = true) (map fst rs) ->
  Forall (fun m => isUserMessage m = true) (rebuilt keep rs texts).
Proof.
  revert texts. induction rs as [|r rs IH]; intros [|t texts] H; try constructor.
  - apply Forall_cons in H as [Hr _]. exact Hr.
  - apply Forall_cons in H as [_ Hrs].
    fold (concat (zip_with (rebuiltRound keep) rs texts)).
    apply Forall_app. split; [|apply IH, Hrs].
    destruct (summarized keep r t); repeat constructor.
Qed.

Lemma leadingMessage_stored ms :
  Forall storedAsCoded ms -> Forall storedAsCoded (leadingMessage ms).
Proof.
  destruct ms as [|m ms]; [auto|]. intros H. apply Forall_cons in H as [Hm _].
  simpl. destruct (isUserMessage m); auto.
Qed.

Lemma summarizeMessages_keeps st : keeps st (summarizeMessages w st).
Proof.
  split; [apply summarizeMessages_tools|]. intros Hst.
  destruct (skipNextTokenCheck (contextManager st)) eqn:Hskip.
  { rewrite summarizeMessages_unchanged by auto. exact Hst. }
  destruct (decide (overLimit w st)) as [Hover|Hover].
  2:{ rewrite summarizeMessages_unchanged by auto. exact Hst. }
  destruct (rounds (messages (contextManager st))) as [|r rs] eqn:Hrounds.
  { rewrite summarizeMessages_unchanged by auto. exact Hst. }
  destruct (summarizeMessages_rebuild w st Hskip Hover) as [-> _].
  { rewrite Hrounds. discriminate. }
  apply Forall_app. split; [apply leadingMessage_stored, Hst|].
  eapply Forall_impl; [|exact user_stored].
  apply rebuilt_users. rewrite rounds_users.
  apply Forall_forall. intros m Hm. apply list_elem_of_filter in Hm. tauto.
Qed.

(** The result of executing a tool meets the contract when the tools do. *)
Lemma executeTool_result functionName callArgs st :
  toolsKeepContract (tools (contextManager st)) ->
  (forall res, fst (executeTool functionName callArgs st) = Some res ->
               toolResultInvariant res) /\
  contextManager (snd (executeTool functionName callArgs st)) = contextManager st.
Proof.
  intros Hc. unfold executeTool.
  destruct (toolDict_get _ _) as [tool|] eqn:Hget.
  - apply toolDict_get_elem in Hget.
    destruct (execute tool _ _) as [r| |ename emessage stack|] eqn:He; cbn [fst snd];
      (split; [|reflexivity]); intros res [= <-].
    + exact (Hc tool Hget _ _ r He).
    + split; simpl; intros; [discriminate|eauto].
  - split; [|reflexivity]. intros res [= <-].
    split; simpl; intros; [discriminate|eauto].
Qed.

Lemma addToolMessage_stored res functionName toolCallId cm :
  storedAsCoded (MTool {| t_id := toolCallId; t_name := functionName; result := res |}) ->
  Forall storedAsCoded (messages cm) ->
  Forall storedAsCoded (messages (addToolMessage res functionName toolCallId cm)).
Proof. intros Hr Hm. simpl. apply Forall_app. auto. Qed.

Lemma cleared_stored res toolCallId :
  success res = true -> toolResultInvariant res ->
  storedAsCoded
    (MTool {| t_id := toolCallId; t_name := "ema_reply"; result := clearContent res |}).
Proof.
  intros Hs [Hok _]. unfold storedAsCoded. cbn. rewrite Hs. cbn.
  split; [reflexivity|]. apply Hok, Hs.
Qed.

Lemma other_stored res functionName toolCallId :
  success res && bool_decide (functionName = "ema_reply") = false ->
  toolResultInvariant res ->
  storedAsCoded
    (MTool {| t_id := toolCallId; t_name := functionName; result := res |}).
Proof. intros H Hres. unfold storedAsCoded. cbn. rewrite H. exact Hres. Qed.

Lemma keeps_addToolMessage res functionName toolCallId st st' :
  contextManager st' = contextManager st ->
  storedAsCoded (MTool {| t_id := toolCallId; t_name := functionName; result := res |}) ->
  keeps st (setContext (addToolMessage res functionName toolCallId (contextManager st')) st').
Proof.
  intros Hcm Hr. split; cbn; rewrite Hcm; [reflexivity|].
  intros Hm. apply Forall_app. auto.
Qed.

Lemma runToolCall_keeps toolCall st :
  toolsKeepContract (tools (contextManager st)) ->
  keeps st (snd (runToolCall w toolCall st)).
Proof.
  intros Hc. unfold runToolCall.
  pose proof (executeTool_result (tc_name toolCall) (tc_args toolCall)
    (emit (toolCallStarted (idOrEmpty (tc_id toolCall)) (tc_name toolCall)
             (tc_args toolCall)) st) Hc) as [Hres Hcm].
  destruct (executeTool _ _ _) as [[res|] st2]; cbn [fst snd] in *;
    change (contextManager st2 = contextManager st) in Hcm;
    [|apply keeps_same; exact Hcm].
  specialize (Hres res eq_refl).
  destruct (success res) eqn:Hs.
  - destruct (bool_decide (tc_name toolCall = "ema_reply")) eqn:Hn; cbn [andb].
    + apply bool_decide_eq_true in Hn.
      destruct (parseContent w res) as [reply|]; cbn [snd].
      * apply keeps_addToolMessage; [exact Hcm|].
        rewrite Hn. apply cleared_stored; assumption.
      * apply keeps_same. exact Hcm.
    + cbn [snd]. apply keeps_addToolMessage; [exact Hcm|].
      apply other_stored; [rewrite Hs, Hn; reflexivity|exact Hres].
  - cbn [snd]. apply keeps_addToolMessage; [exact Hcm|].
    apply other_stored; [rewrite Hs; reflexivity|exact Hres].
Qed.

(** The message a tool call appends. *)
Lemma runToolCall_appends toolCall st :
  toolsKeepContract (tools (contextManager st)) ->
  fst (runToolCall w toolCall st) = Resolved ->
  exists res,
    messages (contextManager (snd (runToolCall w toolCall st)))
    = messages (contextManager st) ++
      [MTool {| t_id := tc_id toolCall; t_name := tc_name toolCall; result := res |}] /\
    storedAsCoded
      (MTool {| t_id := tc_id toolCall; t_name := tc_name toolCall; result := res |}).
Proof.
  intros Hc. unfold runToolCall.
  pose proof (executeTool_result (tc_name toolCall) (tc_args toolCall)
    (emit (toolCallStarted (idOrEmpty (tc_id toolCall)) (tc_name toolCall)
             (tc_args toolCall)) st) Hc) as [Hres Hcm].
  destruct (executeTool _ _ _) as [[res|] st2]; cbn [fst snd] in *;
    change (contextManager st2 = contextManager st) in Hcm;
    [|discriminate].
  specialize (Hres res eq_refl).
  destruct (success res) eqn:Hs.
  - destruct (bool_decide (tc_name toolCall = "ema_reply")) eqn:Hn; cbn [andb].
    + destruct (parseContent w res) as [reply|]; cbn [fst snd]; [|discriminate].
      intros _. exists (clearContent res).
      cbn [setContext contextManager emit addToolMessage setMessages messages].
      rewrite Hcm.
      split; [reflexivity|].
      apply bool_decide_eq_true in Hn. rewrite Hn. apply cleared_stored; assumption.
    + cbn [fst snd]. intros _. exists res.
    cbn [setContext contextManager emit addToolMessage setMessages messages].
    rewrite Hcm. split; [reflexivity|].
      apply other_stored; [rewrite Hs, Hn; reflexivity|exact Hres].
  - cbn [fst snd]. intros _. exists res.
    cbn [setContext contextManager emit addToolMessage setMessages messages].
    rewrite Hcm. split; [reflexivity|].
    apply other_stored; [rewrite Hs; reflexivity|exact Hres].
Qed.

Lemma runToolCalls_keeps tcs : forall st,
  toolsKeepContract (tools (contextManager st)) ->
  keeps st (snd (runToolCalls w tcs st)).
Proof.
  induction tcs as [|tc rest IH]; intros st Hc; cbn [runToolCalls].
  - apply keeps_refl.
  - pose proof (runToolCall_keeps tc st Hc) as H1.
    destruct (runToolCall w tc st) as [[|e] st']; cbn [snd] in *; [|exact H1].
    eapply keeps_trans; [exact H1|]. apply IH. destruct H1 as [-> _]. exact Hc.
Qed.

Lemma runSteps_keeps limit systemPrompt remaining : forall step st,
  toolsKeepContract (tools (contextManager st)) ->
  keeps st (snd (runSteps w limit systemPrompt remaining step st)).
Proof.
  induction remaining as [|remaining IH]; intros step st Hc; cbn [runSteps].
  - apply keeps_same. reflexivity.
  - set (st2 := emit (stepStarted (step + 1) limit) (summarizeMessages w st)).
    assert (H2 : keeps st st2).
    { eapply keeps_trans; [apply summarizeMessages_keeps|].
      apply keeps_same. reflexivity. }
    destruct (generate w _ _ _ _) as [response|attempts lastException|e].
    + set (st4 := setContext _ (emit (llmResponseReceived response) (tick st2))).
      assert (H4 : keeps st st4).
      { eapply keeps_trans; [exact H2|]. subst st4. unfold keeps.
        cbn [setContext contextManager emit tick addModelMessage setMessages
             tools messages].
        rewrite updateApiTokens_tools, updateApiTokens_messages.
        split; [reflexivity|]. intros Hm.
        apply Forall_app. split; [exact Hm|]. repeat constructor. }
      assert (Hc4 : toolsKeepContract (tools (contextManager st4)))
        by (destruct H4 as [-> _]; exact Hc).
      destruct (toolCalls (message response)) as [[|tc tcs]|].
      * cbn [snd]. eapply keeps_trans; [exact H4|apply keeps_same; reflexivity].
      * pose proof (runToolCalls_keeps (tc :: tcs) st4 Hc4) as Ht.
        destruct (runToolCalls w (tc :: tcs) st4) as [[|e] st5]; cbn [snd] in *.
        -- eapply keeps_trans; [exact H4|]. eapply keeps_trans; [exact Ht|].
           apply IH. destruct Ht as [-> _]. exact Hc4.
        -- eapply keeps_trans; [exact H4|exact Ht].
      * cbn [snd]. eapply keeps_trans; [exact H4|apply keeps_same; reflexivity].
    + cbn [snd]. eapply keeps_trans; [exact H2|apply keeps_same; reflexivity].
    + cbn [snd]. eapply keeps_trans; [exact H2|apply keeps_same; reflexivity].
Qed.

(** C2 (as amended). With tools that honour the contract of [ToolResult],
    every tool message the agent loop appends to the context, and every tool
    message the context holds when the run ends, has a result with: [error]
    set when [success] is false; [content] set and [error] unset when
    [success] is true, except for a successful call of the tool
    ["ema_reply"], whose stored result has [success] true and both [content]
    and [error] unset. *)
Theorem run_stores_results (config : AgentConfig) (systemPrompt : string)
    (st : RunState) :
  toolsKeepContract (tools (contextManager st)) ->
  Forall storedAsCoded (messages (contextManager st)) ->
  Forall storedAsCoded
    (messages (contextManager (snd (run w config systemPrompt st)))) /\
  (forall toolCall st1,
     tools (contextManager st1) = tools (contextManager st) ->
     fst (runToolCall w toolCall st1) = Resolved ->
     exists res,
       messages (contextManager (snd (runToolCall w toolCall st1)))
       = messages (contextManager st1) ++
         [MTool {| t_id := tc_id toolCall; t_name := tc_name toolCall; result := res |}] /\
       storedAsCoded
         (MTool {| t_id := tc_id toolCall; t_name := tc_name toolCall; result := res |})).
Proof.
  intros Hc Hm. split.
  - exact (proj2 (runSteps_keeps (maxSteps config) systemPrompt (maxSteps config) 0 st Hc)
             Hm).
  - intros toolCall st1 Ht. apply runToolCall_appends. rewrite Ht. exact Hc.
Qed.

End StoredResults.

Lemma replyTool_keeps_contract : toolsKeepContract [Scenario.replyTool].
Proof.
  intros t Ht n args r Hr. apply list_elem_of_singleton in Ht. subst t.
  simpl in Hr. injection Hr as <-. apply FinalReplyTool_execute_invariant.
Qed.

(** C2 (counterexample). In scenario S1 the tool honours the contract and
    the context starts with a user message only, yet the tool message stored
    for the reply has [success] true and no content. *)
Lemma single_turn_stores_cleared_result :
  toolsKeepContract (tools (contextManager Scenario.start)) /\
  Forall storedAsSpecified (messages (contextManager Scenario.start)) /\
  messages (contextManager
    (snd (run Scenario.singleTurn Scenario.config "sys" Scenario.start))) !! 2
    = Some (MTool {| t_id := Some "call-1"; t_name := "ema_reply";
                     result := {| success := true; content := None; error := None |} |}) /\
  ~ Forall storedAsSpecified
      (messages (contextManager
        (snd (run Scenario.singleTurn Scenario.config "sys" Scenario.start)))).
Proof.
  split; [exact replyTool_keeps_contract|].
  split; [repeat constructor|].
  split; [vm_compute; reflexivity|].
  intros H.
  pose proof (proj1 (Forall_lookup _ _) H 2 _ ltac:(vm_compute; reflexivity)) as H2.
  destruct H2 as [H2 _]. destruct (H2 eq_refl) as [[c Hc] _]. discriminate.
Qed.

(** ** The actor worker: input validation and preemption *)

Section Worker.

Import Actor.

Variable env : Env.

Implicit Types (a b : ActorWorker) (inputs : list Content).

Lemma forallb_isText_false inputs :
  Exists (fun c => type c <> "text") inputs -> forallb isText inputs = false.
Proof.
  induction 1 as [c l Hc|c l _ IH]; simpl.
  - unfold isText. rewrite bool_decide_eq_false_2 by exact Hc. reflexivity.
  - rewrite IH. apply andb_false_r.
Qed.

(** C9. [work] throws for an empty list of inputs and for a list that
    contains a block whose type is not ["text"]; the worker is then exactly
    as it was: its queue, its chain of buffer writes, its status and
    everything else. *)
Theorem work_rejects_invalid_inputs inputs (now : Z) a :
  inputs = [] \/ Exists (fun c => type c <> "text") inputs ->
  exists e,
    work env inputs now a = (inl e, a) /\
    (e = "No inputs provided" \/ e = "Only text input is supported currently") /\
    queue (snd (work env inputs now a)) = queue a /\
    bufferWritePromise (snd (work env inputs now a)) = bufferWritePromise a /\
    currentStatus (snd (work env inputs now a)) = currentStatus a.
Proof.
  intros [->|H].
  - exists "No inputs provided". simpl. auto.
  - exists "Only text input is supported currently".
    unfold work. destruct inputs as [|c l]; [inversion H|].
    rewrite (forallb_isText_false _ H). simpl. auto 6.
Qed.

(** Valid inputs are taken: the record is appended to the queue and its
    write is enqueued. *)
Lemma work_accepts inputs (now : Z) a :
  inputs <> [] -> forallb isText inputs = true ->
  let m := bufferMessageFromUser (userId env) "User" inputs now in
  let a' := snd (work env inputs now a) in
  fst (work env inputs now a)
    = inr (if isBusy a then AbortCurrentRun else ProcessQueue) /\
  queue a' = queue a ++ [m] /\
  waiting (bufferWritePromise a') = waiting (bufferWritePromise a) ++ [m] /\
  currentStatus a' = currentStatus a /\
  hasEmaReplyInRun a' = hasEmaReplyInRun a /\
  agentState a' = agentState a /\
  resumeStateAfterAbort a'
    = (if isBusy a then negb (hasEmaReplyInRun a) else resumeStateAfterAbort a).
Proof.
  intros Hne Htext. unfold work. destruct inputs as [|c l]; [congruence|].
  rewrite Htext. cbn [emitEvent].
  unfold isBusy. cbn.
  destruct (currentStatus a) eqn:Hst; cbn; rewrite ?Hst; repeat split; reflexivity.
Qed.

Lemma toUserMessages_users (batches : list BufferMessage) :
  Forall (fun m => kind m = user) batches ->
  exists userMessages,
    toUserMessages env batches = inl userMessages /\
    Forall2 (fun m u => exists um, bufferMessageToUserMessage env m = inl um /\ u = MUser um)
      batches userMessages.
Proof.
  induction 1 as [|m l Hm _ (us & E & F)]; simpl.
  - exists []. auto.
  - unfold bufferMessageToUserMessage at 1. rewrite Hm, E.
    eexists (_ :: us). split; [reflexivity|]. constructor; [|exact F].
    eexists. split; [|reflexivity]. unfold bufferMessageToUserMessage. rewrite Hm.
    reflexivity.
Qed.

(** C4. A valid call of [work] on a worker that is not idle sets the resume
    flag to the negation of [hasEmaReplyInRun], and the flag has this value
    when the current run is aborted.  An iteration of [processQueue] on a
    queue of user records drains the queue and converts the records to user
    messages; with the resume flag set and an agent state present it appends
    them to the messages of that state, and otherwise it builds a fresh
    state whose messages are exactly the converted records. *)
Theorem preemption_resumes_or_restarts inputs (now : Z) a b :
  inputs <> [] -> forallb isText inputs = true ->
  isBusy a = true ->
  Forall (fun m => kind m = user) (queue b) ->
  (fst (work env inputs now a) = inr AbortCurrentRun /\
   resumeStateAfterAbort (snd (work env inputs now a)) = negb (hasEmaReplyInRun a) /\
   resumeStateAfterAbort (abortCurrentRun (snd (work env inputs now a)))
     = negb (hasEmaReplyInRun a) /\
   abortRequests (abortCurrentRun (snd (work env inputs now a)))
     = (if currentRunPromise a then S (abortRequests a) else abortRequests a)) /\
  (exists userMessages,
     Forall2 (fun m u => exists um, bufferMessageToUserMessage env m = inl um /\ u = MUser um)
       (queue b) userMessages /\
     fst (startRun env b) = None /\
     queue (snd (startRun env b)) = [] /\
     match resumeStateAfterAbort b, agentState b with
     | true, Some s =>
         agentState (snd (startRun env b))
         = Some {| as_systemPrompt := as_systemPrompt s;
                   as_messages := as_messages s ++ userMessages;
                   as_tools := as_tools s |}
     | _, _ =>
         exists prompt,
           agentState (snd (startRun env b))
           = Some {| as_systemPrompt := prompt;
                     as_messages := userMessages;
                     as_tools := config_baseTools env |}
     end).
Proof.
  intros Hne Htext Hbusy Hqueue. split.
  - destruct (work_accepts inputs now a Hne Htext)
      as (Hr & _ & _ & _ & _ & _ & Hflag).
    rewrite Hbusy in Hr, Hflag. split; [exact Hr|]. split; [exact Hflag|].
    unfold abortCurrentRun, work. destruct inputs as [|c l]; [congruence|].
    rewrite Htext. cbn [emitEvent]. unfold isBusy in *. cbn.
    destruct (currentStatus a) eqn:Hst; try discriminate; cbn;
      destruct (currentRunPromise a) eqn:Hp; cbn; rewrite ?Hp; auto.
  - destruct (toUserMessages_users (queue b) Hqueue) as (us & E & F).
    exists us. split; [exact F|].
    unfold startRun. cbn [setStatus setStatusField eventsEmit setQueue queue].
    rewrite E. cbn.
    destruct (resumeStateAfterAbort b), (agentState b) as [s|]; cbn; eauto.
Qed.

(** The queue only ever holds user records: [work] is its only producer. *)
Lemma startRun_queue a : queue (snd (startRun env a)) = [].
Proof.
  unfold startRun. destruct (toUserMessages env _); [|reflexivity].
  cbn [resumeStateAfterAbort agentState setQueue setStatus setStatusField eventsEmit].
  destruct (resumeStateAfterAbort a), (agentState a); reflexivity.
Qed.

Lemma processLoop_queue a : queue (processLoop env a) = [].
Proof.
  unfold processLoop. destruct (queue a) eqn:Hq; [exact Hq|].
  pose proof (startRun_queue a) as H.
  destruct (startRun env a) as [[e|] a']; exact H.
Qed.

Lemma finishRun_queue a : queue (finishRun a) = queue a.
Proof.
  unfold finishRun. cbn.
  destruct (resumeStateAfterAbort a) eqn:Hr; cbn; rewrite ?Hr;
    destruct (queue a) eqn:Hq; cbn; rewrite ?Hq; reflexivity.
Qed.

Lemma act_user_queue (x : Action) a :
  Forall (fun m => kind m = user) (queue a) ->
  Forall (fun m => kind m = user) (queue (act env x a)).
Proof.
  intros H. destruct x as [inputs now|e now|s|]; cbn [act].
  - unfold work. destruct inputs as [|c l]; [exact H|].
    destruct (forallb isText (c :: l)); [|exact H]. cbn [emitEvent].
    match goal with |- context [isBusy ?s] => destruct (isBusy s) end.
    + unfold abortCurrentRun.
      match goal with |- context [currentRunPromise ?s] => destruct (currentRunPromise s) end;
        cbn; apply Forall_app; split; auto.
    + unfold processQueue.
      match goal with |- context [processingQueue ?s] => destruct (processingQueue s) end.
      * cbn. apply Forall_app. split; auto.
      * rewrite processLoop_queue. constructor.
  - destruct e; exact H.
  - destruct (currentRunPromise a); [|exact H]. destruct s.
    + rewrite processLoop_queue. constructor.
    + cbn. rewrite finishRun_queue. exact H.
  - unfold bufferWriteTurn.
    destruct (writing (bufferWritePromise a)) as [m|].
    + exact H.
    + destruct (waiting (bufferWritePromise a)); [exact H|].
      destruct (settled (bufferWritePromise a)); exact H.
Qed.

Lemma queue_holds_user_records (xs : list Action) :
  Forall (fun m => kind m = user) (queue (perform env xs newActorWorker)).
Proof.
  unfold perform.
  assert (H : Forall (fun m => kind m = user) (queue newActorWorker)) by constructor.
  revert H. generalize newActorWorker.
  induction xs as [|x xs IH]; intros a H; cbn; [exact H|].
  apply IH, act_user_queue, H.
Qed.

End Worker.

(** ** The actor worker: the chain of buffer writes *)

Section BufferChain.

Import Actor Interleaved ChainSpec.

Variable env : Env.
Variable promptFile : nat -> string + string.

Implicit Types (a : ActorWorker) (c : BufferChain) (ms : list BufferMessage)
  (s : State).

(** Enqueueing keeps the invariant, for the longer list of writes. *)
Lemma chainInvariant_enqueue start log0 written ms a a' :
  chainInvariant start log0 written a ->
  onlyEnqueues ms a a' ->
  chainInvariant start log0 (written ++ ms) a'.
Proof.
  intros (Hs & Hl & stored & Hb & Hc) (Hbuf & Hchain & Hlog).
  rewrite Hs in Hchain.
  split; [rewrite Hchain; reflexivity|]. split; [congruence|].
  exists stored. rewrite Hbuf, Hchain. cbn [writing waiting].
  split; [exact Hb|]. rewrite Hc, <- !app_assoc. reflexivity.
Qed.

(** A turn of the chain keeps the invariant: the write in flight is
    stored, or the next one starts. *)
Lemma chainInvariant_turn start log0 written a :
  chainInvariant start log0 written a ->
  chainInvariant start log0 written (bufferWriteTurn env a).
Proof.
  intros (Hs & Hl & stored & Hb & Hc). unfold bufferWriteTurn.
  destruct (bufferWritePromise a) as [state current rest] eqn:Hchain.
  cbn [settled writing waiting] in *. subst state.
  destruct current as [m|].
  - split; [reflexivity|]. split; [exact Hl|].
    exists (stored ++ [m]). cbn. rewrite Hb, <- app_assoc.
    split; [reflexivity|]. rewrite Hc, <- app_assoc. reflexivity.
  - destruct rest as [|m rest].
    + split; [rewrite Hchain; reflexivity|]. split; [exact Hl|].
      exists stored. rewrite Hchain. auto.
    + split; [reflexivity|]. split; [exact Hl|]. exists stored. cbn. auto.
Qed.

Lemma onlyEnqueues_same a a' :
  _buffer a' = _buffer a -> bufferWritePromise a' = bufferWritePromise a ->
  logged a' = logged a ->
  onlyEnqueues [] a a'.
Proof.
  intros Hb Hc Hl. split; [exact Hb|]. split; [|rewrite Hl; reflexivity].
  rewrite Hc, app_nil_r. destruct (bufferWritePromise a); reflexivity.
Qed.

Lemma onlyEnqueues_then ms a a' a'' :
  onlyEnqueues ms a a' -> onlyEnqueues [] a' a'' -> onlyEnqueues ms a a''.
Proof.
  intros (Hb & Hc & Hl) (Hb' & Hc' & Hl'). split; [congruence|]. split; [|congruence].
  rewrite Hc', Hc. cbn. rewrite app_nil_r. reflexivity.
Qed.

Lemma launch_store a : onlyEnqueues [] a (launch a).
Proof. apply onlyEnqueues_same; reflexivity. Qed.

Lemma loop_store s : onlyEnqueues [] (worker s) (worker (loop env promptFile s)).
Proof.
  unfold loop. destruct (queue (worker s)); [apply onlyEnqueues_same; reflexivity|].
  cbn [setStatus setStatusField eventsEmit setQueue resumeStateAfterAbort agentState queue].
  destruct (resumeStateAfterAbort (worker s)), (agentState (worker s));
    try (destruct (promptFile (reads s)); apply onlyEnqueues_same; reflexivity).
  destruct (toUserMessages env _); apply onlyEnqueues_same; reflexivity.
Qed.

Lemma finishRun_store a : onlyEnqueues [] a (finishRun a).
Proof.
  unfold finishRun. cbn.
  destruct (resumeStateAfterAbort a) eqn:Hr; cbn; rewrite ?Hr;
    destruct (queue a); apply onlyEnqueues_same; reflexivity.
Qed.

Lemma abortCurrentRun_store a : onlyEnqueues [] a (abortCurrentRun a).
Proof.
  unfold abortCurrentRun. destruct (currentRunPromise a);
    apply onlyEnqueues_same; reflexivity.
Qed.

Lemma writeErrors_debug l msg : writeErrors (l ++ [LogDebug msg]) = writeErrors l.
Proof. unfold writeErrors. rewrite filter_app. cbn. apply app_nil_r. Qed.

(** A step other than a turn of the chain enqueues its writes and leaves
    the store alone. *)
Lemma step_store (x : Step) s :
  x <> ChainTurn ->
  onlyEnqueues (enqueuedBy env x) (worker s) (worker (step env promptFile x s)).
Proof.
  intros Hx. destruct x as [inputs now|e now|r| | |]; [| | |congruence| |];
    cbn [step enqueuedBy].
  - unfold work. destruct inputs as [|c l]; [apply onlyEnqueues_same; reflexivity|].
    destruct (forallb isText (c :: l)); [|apply onlyEnqueues_same; reflexivity].
    cbn [emitEvent].
    match goal with |- context [isBusy ?b] => destruct (isBusy b) end.
    + eapply onlyEnqueues_then; [|apply abortCurrentRun_store].
      split; [reflexivity|]. split; [reflexivity|]. apply writeErrors_debug.
    + match goal with |- context [processingQueue ?b] => destruct (processingQueue b) end;
        cbn [worker].
      * split; [reflexivity|]. split; [reflexivity|]. apply writeErrors_debug.
      * eapply onlyEnqueues_then; [|apply loop_store]. cbn [worker].
        split; [reflexivity|]. split; [reflexivity|]. apply writeErrors_debug.
  - destruct e; try (apply onlyEnqueues_same; reflexivity).
    split; [reflexivity|]. split; reflexivity.
  - destruct (currentRunPromise (worker s)); [|apply onlyEnqueues_same; reflexivity].
    destruct r.
    + eapply onlyEnqueues_then; [apply finishRun_store|].
      exact (loop_store {| worker := finishRun (worker s); suspended := suspended s;
                           reads := reads s |}).
    + eapply onlyEnqueues_then; [apply finishRun_store|].
      apply onlyEnqueues_same; reflexivity.
  - destruct (suspended s) as [[batches template|batches prompt]|];
      apply onlyEnqueues_same; reflexivity.
  - destruct (suspended s) as [[batches template|batches prompt]|];
      try (apply onlyEnqueues_same; reflexivity).
    destruct (toUserMessages env batches); apply onlyEnqueues_same; reflexivity.
Qed.

Lemma chainInvariant_step start log0 written (x : Step) s :
  chainInvariant start log0 written (worker s) ->
  chainInvariant start log0 (written ++ enqueuedBy env x)
    (worker (step env promptFile x s)).
Proof.
  intros H.
  assert (Hx : x = ChainTurn \/ x <> ChainTurn)
    by (destruct x; auto; right; discriminate).
  destruct Hx as [->|Hx].
  - cbn. rewrite app_nil_r. apply chainInvariant_turn, H.
  - eapply chainInvariant_enqueue; [exact H|apply step_store, Hx].
Qed.

Lemma chainInvariant_steps xs : forall start log0 written s,
  chainInvariant start log0 written (worker s) ->
  chainInvariant start log0 (written ++ enqueued env xs)
    (worker (steps env promptFile xs s)).
Proof.
  induction xs as [|x xs IH]; intros start log0 written s H; cbn.
  - rewrite app_nil_r. exact H.
  - rewrite app_assoc. apply IH. apply chainInvariant_step, H.
Qed.

Lemma chainInvariant_idle a :
  bufferWritePromise a = idleChain -> chainInvariant (_buffer a) (logged a) [] a.
Proof.
  intros H. split; [rewrite H; reflexivity|]. split; [reflexivity|].
  exists []. rewrite H, app_nil_r. cbn. auto.
Qed.

(** Once the chain has nothing left to do, the buffer holds all the
    writes. *)
Lemma chainInvariant_settled start log0 written a :
  chainInvariant start log0 written a ->
  pendingTurns (bufferWritePromise a) = 0 ->
  _buffer a = start ++ written.
Proof.
  intros (_ & _ & stored & -> & Hc) Hp. f_equal. unfold pendingTurns in Hp.
  destruct (writing (bufferWritePromise a)); [lia|].
  destruct (waiting (bufferWritePromise a)); [|simpl in Hp; lia].
  rewrite Hc. simpl. rewrite app_nil_r. reflexivity.
Qed.

(** Every turn does some of the work that is left. *)
Lemma pendingTurns_turn a :
  pendingTurns (bufferWritePromise (bufferWriteTurn env a))
    <= pendingTurns (bufferWritePromise a) - 1.
Proof.
  unfold bufferWriteTurn, pendingTurns.
  destruct (bufferWritePromise a) as [state current rest] eqn:Hchain.
  cbn [settled writing waiting].
  destruct current as [m|].
  - cbn; lia.
  - destruct rest as [|m rest]; [rewrite Hchain; cbn; lia|].
    destruct state; cbn; lia.
Qed.

Lemma pendingTurns_iter n : forall a,
  pendingTurns (bufferWritePromise (Nat.iter n (bufferWriteTurn env) a))
    <= pendingTurns (bufferWritePromise a) - n.
Proof.
  induction n as [|n IH]; intros a; simpl; [lia|].
  pose proof (pendingTurns_turn (Nat.iter n (bufferWriteTurn env) a)).
  specialize (IH a). lia.
Qed.

Lemma chainInvariant_iter start log0 written n : forall a,
  chainInvariant start log0 written a ->
  chainInvariant start log0 written (Nat.iter n (bufferWriteTurn env) a).
Proof.
  induction n as [|n IH]; intros a H; simpl; [exact H|].
  apply chainInvariant_turn, IH, H.
Qed.

(** [settle] leaves nothing to do. *)
Lemma settle_done a : pendingTurns (bufferWritePromise (Actor.settle env a)) = 0.
Proof.
  unfold Actor.settle.
  pose proof (pendingTurns_iter (2 * length (waiting (bufferWritePromise a)) + 1) a) as H.
  unfold pendingTurns in H at 2.
  destruct (writing (bufferWritePromise a)); lia.
Qed.

(** C5. Start from a worker whose chain of buffer writes is idle and let
    calls of [work], events of the agent, settled runs, resumptions of a
    suspended iteration and turns of the chain happen in any order.  At
    every moment the writes enqueued so far are, in the order they were
    enqueued: those the buffer has grown by, then the one write in flight if
    there is one, then the writes that wait; so a write starts only when
    every write enqueued before it has been stored.  The chain is never
    rejected and logs no error: [addBuffer] pushes the record on an array,
    which cannot fail.  Once the chain has run out, the buffer has grown by
    all the enqueued writes, in the order they were enqueued. *)
Theorem buffer_writes_in_order (xs : list Step) s :
  bufferWritePromise (worker s) = idleChain ->
  let s' := steps env promptFile xs s in
  let chain := bufferWritePromise (worker s') in
  (exists stored,
     _buffer (worker s') = _buffer (worker s) ++ stored /\
     enqueued env xs = stored ++ option_list (writing chain) ++ waiting chain) /\
  settled chain = Fulfilled /\
  writeErrors (logged (worker (Interleaved.settle env s')))
    = writeErrors (logged (worker s)) /\
  _buffer (worker (Interleaved.settle env s')) = _buffer (worker s) ++ enqueued env xs.
Proof.
  intros Hidle s' chain.
  pose proof (chainInvariant_steps xs _ _ _ s (chainInvariant_idle _ Hidle)) as Hinv.
  cbn [app] in Hinv. fold s' in Hinv.
  destruct Hinv as (Hs & Hl & stored & Hb & Hc).
  split; [exists stored; auto|]. split; [exact Hs|].
  assert (Hfinal : chainInvariant (_buffer (worker s)) (logged (worker s))
                     (enqueued env xs) (Actor.settle env (worker s'))).
  { apply chainInvariant_iter. split; [exact Hs|]. split; [exact Hl|]. eauto. }
  split.
  - exact (proj1 (proj2 Hfinal)).
  - cbn [Interleaved.settle worker].
    apply (chainInvariant_settled _ _ _ _ Hfinal), settle_done.
Qed.

End BufferChain.

Example single_turn_events :
  map (fun e => match e with
                | stepStarted n _ => "stepStarted " +:+ Js.showNat n
                | llmResponseReceived _ => "llmResponseReceived"
                | toolCallStarted _ f _ => "toolCallStarted " +:+ f
                | toolCallFinished _ _ f _ => "toolCallFinished " +:+ f
                | emaReplyReceived _ => "emaReplyReceived"
                | runFinished _ m => "runFinished " +:+ m
                | _ => "other"
                end)
      (emitted (snd (run Scenario.singleTurn Scenario.config "sys" Scenario.start)))
  = ["stepStarted 1"; "llmResponseReceived"; "toolCallStarted ema_reply";
     "toolCallFinished ema_reply"; "emaReplyReceived";
     "stepStarted 2"; "llmResponseReceived"; "runFinished stop"].
Proof. vm_compute. reflexivity. Qed.


(** * The theorems at work on the scenarios *)

(** C6 (counterexample). Three user messages, each followed by messages of
    the model, and a model whose summaries are empty: the list is rebuilt
    with the three user messages alone and [summaryCount] is 0, where the
    specification announces six messages and a count of 3. *)
Lemma empty_summaries_are_dropped :
  let st := Scenario.overLimit in
  let st' := summarizeMessages Scenario.silent st in
  let rs := rounds (messages (contextManager st)) in
  let texts := fst (roundSummaries Scenario.silent 0 rs (started Scenario.silent st)) in
  length rs = 3 /\
  Forall (fun r => snd r <> []) rs /\
  messages (contextManager st')
    = [Scenario.ask "one"; Scenario.ask "two"; Scenario.ask "three"] /\
  length (leadingMessage (messages (contextManager st)) ++ rebuiltAsSpecified rs texts) = 6 /\
  messages (contextManager st')
    <> leadingMessage (messages (contextManager st)) ++ rebuiltAsSpecified rs texts /\
  last (emitted st')
    = Some (summarizeMessagesFinished true finishedNotice (Some (94%Z, 23%Z, 3, 0))).
Proof.
  intros st st' rs texts.
  assert (Hm : messages (contextManager st')
               = [Scenario.ask "one"; Scenario.ask "two"; Scenario.ask "three"])
    by (vm_compute; reflexivity).
  assert (Hs : length (leadingMessage (messages (contextManager st)) ++
                       rebuiltAsSpecified rs texts) = 6)
    by (vm_compute; reflexivity).
  split; [vm_compute; reflexivity|].
  split; [vm_compute; repeat constructor; discriminate|].
  split; [exact Hm|]. split; [exact Hs|].
  split; [|vm_compute; reflexivity].
  intros H. rewrite <- H, Hm in Hs. discriminate.
Qed.

(** Scenario S4 with a model that is down: the fallback renderings are the
    summaries, the rebuilt list has six messages and the count is 3; the next
    call only clears the skip flag. *)
Example three_rounds_summarized :
  let st' := summarizeMessages Scenario.offline Scenario.overLimit in
  map isUserMessage (messages (contextManager st')) = [true; true; true; true; true; true] /\
  messages (contextManager st') !! 0 = Some (Scenario.ask "one") /\
  messages (contextManager st') !! 2 = Some (Scenario.ask "two") /\
  messages (contextManager st') !! 4 = Some (Scenario.ask "three") /\
  skipNextTokenCheck (contextManager st') = true /\
  messages (contextManager (summarizeMessages Scenario.offline st'))
    = messages (contextManager st') /\
  skipNextTokenCheck (contextManager (summarizeMessages Scenario.offline st')) = false.
Proof. vm_compute. repeat split; reflexivity. Qed.

(** The hypotheses of the theorem on the rebuilt list hold in scenario S4
    with a model that is down. *)
Lemma summarizeMessages_rebuilt_by_rounds_witness :
  let w := Scenario.offline in
  let st := Scenario.overLimit in
  let rs := rounds (messages (contextManager st)) in
  let texts := fst (roundSummaries w 0 rs (started w st)) in
  skipNextTokenCheck (contextManager st) = false /\
  overLimit w st /\
  rs <> [] /\
  messages (contextManager (summarizeMessages w st))
    = leadingMessage (messages (contextManager st)) ++ rebuiltAsCoded rs texts /\
  length (rebuiltAsCoded rs texts) = 2 * length rs /\
  summariesIn Js.truthy rs texts = length rs.
Proof.
  intros w st rs texts.
  assert (H1 : skipNextTokenCheck (contextManager st) = false) by reflexivity.
  assert (H2 : overLimit w st) by (left; vm_compute; reflexivity).
  assert (H3 : rs <> []) by (vm_compute; discriminate).
  assert (Hw : writesSummaries w) by (intros n ms ts sp r H; discriminate H).
  assert (Hall : Forall (fun r => snd r <> []) rs)
    by (vm_compute; repeat constructor; discriminate).
  destruct (summarizeMessages_rebuilt_by_rounds w st H1 H2 H3) as (Hm & _ & _ & Hcount).
  destruct (Hcount Hw Hall) as [Hlen Hsum].
  repeat split; assumption.
Defined.

(** The hypotheses of the theorem on stored results hold in scenario S1. *)
Lemma run_stores_results_witness :
  toolsKeepContract (tools (contextManager Scenario.start)) /\
  Forall storedAsCoded (messages (contextManager Scenario.start)) /\
  Forall storedAsCoded
    (messages (contextManager
      (snd (run Scenario.singleTurn Scenario.config "sys" Scenario.start)))).
Proof.
  assert (H1 : toolsKeepContract (tools (contextManager Scenario.start)))
    by exact replyTool_keeps_contract.
  assert (H2 : Forall storedAsCoded (messages (contextManager Scenario.start)))
    by (repeat constructor).
  split; [exact H1|]. split; [exact H2|].
  exact (proj1 (run_stores_results Scenario.singleTurn Scenario.config "sys"
                  Scenario.start H1 H2)).
Defined.

(** An input that is not text is refused by a fresh worker. *)
Lemma work_rejects_invalid_inputs_witness :
  ([ActorScenario.image] = [] \/
   Exists (fun c => type c <> "text") [ActorScenario.image]) /\
  exists e,
    Actor.work ActorScenario.inMemory [ActorScenario.image] 0 Actor.newActorWorker
      = (inl e, Actor.newActorWorker) /\
    (e = "No inputs provided" \/ e = "Only text input is supported currently") /\
    Actor.queue (snd (Actor.work ActorScenario.inMemory [ActorScenario.image] 0
                        Actor.newActorWorker)) = Actor.queue Actor.newActorWorker /\
    Actor.bufferWritePromise
      (snd (Actor.work ActorScenario.inMemory [ActorScenario.image] 0 Actor.newActorWorker))
      = Actor.bufferWritePromise Actor.newActorWorker /\
    Actor.currentStatus
      (snd (Actor.work ActorScenario.inMemory [ActorScenario.image] 0 Actor.newActorWorker))
      = Actor.currentStatus Actor.newActorWorker.
Proof.
  assert (H : [ActorScenario.image] = [] \/
              Exists (fun c => type c <> "text") [ActorScenario.image])
    by (right; constructor; discriminate).
  split; [exact H|].
  exact (work_rejects_invalid_inputs ActorScenario.inMemory [ActorScenario.image] 0
           Actor.newActorWorker H).
Defined.

(** Input for a worker in the middle of a run that has not replied: the flag
    is set, the state survives the end of the run, and the next run resumes
    it. *)
Lemma preemption_resumes_or_restarts_witness :
  let env := ActorScenario.inMemory in
  let inputs := ActorScenario.say "more" in
  let a := ActorScenario.busy false in
  let b := Actor.finishRun (Actor.abortCurrentRun (snd (Actor.work env inputs 5 a))) in
  inputs <> [] /\ forallb isText inputs = true /\ Actor.isBusy a = true /\
  Forall (fun m => Actor.kind m = Actor.user) (Actor.queue b) /\
  Actor.resumeStateAfterAbort (snd (Actor.work env inputs 5 a)) = true /\
  Actor.resumeStateAfterAbort b = true /\
  exists userMessages,
    length userMessages = 1 /\
    Actor.agentState (snd (Actor.startRun env b))
    = Some {| Actor.as_systemPrompt := "Recent: None.";
              Actor.as_messages :=
                [MUser {| u_contents := ActorScenario.say "first" |}] ++ userMessages;
              Actor.as_tools := [] |}.
Proof.
  intros env inputs a b.
  assert (H1 : inputs <> []) by discriminate.
  assert (H2 : forallb isText inputs = true) by reflexivity.
  assert (H3 : Actor.isBusy a = true) by reflexivity.
  assert (H4 : Forall (fun m => Actor.kind m = Actor.user) (Actor.queue b))
    by (vm_compute; repeat constructor).
  destruct (preemption_resumes_or_restarts env inputs 5 a b H1 H2 H3 H4)
    as [(_ & Hflag & _ & _) (us & HF & _ & _ & Hstate)].
  split; [exact H1|]. split; [exact H2|]. split; [exact H3|]. split; [exact H4|].
  split; [exact Hflag|]. split; [reflexivity|].
  exists us. split; [|exact Hstate].
  apply Forall2_length in HF. rewrite <- HF. reflexivity.
Defined.

(** A schedule on a fresh worker: an input, a second input that comes in
    while the iteration started by the first is suspended, a reply of the
    agent, and turns of the chain in between. *)
Lemma buffer_writes_in_order_witness :
  let env := ActorScenario.inMemory in
  let xs := ActorScenario.schedule in
  let s := Interleaved.initial in
  Actor.bufferWritePromise (Interleaved.worker s) = ChainSpec.idleChain /\
  Actor._buffer
    (Interleaved.worker
       (Interleaved.settle env (Interleaved.steps env ActorScenario.promptFile xs s)))
  = Actor._buffer (Interleaved.worker s) ++ Interleaved.enqueued env xs.
Proof.
  intros env xs s.
  assert (H : Actor.bufferWritePromise (Interleaved.worker s) = ChainSpec.idleChain)
    by reflexivity.
  split; [exact H|].
  exact (proj2 (proj2 (proj2
           (buffer_writes_in_order env ActorScenario.promptFile xs s H)))).
Defined.

(** The three records of this schedule are stored in the order they were
    enqueued; the second input is stored although it came in while the
    worker was preparing the run of the first. *)
Example buffer_order_in_memory :
  let env := ActorScenario.inMemory in
  let s := Interleaved.steps env ActorScenario.promptFile ActorScenario.schedule
             Interleaved.initial in
  map (fun m => (Actor.kindText (Actor.kind m), Actor.time m))
      (Actor._buffer (Interleaved.worker (Interleaved.settle env s)))
  = [("user", 1%Z); ("user", 2%Z); ("actor", 3%Z)] /\
  Actor.currentStatus (Interleaved.worker s) = Actor.running /\
  map (fun m => Actor.time m) (Actor.queue (Interleaved.worker s)) = [2%Z].
Proof. vm_compute. repeat split; reflexivity. Qed.

(** The prompt line of a buffer record. *)
Example buffer_record_line :
  Actor.bufferMessageToPrompt ActorScenario.inMemory
    (Actor.bufferMessageFromUser 1 "Alice" (ActorScenario.say "hi") 42)
  = "- [42][role:user][id:1][name:Alice] hi".
Proof. vm_compute. reflexivity. Qed.

(** Scenario S2: input arrives during a run that has not replied; the run
    is aborted and the next run resumes its state with the new input. *)
Example preemption_without_reply :
  let a := Actor.act ActorScenario.inMemory (Actor.RunSettled Resolved)
             (Actor.act ActorScenario.inMemory (Actor.Work (ActorScenario.say "more") 5)
                (ActorScenario.busy false)) in
  Actor.abortRequests a = 1 /\
  Actor.currentStatus a = Actor.running /\
  option_map (fun s => map isUserMessage (Actor.as_messages s)) (Actor.agentState a)
    = Some [true; true] /\
  option_map (fun s => Actor.as_messages s !! 0) (Actor.agentState a)
    = Some (Some (MUser {| u_contents := ActorScenario.say "first" |})).
Proof. vm_compute. repeat split; reflexivity. Qed.

(** Scenario S3: input arrives during a run that has replied; the next run
    starts from the new input alone. *)
Example preemption_after_reply :
  let a := Actor.act ActorScenario.inMemory (Actor.RunSettled Resolved)
             (Actor.act ActorScenario.inMemory (Actor.Work (ActorScenario.say "more") 5)
                (ActorScenario.busy true)) in
  Actor.abortRequests a = 1 /\
  Actor.currentStatus a = Actor.running /\
  option_map (fun s => map isUserMessage (Actor.as_messages s)) (Actor.agentState a)
    = Some [true] /\
  option_map (fun s => Actor.as_tools s) (Actor.agentState a) = Some [].
Proof. vm_compute. repeat split; reflexivity. Qed.

(** * The final-reply tool: the content determines the reply *)

Section ReplyText.

Import Unquote.

Lemma append_inj_l (p x y : string) : p +:+ x = p +:+ y -> x = y.
Proof.
  induction p as [|c p IH]; [auto|].
  change (String c (p +:+ x) = String c (p +:+ y) -> x = y).
  intros [= H]. auto.
Qed.

(** Reading back the quoting of one character. *)
Lemma unquoteHead_quoteChar (c : Ascii.ascii) (rest : string) :
  unquoteHead (Js.quoteChar c +:+ rest) = Some (c, rest).
Proof.
  destruct c as [[] [] [] [] [] [] [] []]; reflexivity.
Qed.

Lemma unquoteHead_dquote (rest : string) : unquoteHead (String Js.dquote rest) = None.
Proof. reflexivity. Qed.

(** A quoted body ends at the first bare quote. *)
Lemma quoteBody_split (s1 : string) : forall s2 rest1 rest2,
  Js.quoteBody s1 +:+ String Js.dquote rest1 = Js.quoteBody s2 +:+ String Js.dquote rest2 ->
  s1 = s2 /\ rest1 = rest2.
Proof.
  induction s1 as [|c1 s1 IH]; intros [|c2 s2] rest1 rest2; cbn [Js.quoteBody];
    rewrite ?append_assoc; intros H.
  - cbn in H. injection H as H. auto.
  - apply (f_equal unquoteHead) in H.
    rewrite unquoteHead_quoteChar in H. discriminate H.
  - apply (f_equal unquoteHead) in H.
    rewrite unquoteHead_quoteChar in H. discriminate H.
  - apply (f_equal unquoteHead) in H. rewrite !unquoteHead_quoteChar in H.
    injection H as -> H. destruct (IH _ _ _ H) as [-> ->]. auto.
Qed.

Lemma replyText_inj t1 e1 a1 r1 t2 e2 a2 r2 :
  replyText t1 e1 a1 r1 = replyText t2 e2 a2 r2 ->
  t1 = t2 /\ e1 = e2 /\ a1 = a2 /\ r1 = r2.
Proof.
  unfold replyText. intros H.
  apply append_inj_l, quoteBody_split in H as [-> H].
  apply append_inj_l, quoteBody_split in H as [-> H].
  apply append_inj_l, quoteBody_split in H as [-> H].
  apply append_inj_l, quoteBody_split in H as [-> _].
  auto.
Qed.

(** X28. The content of a reply determines the reply: two normalized
    replies with the same JSON text have the same four fields, whatever
    quotes, backslashes, newlines or control characters the fields hold.  So
    two calls of [FinalReplyTool.execute] with string arguments return the
    same result only when their arguments are the same. *)
Theorem reply_content_determines_reply :
  (forall r1 r2 : LLMReply.t,
     LLMReply.stringify2 r1 = LLMReply.stringify2 r2 -> r1 = r2) /\
  (forall t1 e1 a1 r1 t2 e2 a2 r2 : string,
     FinalReplyTool.execute (Js.ofString t1) (Js.ofString e1) (Js.ofString a1)
       (Js.ofString r1)
     = FinalReplyTool.execute (Js.ofString t2) (Js.ofString e2) (Js.ofString a2)
         (Js.ofString r2) ->
     t1 = t2 /\ e1 = e2 /\ a1 = a2 /\ r1 = r2).
Proof.
  assert (Hinj : forall r1 r2 : LLMReply.t,
            LLMReply.stringify2 r1 = LLMReply.stringify2 r2 -> r1 = r2).
  { intros [t1 e1 a1 r1] [t2 e2 a2 r2] H. rewrite !stringify2_replyText in H.
    cbn [LLMReply.think LLMReply.expression LLMReply.action LLMReply.response] in H.
    apply replyText_inj in H as (-> & -> & -> & ->). reflexivity. }
  split; [exact Hinj|].
  intros t1 e1 a1 r1 t2 e2 a2 r2 H.
  change (FinalReplyTool.execute (Js.ofString t1) (Js.ofString e1) (Js.ofString a1)
            (Js.ofString r1))
    with {| success := true;
            content := Some (LLMReply.stringify2
                               {| LLMReply.think := t1; LLMReply.expression := e1;
                                  LLMReply.action := a1; LLMReply.response := r1 |});
            error := None |} in H.
  change (FinalReplyTool.execute (Js.ofString t2) (Js.ofString e2) (Js.ofString a2)
            (Js.ofString r2))
    with {| success := true;
            content := Some (LLMReply.stringify2
                               {| LLMReply.think := t2; LLMReply.expression := e2;
                                  LLMReply.action := a2; LLMReply.response := r2 |});
            error := None |} in H.
  apply (f_equal (fun res => default "" (content res))) in H.
  cbv beta in H. cbn [content default from_option] in H. unfold id in H.
  apply Hinj in H. injection H as -> -> -> ->. auto.
Qed.

End ReplyText.

(** * The agent loop: the shape of a run *)

Section RunShape.

Variable w : World.

Implicit Types (st : RunState) (d : list AgentEvent) (P : AgentEvent -> bool).

Lemma addsOnly_refl P st : addsOnly P st st.
Proof. exists []. rewrite app_nil_r. auto. Qed.

Lemma addsOnly_trans P st1 st2 st3 :
  addsOnly P st1 st2 -> addsOnly P st2 st3 -> addsOnly P st1 st3.
Proof.
  intros (d1 & E1 & Q1) (d2 & E2 & Q2). exists (d1 ++ d2).
  rewrite E2, E1, app_assoc. split; [reflexivity|]. apply Forall_app; auto.
Qed.

Lemma addsOnly_emit_r P e st st' :
  P e = true -> addsOnly P st st' -> addsOnly P st (emit e st').
Proof.
  intros H (d & E & Q). exists (d ++ [e]). cbn [emit emitted].
  rewrite E, app_assoc. split; [reflexivity|]. apply Forall_app; auto.
Qed.

Lemma addsOnly_same_r P st st' st'' :
  emitted st'' = emitted st' -> addsOnly P st st' -> addsOnly P st st''.
Proof. intros H (d & E & Q). exists d. rewrite H. auto. Qed.

Lemma estimateTokens_summary st :
  addsOnly isSummaryEvent st (snd (estimateTokens w st)).
Proof.
  unfold estimateTokens. destruct (countTokens _ _); cbn [snd].
  - apply addsOnly_refl.
  - apply addsOnly_emit_r; [reflexivity|apply addsOnly_refl].
Qed.

Lemma createSummary_summary ms roundNum st :
  addsOnly isSummaryEvent st (snd (createSummary w ms roundNum st)).
Proof.
  unfold createSummary. destruct ms; [apply addsOnly_refl|].
  destruct (generate w _ _ _ _); cbn [snd];
    (apply addsOnly_emit_r; [reflexivity|]);
    (eapply addsOnly_same_r; [|apply addsOnly_refl]); reflexivity.
Qed.

Lemma summarizeRounds_summary ms remaining : forall i newMessages summaryCount st,
  addsOnly isSummaryEvent st
    (snd (summarizeRounds w ms i remaining newMessages summaryCount st)).
Proof.
  induction remaining as [|userIdx rest IH]; intros i newMessages summaryCount st.
  - apply addsOnly_refl.
  - cbn [summarizeRounds]. destruct (Nat.ltb 0 _); [|apply IH].
    pose proof (createSummary_summary
      (slice (userIdx + 1) match rest with [] => length ms | next :: _ => next end ms)
      (i + 1) st) as Hc.
    destruct (createSummary w _ _ st) as [txt st1]. cbn [snd] in Hc.
    destruct (Js.truthy txt); (eapply addsOnly_trans; [exact Hc|apply IH]).
Qed.

(** [summarizeMessages] emits events of the summarization only. *)
Lemma summarizeMessages_summary st :
  addsOnly isSummaryEvent st (summarizeMessages w st).
Proof.
  unfold summarizeMessages.
  destruct (skipNextTokenCheck _).
  { eapply addsOnly_same_r; [|apply addsOnly_refl]. reflexivity. }
  pose proof (estimateTokens_summary st) as H1.
  destruct (estimateTokens w st) as [est st1]. cbn [snd] in H1.
  destruct (negb _); [exact H1|].
  destruct (Nat.ltb _ 1).
  { do 2 (apply addsOnly_emit_r; [reflexivity|]). exact H1. }
  match goal with
  | |- context [summarizeRounds w ?a ?b ?c ?d ?e ?s] =>
      pose proof (summarizeRounds_summary a c b d e s) as H3;
      destruct (summarizeRounds w a b c d e s) as [[newMessages summaryCount] st3]
  end.
  cbn [snd] in H3.
  match goal with
  | |- context [estimateTokens w ?s] =>
      pose proof (estimateTokens_summary s) as H5;
      destruct (estimateTokens w s) as [newTokens st5]
  end.
  cbn [snd] in H5.
  apply addsOnly_emit_r; [reflexivity|].
  eapply addsOnly_trans; [|exact H5].
  eapply addsOnly_same_r; [reflexivity|].
  eapply addsOnly_trans; [|exact H3].
  apply addsOnly_emit_r; [reflexivity|exact H1].
Qed.

(** One tool call: its events. *)
Lemma runToolCall_trace tc st :
  exists d,
    emitted (snd (runToolCall w tc st)) = emitted st ++ d /\
    CallTrace w tc (fst (runToolCall w tc st)) d.
Proof.
  unfold runToolCall.
  pose proof (executeTool_emitted (tc_name tc) (tc_args tc)
    (emit (toolCallStarted (idOrEmpty (tc_id tc)) (tc_name tc) (tc_args tc)) st)) as He.
  destruct (executeTool _ _ _) as [[res|] st2]; cbn [snd] in He.
  2:{ cbn [fst snd]. exists [callStarted tc].
      split; [rewrite He; reflexivity|apply CallTrace_threw]. }
  destruct (success res) eqn:Hs.
  - destruct (bool_decide (tc_name tc = "ema_reply")) eqn:Hn; cbn [andb].
    + pose proof Hn as Hn'. apply bool_decide_eq_true in Hn'.
      destruct (parseContent w res) as [reply|] eqn:Hp; cbn [fst snd].
      * exists [callStarted tc; callFinished tc res; emaReplyReceived reply].
        split; [|apply CallTrace_reply; assumption].
        unfold callStarted, callFinished. rewrite Hs.
        cbn [setContext emit emitted]. rewrite He. cbn [emit emitted].
        rewrite <- !app_assoc. reflexivity.
      * exists [callStarted tc; callFinished tc res].
        split; [|apply CallTrace_rejected; assumption].
        unfold callStarted, callFinished. rewrite Hs.
        cbn [emit emitted]. rewrite He. cbn [emit emitted].
        rewrite <- !app_assoc. reflexivity.
    + cbn [fst snd]. exists [callStarted tc; callFinished tc res].
      split; [|apply CallTrace_plain; rewrite Hs, Hn; reflexivity].
      unfold callStarted, callFinished. rewrite Hs.
      cbn [setContext emit emitted]. rewrite He. cbn [emit emitted].
      rewrite <- !app_assoc. reflexivity.
  - cbn [fst snd]. exists [callStarted tc; callFinished tc res].
    split; [|apply CallTrace_plain; rewrite Hs; reflexivity].
    unfold callStarted, callFinished. rewrite Hs.
    cbn [setContext emit emitted]. rewrite He. cbn [emit emitted].
    rewrite <- !app_assoc. reflexivity.
Qed.

Lemma runToolCalls_trace tcs : forall st,
  exists d,
    emitted (snd (runToolCalls w tcs st)) = emitted st ++ d /\
    CallsTrace w tcs (fst (runToolCalls w tcs st)) d.
Proof.
  induction tcs as [|tc rest IH]; intros st; cbn [runToolCalls].
  - exists []. rewrite app_nil_r. split; [reflexivity|constructor].
  - destruct (runToolCall_trace tc st) as (d1 & E1 & T1).
    destruct (runToolCall w tc st) as [[|e] st']; cbn [fst snd] in *.
    + destruct (IH st') as (d2 & E2 & T2). exists (d1 ++ d2).
      rewrite E2, E1, app_assoc. split; [reflexivity|].
      apply CallsTrace_next; assumption.
    + exists d1. split; [exact E1|]. apply CallsTrace_rejected, T1.
Qed.

(** The loop of [run]: its events from the step it is at. *)
Lemma runSteps_trace limit systemPrompt remaining : forall step st,
  step + remaining = limit ->
  exists d,
    emitted (snd (runSteps w limit systemPrompt remaining step st)) = emitted st ++ d /\
    StepsTrace w limit step (fst (runSteps w limit systemPrompt remaining step st)) d.
Proof.
  induction remaining as [|remaining IH]; intros step st Hl; cbn [runSteps].
  - exists [runFinished false (maxStepsMessage limit)]. split; [reflexivity|].
    replace step with limit by lia. constructor.
  - assert (Hlt : step < limit) by lia.
    destruct (summarizeMessages_summary st) as (pre & E1 & Q1).
    set (st2 := emit (stepStarted (step + 1) limit) (summarizeMessages w st)).
    assert (E2 : emitted st2 = emitted st ++ pre ++ [stepStarted (step + 1) limit]).
    { subst st2. cbn [emit emitted]. rewrite E1, app_assoc. reflexivity. }
    destruct (generate w _ _ _ _) as [response|attempts lastException|e].
    + set (st4 := setContext _ (emit (llmResponseReceived response) (tick st2))).
      assert (E4 : emitted st4
                   = emitted st ++ pre ++
                     [stepStarted (step + 1) limit; llmResponseReceived response]).
      { subst st4. cbn [setContext emit tick emitted]. rewrite E2, <- !app_assoc.
        reflexivity. }
      destruct (toolCalls (message response)) as [[|tc tcs]|] eqn:Htc.
      * cbn [fst snd]. eexists. split; [|apply StepsTrace_done; eauto].
        cbn [emit emitted]. rewrite E4, <- !app_assoc. reflexivity.
      * destruct (runToolCalls_trace (tc :: tcs) st4) as (d & E5 & T5).
        destruct (runToolCalls w (tc :: tcs) st4) as [[|e] st5]; cbn [fst snd] in *.
        -- destruct (IH (step + 1) st5 ltac:(lia)) as (rest & E6 & T6).
           exists (pre ++ [stepStarted (step + 1) limit; llmResponseReceived response]
                   ++ d ++ rest).
           split.
           { rewrite E6, E5, E4, <- !app_assoc. reflexivity. }
           apply (StepsTrace_step w limit step pre response (tc :: tcs) d _ rest
                    Hlt Q1 Htc); [discriminate|exact T5|].
           replace (S step) with (step + 1) by lia. exact T6.
        -- exists (pre ++ [stepStarted (step + 1) limit; llmResponseReceived response]
                   ++ d).
           split.
           { rewrite E5, E4, <- !app_assoc. reflexivity. }
           eapply StepsTrace_rejected; eauto.
      * cbn [fst snd]. eexists. split; [|apply StepsTrace_done; eauto].
        cbn [emit emitted]. rewrite E4, <- !app_assoc. reflexivity.
    + cbn [fst snd]. eexists. split; [|apply StepsTrace_failed; eauto].
      cbn [emit tick emitted]. rewrite E2, <- !app_assoc. reflexivity.
    + cbn [fst snd]. eexists. split; [|apply StepsTrace_failed; eauto].
      cbn [emit tick emitted]. rewrite E2, <- !app_assoc. reflexivity.
Qed.

End RunShape.

(** * The agent loop: what a run guarantees *)

Section RunGuarantees.

Variable w : World.

Implicit Types (st : RunState) (d : list AgentEvent).





Lemma CallTrace_events tc s d :
  CallTrace w tc s d -> Forall (fun e => isCallEvent e = true) d.
Proof. destruct 1; repeat constructor. Qed.

Lemma CallsTrace_events tcs s d :
  CallsTrace w tcs s d -> Forall (fun e => isCallEvent e = true) d.
Proof.
  induction 1 as [|tc tcs d s rest H1 _ IH|tc tcs e d H1]; [constructor| |].
  - apply Forall_app. split; [exact (CallTrace_events _ _ _ H1)|exact IH].
  - exact (CallTrace_events _ _ _ H1).
Qed.



Lemma summary_not_finished d :
  Forall (fun e => isSummaryEvent e = true) d ->
  Forall (fun e => isRunFinished e = false) d.
Proof.
  intros H. eapply Forall_impl; [exact H|].
  intros e. destruct e; auto; discriminate.
Qed.

Lemma calls_not_finished d :
  Forall (fun e => isCallEvent e = true) d ->
  Forall (fun e => isRunFinished e = false) d.
Proof.
  intros H. eapply Forall_impl; [exact H|].
  intros e. destruct e; auto; discriminate.
Qed.

Lemma StepsTrace_finished limit step s d :
  StepsTrace w limit step s d ->
  match s with
  | Resolved =>
      exists before ok msg,
        d = before ++ [runFinished ok msg] /\
        Forall (fun e => isRunFinished e = false) before
  | Rejected _ => Forall (fun e => isRunFinished e = false) d
  end.
Proof.
  induction 1 as [|step pre msg Hlt Hpre|step pre response Hlt Hpre Hno
                  |step pre response tcs e d Hlt Hpre Htc Hd
                  |step pre response tcs d s rest Hlt Hpre Htc Hne Hd Hrest IH].
  - exists [], false, (maxStepsMessage limit). split; [reflexivity|constructor].
  - exists (pre ++ [stepStarted (step + 1) limit]), false, msg.
    split; [rewrite <- app_assoc; reflexivity|].
    apply Forall_app. split; [apply summary_not_finished, Hpre|repeat constructor].
  - exists (pre ++ [stepStarted (step + 1) limit; llmResponseReceived response]),
      true, (finishReason response).
    split; [rewrite <- app_assoc; reflexivity|].
    apply Forall_app. split; [apply summary_not_finished, Hpre|repeat constructor].
  - apply Forall_app. split; [apply summary_not_finished, Hpre|].
    apply Forall_app. split; [repeat constructor|].
    apply calls_not_finished. exact (CallsTrace_events _ _ _ Hd).
  - assert (Hhead : Forall (fun e => isRunFinished e = false)
                      (pre ++ [stepStarted (step + 1) limit; llmResponseReceived response]
                       ++ d)).
    { apply Forall_app. split; [apply summary_not_finished, Hpre|].
      apply Forall_app. split; [repeat constructor|].
      apply calls_not_finished. exact (CallsTrace_events _ _ _ Hd). }
    destruct s as [|e].
    + destruct IH as (before & ok & msg & -> & Hb).
      exists ((pre ++ [stepStarted (step + 1) limit; llmResponseReceived response] ++ d)
              ++ before), ok, msg.
      split; [rewrite <- !app_assoc; reflexivity|].
      apply Forall_app. split; assumption.
    + replace (pre ++ [stepStarted (step + 1) limit; llmResponseReceived response]
               ++ d ++ rest)
        with ((pre ++ [stepStarted (step + 1) limit; llmResponseReceived response] ++ d)
              ++ rest) by (rewrite <- !app_assoc; reflexivity).
      apply Forall_app. split; assumption.
Qed.

(** X3. A run whose promise resolves emits [runFinished] exactly once, as
    its last event; a run whose promise rejects emits no [runFinished] at
    all. *)
Theorem run_finishes_once (config : AgentConfig) (systemPrompt : string)
    (st : RunState) :
  match fst (run w config systemPrompt st) with
  | Resolved =>
      exists before ok msg,
        runEvents w config systemPrompt st = before ++ [runFinished ok msg] /\
        Forall (fun e => isRunFinished e = false) before
  | Rejected _ =>
      Forall (fun e => isRunFinished e = false) (runEvents w config systemPrompt st)
  end.
Proof.
  unfold runEvents, run.
  destruct (runSteps_trace w (maxSteps config) systemPrompt (maxSteps config) 0 st
              ltac:(lia)) as (d & E & T).
  rewrite E, drop_app_length.
  exact (StepsTrace_finished _ _ _ _ T).
Qed.

End RunGuarantees.

(** * The agent loop: tool calls and the context *)

Section RunContext.

Variable w : World.

Implicit Types (st : RunState) (tc : ToolCall).

Lemma executeTool_context functionName callArgs st :
  contextManager (snd (executeTool functionName callArgs st)) = contextManager st.
Proof.
  unfold executeTool. destruct (toolDict_get _ _); [|reflexivity].
  destruct (execute _ _ _); reflexivity.
Qed.

(** A successful result comes from a registered tool that returned it. *)
Lemma executeTool_success functionName callArgs st res :
  fst (executeTool functionName callArgs st) = Some res ->
  success res = true ->
  exists tool,
    toolDict_get functionName (tools (contextManager st)) = Some tool /\
    execute tool (calls st) (positionalArgs tool callArgs) = Returned res.
Proof.
  unfold executeTool. destruct (toolDict_get _ _) as [tool|];
    [|intros [= <-]; discriminate].
  destruct (execute _ _ _) as [r| |ename emessage stack|] eqn:He; cbn [fst];
    intros [= <-]; [|discriminate].
  intros _. exists tool. auto.
Qed.


(** What a tool call leaves in the context. *)
Lemma runToolCall_context tc st :
  match fst (runToolCall w tc st) with
  | Resolved =>
      exists res,
        contextManager (snd (runToolCall w tc st))
        = addToolMessage res (tc_name tc) (tc_id tc) (contextManager st)
  | Rejected _ => contextManager (snd (runToolCall w tc st)) = contextManager st
  end.
Proof.
  unfold runToolCall.
  pose proof (executeTool_context (tc_name tc) (tc_args tc)
    (emit (toolCallStarted (idOrEmpty (tc_id tc)) (tc_name tc) (tc_args tc)) st)) as Hcm.
  destruct (executeTool _ _ _) as [[res|] st2]; cbn [snd] in Hcm;
    change (contextManager st2 = contextManager st) in Hcm; [|exact Hcm].
  destruct (success res);
    [destruct (bool_decide _); cbn [andb]; [destruct (parseContent w res)|]|];
    cbn [fst snd].
  - exists (clearContent res). cbn [setContext contextManager emit].
    rewrite Hcm. reflexivity.
  - cbn [emit contextManager]. exact Hcm.
  - exists res. cbn [setContext contextManager emit]. rewrite Hcm. reflexivity.
  - exists res. cbn [setContext contextManager emit]. rewrite Hcm. reflexivity.
Qed.

Lemma runToolCall_tools tc st :
  tools (contextManager (snd (runToolCall w tc st))) = tools (contextManager st).
Proof.
  pose proof (runToolCall_context tc st) as H.
  destruct (fst (runToolCall w tc st)); [destruct H as [res ->]|rewrite H]; reflexivity.
Qed.

Lemma runToolCalls_tools tcs : forall st,
  tools (contextManager (snd (runToolCalls w tcs st))) = tools (contextManager st).
Proof.
  induction tcs as [|tc rest IH]; intros st; cbn [runToolCalls]; [reflexivity|].
  pose proof (runToolCall_tools tc st) as H1.
  destruct (runToolCall w tc st) as [[|e] st']; cbn [snd] in *; [|exact H1].
  rewrite IH. exact H1.
Qed.

Lemma runToolCalls_messages tcs : forall st,
  fst (runToolCalls w tcs st) = Resolved ->
  exists l,
    messages (contextManager (snd (runToolCalls w tcs st)))
    = messages (contextManager st) ++ l /\
    Forall2 answers tcs l.
Proof.
  induction tcs as [|tc rest IH]; intros st; cbn [runToolCalls].
  - intros _. exists []. rewrite app_nil_r. split; [reflexivity|constructor].
  - pose proof (runToolCall_context tc st) as H1.
    destruct (runToolCall w tc st) as [[|e] st']; cbn [fst snd] in *; [|discriminate].
    destruct H1 as [res H1]. intros Hr.
    destruct (IH st' Hr) as (l & El & Hl).
    exists (MTool {| t_id := tc_id tc; t_name := tc_name tc; result := res |} :: l).
    split.
    + rewrite El, H1. cbn [addToolMessage setMessages messages].
      rewrite <- app_assoc. reflexivity.
    + constructor; [exists res; reflexivity|exact Hl].
Qed.

(** X4. When the tool calls of a response are all executed, the context has
    grown by exactly one tool message for every call, in the order of the
    calls, each under the id and the function name of its call; the tools of
    the context are the same. *)
Theorem tool_calls_are_answered_in_order (tcs : list ToolCall) (st : RunState) :
  fst (runToolCalls w tcs st) = Resolved ->
  tools (contextManager (snd (runToolCalls w tcs st))) = tools (contextManager st) /\
  exists l,
    messages (contextManager (snd (runToolCalls w tcs st)))
    = messages (contextManager st) ++ l /\
    Forall2 answers tcs l.
Proof.
  intros H. split; [apply runToolCalls_tools|apply runToolCalls_messages, H].
Qed.

(** X5. A call of a tool that is not registered does not stop the run: the
    call is announced and finished with [ok] false, the tool message stored
    under the id and name of the call has [success] false and the error
    ["Unknown tool: <name>"], and nothing is executed. *)
Theorem unknown_tool_is_answered (tc : ToolCall) (st : RunState) :
  toolDict_get (tc_name tc) (tools (contextManager st)) = None ->
  fst (runToolCall w tc st) = Resolved /\
  emitted (snd (runToolCall w tc st))
  = emitted st ++
    [callStarted tc;
     toolCallFinished false (idOrEmpty (tc_id tc)) (tc_name tc)
       (unknownTool (tc_name tc))] /\
  messages (contextManager (snd (runToolCall w tc st)))
  = messages (contextManager st) ++
    [MTool {| t_id := tc_id tc; t_name := tc_name tc;
              result := unknownTool (tc_name tc) |}] /\
  error (unknownTool (tc_name tc)) = Some ("Unknown tool: " +:+ tc_name tc) /\
  calls (snd (runToolCall w tc st)) = calls st.
Proof.
  intros H. unfold runToolCall, executeTool. cbn [emit contextManager].
  rewrite H.
  cbn [unknownTool success fst snd setContext emit emitted contextManager
       addToolMessage setMessages messages calls error].
  rewrite <- app_assoc. repeat split; reflexivity.
Qed.











Lemma CallsTrace_rejected_last tcs e d :
  CallsTrace w tcs (Rejected e) d ->
  exists before final, d = before ++ [final] /\ isCallEvent final = true.
Proof.
  remember (Rejected e) as s eqn:Hs.
  induction 1 as [|tc tcs d s rest H1 _ IH|tc tcs e' d H1]; [discriminate| |].
  - destruct (IH Hs) as (before & final & -> & Hf).
    exists (d ++ before), final. rewrite app_assoc. auto.
  - inversion H1; subst.
    + exists [callStarted tc], (callFinished tc res). auto.
    + exists [], (callStarted tc). auto.
Qed.

Lemma runSteps_ok limit systemPrompt remaining : forall step st msg,
  last (emitted (snd (runSteps w limit systemPrompt remaining step st)))
  = Some (runFinished true msg) ->
  fst (runSteps w limit systemPrompt remaining step st) = Resolved /\
  exists response,
    last (messages (contextManager (snd (runSteps w limit systemPrompt remaining step st))))
    = Some (MModel (message response)) /\
    (toolCalls (message response) = None \/ toolCalls (message response) = Some []) /\
    finishReason response = msg.
Proof.
  induction remaining as [|remaining IH]; intros step st msg; cbn [runSteps].
  - cbn [snd emit emitted]. rewrite last_snoc. discriminate.
  - destruct (generate w _ _ _ _) as [response|attempts lastException|e].
    + destruct (toolCalls (message response)) as [[|tc tcs]|] eqn:Htc.
      * cbn [fst snd emit emitted setContext contextManager addModelMessage
             setMessages messages].
        rewrite !last_snoc. intros [= <-]. split; [reflexivity|].
        exists response. auto.
      * destruct (runToolCalls_trace w (tc :: tcs)
                    (setContext
                       (addModelMessage response
                          (updateApiTokens response
                             (contextManager
                                (emit (llmResponseReceived response)
                                   (tick (emit (stepStarted (step + 1) limit)
                                            (summarizeMessages w st)))))))
                       (emit (llmResponseReceived response)
                          (tick (emit (stepStarted (step + 1) limit)
                                   (summarizeMessages w st))))))
          as (d & E5 & T5).
        destruct (runToolCalls w (tc :: tcs) _) as [[|e] st5]; cbn [fst snd] in *.
        -- apply IH.
        -- destruct (CallsTrace_rejected_last _ _ _ T5) as (before & final & -> & Hf).
           rewrite E5, !app_assoc, last_snoc. intros [= ->]. discriminate Hf.
      * cbn [fst snd emit emitted setContext contextManager addModelMessage
             setMessages messages].
        rewrite !last_snoc. intros [= <-]. split; [reflexivity|].
        exists response. auto.
    + cbn [snd emit emitted]. rewrite last_snoc. discriminate.
    + cbn [snd emit emitted]. rewrite last_snoc. discriminate.
Qed.

(** X9. When the last event of a run is [runFinished] with [ok] true, the
    promise of the run has resolved, the last message of the context is the
    answer of the model that ended the run, this answer has no tool calls,
    and the message of the event is its finish reason. *)
Theorem run_ok_ends_with_answer (config : AgentConfig) (systemPrompt : string)
    (st : RunState) (msg : string) :
  last (runEvents w config systemPrompt st) = Some (runFinished true msg) ->
  fst (run w config systemPrompt st) = Resolved /\
  exists response,
    last (messages (contextManager (snd (run w config systemPrompt st))))
    = Some (MModel (message response)) /\
    (toolCalls (message response) = None \/ toolCalls (message response) = Some []) /\
    finishReason response = msg.
Proof.
  unfold runEvents, run. intros H.
  apply runSteps_ok.
  destruct (runSteps_trace w (maxSteps config) systemPrompt (maxSteps config) 0 st
              ltac:(lia)) as (d & E & _).
  rewrite E, drop_app_length in H. rewrite E, last_app, H. reflexivity.
Qed.

End RunContext.

(** * The agent loop: finding a tool and passing its arguments *)

Section ToolLookup.

Implicit Types (ts : list Tool) (callArgs : list (string * Js.jsval)).

(** X10. [toolDict.get] returns the tool registered last under the name it
    is asked for: the tool is in the list, it has this name, and no tool
    after it has; it returns nothing exactly when no tool has the name. *)
Theorem toolDict_get_last_registered (fname : string) (ts : list Tool) :
  match toolDict_get fname ts with
  | Some t =>
      exists before after,
        ts = before ++ t :: after /\ name t = fname /\
        Forall (fun t' => name t' <> fname) after
  | None => Forall (fun t => name t <> fname) ts
  end.
Proof.
  induction ts as [|t0 ts IH]; cbn [toolDict_get]; [constructor|].
  destruct (toolDict_get fname ts) as [t|].
  - destruct IH as (before & after & -> & Hn & Ha).
    exists (t0 :: before), after. auto.
  - destruct (bool_decide (name t0 = fname)) eqn:E.
    + apply bool_decide_eq_true in E. exists [], ts. auto.
    + apply bool_decide_eq_false in E. constructor; assumption.
Qed.

Lemma argOf_found key v callArgs :
  NoDup (map fst callArgs) -> (key, v) ∈ callArgs -> argOf key callArgs = v.
Proof.
  induction callArgs as [|[k x] rest IH]; cbn [map fst argOf]; intros Hnd Hin.
  - inversion Hin.
  - apply NoDup_cons in Hnd as [Hk Hnd].
    apply elem_of_cons in Hin as [[= <- <-]|Hin].
    + rewrite bool_decide_eq_true_2 by reflexivity. reflexivity.
    + destruct (bool_decide (k = key)) eqn:E; [|exact (IH Hnd Hin)].
      apply bool_decide_eq_true in E. subst k. exfalso. apply Hk.
      apply list_elem_of_fmap. exists (key, v). auto.
Qed.

Lemma argOf_missing key callArgs :
  key ∉ map fst callArgs -> argOf key callArgs = Js.inherited key.
Proof.
  induction callArgs as [|[k x] rest IH]; cbn [map fst argOf]; intros Hin;
    [reflexivity|].
  rewrite bool_decide_eq_false_2.
  - apply IH. intros H. apply Hin. right. exact H.
  - intros ->. apply Hin. left.
Qed.

Lemma argOf_permutation key callArgs callArgs' :
  NoDup (map fst callArgs) -> callArgs ≡ₚ callArgs' ->
  argOf key callArgs' = argOf key callArgs.
Proof.
  intros Hnd Hp.
  assert (Hnd' : NoDup (map fst callArgs')).
  { eapply NoDup_Permutation_proper; [|exact Hnd]. symmetry.
    apply fmap_Permutation, Hp. }
  destruct (decide (key ∈ map fst callArgs)) as [Hin|Hout].
  - apply list_elem_of_fmap in Hin as ([k v] & -> & Hin). cbn [fst].
    rewrite (argOf_found k v callArgs Hnd Hin).
    apply argOf_found; [exact Hnd'|]. rewrite <- Hp. exact Hin.
  - rewrite (argOf_missing key callArgs Hout).
    apply argOf_missing. intros H. apply Hout.
    eapply elem_of_Permutation_proper; [|exact H].
    apply fmap_Permutation, Hp.
Qed.

(** The keys under which a plain object inherits something. *)
Lemma inherited_undefined key :
  Js.inherited key = Js.VUndefined <->
  key ∉ "__proto__" :: Js.objectPrototypeMethods.
Proof.
  unfold Js.inherited, Js.nativeFunction.
  destruct (bool_decide (key = "__proto__")) eqn:E1.
  { apply bool_decide_eq_true in E1. subst key. split; [discriminate|].
    intros H. exfalso. apply H. left. }
  apply bool_decide_eq_false in E1.
  destruct (bool_decide (key = "constructor")) eqn:E2.
  { apply bool_decide_eq_true in E2. subst key. split; [discriminate|].
    intros H. exfalso. apply H. right. left. }
  destruct (bool_decide (key ∈ Js.objectPrototypeMethods)) eqn:E3.
  - apply bool_decide_eq_true in E3. split; [discriminate|].
    intros H. exfalso. apply H. right. exact E3.
  - apply bool_decide_eq_false in E3. split; [|reflexivity].
    intros _ H. apply elem_of_cons in H as [H|H]; auto.
Qed.

(** X11. For a tool whose schema lists its properties, the arguments are
    passed in the order of the schema, whatever the order of the keys in the
    call: there is one argument for every property.  It is the value the
    call gives for the property; when the call does not give one, it is what
    every plain object has under this name: [undefined] for most keys, but a
    built-in function for [constructor], [toString], [valueOf] and the other
    methods of [Object.prototype], and the prototype for [__proto__].  Keys
    the schema does not list are not passed. *)
Theorem positional_args_follow_the_schema (tool : Tool) (keys : list string)
    (callArgs callArgs' : list (string * Js.jsval)) :
  properties tool = Some keys ->
  NoDup (map fst callArgs) ->
  callArgs ≡ₚ callArgs' ->
  positionalArgs tool callArgs' = positionalArgs tool callArgs /\
  Forall2 (fun key v =>
             (forall v', (key, v') ∈ callArgs -> v = v') /\
             (key ∉ map fst callArgs -> v = Js.inherited key) /\
             (key ∉ map fst callArgs ->
              key ∉ "__proto__" :: Js.objectPrototypeMethods -> v = Js.VUndefined))
          keys (positionalArgs tool callArgs) /\
  Js.inherited "toString" = Js.nativeFunction "toString" /\
  Js.inherited "constructor" = Js.nativeFunction "Object" /\
  Js.stringOrEmpty (Js.inherited "toString")
  = inl "function toString() { [native code] }".
Proof.
  intros Hprops Hnd Hp. unfold positionalArgs. rewrite Hprops. split; [|split].
  - apply map_ext. intros key. apply argOf_permutation; assumption.
  - clear Hprops. induction keys as [|key keys IH]; cbn [map]; constructor; [|exact IH].
    split; [|split].
    + intros v' Hin. apply argOf_found; assumption.
    + apply argOf_missing.
    + intros Hout Hkey. rewrite (argOf_missing key callArgs Hout).
      apply inherited_undefined, Hkey.
  - repeat split; reflexivity.
Qed.

End ToolLookup.

(** The reply tool called with its arguments in another order and with a key
    it does not know. *)
Lemma positional_args_follow_the_schema_witness :
  let callArgs :=
    [("think", Js.ofString "t"); ("response", Js.ofString "hi");
     ("mood", Js.ofString "?")] in
  let callArgs' :=
    [("mood", Js.ofString "?"); ("response", Js.ofString "hi");
     ("think", Js.ofString "t")] in
  properties Config.finalReplyTool = Some FinalReplyTool.parameters /\
  NoDup (map fst callArgs) /\
  callArgs ≡ₚ callArgs' /\
  positionalArgs Config.finalReplyTool callArgs'
  = [Js.ofString "t"; Js.VUndefined; Js.VUndefined; Js.ofString "hi"].
Proof.
  intros callArgs callArgs'.
  assert (H1 : properties Config.finalReplyTool = Some FinalReplyTool.parameters)
    by reflexivity.
  assert (H2 : NoDup (map fst callArgs)).
  { cbn. repeat (constructor; [rewrite ?elem_of_cons, elem_of_nil; intuition discriminate|]).
    constructor. }
  assert (H3 : callArgs ≡ₚ callArgs').
  { subst callArgs callArgs'.
    eapply perm_trans; [apply perm_swap|].
    eapply perm_trans; [apply perm_skip, perm_swap|].
    apply perm_swap. }
  split; [exact H1|]. split; [exact H2|]. split; [exact H3|].
  rewrite (proj1 (positional_args_follow_the_schema Config.finalReplyTool
                    FinalReplyTool.parameters callArgs callArgs' H1 H2 H3)).
  reflexivity.
Defined.

(** * The context manager: what summarization guarantees *)

Section SummarizationGuarantees.

Variable w : World.

Implicit Types (st : RunState) (ms : list Message) (rs : list (Message * list Message)).

Lemma rebuilt_length keep rs : forall texts,
  length (rebuilt keep rs texts)
  <= length (concat (map (fun r => fst r :: snd r) rs)).
Proof.
  induction rs as [|[u exec] rs IH]; intros [|t texts]; cbn [map concat];
    try (unfold rebuilt; cbn [zip_with concat length]; lia).
  unfold rebuilt in *. cbn [zip_with concat fst snd]. rewrite !length_app.
  specialize (IH texts).
  assert (H : length (rebuiltRound keep (u, exec) t) <= length (u :: exec)).
  { unfold rebuiltRound, summarized. cbn [fst snd].
    destruct exec as [|e es]; [simpl; lia|]. destruct (keep t); simpl; lia. }
  lia.
Qed.

(** X12. [summarizeMessages] never makes the message list longer, whatever
    branch it takes and whatever the model answers. *)
Theorem summarizeMessages_never_grows (st : RunState) :
  length (messages (contextManager (summarizeMessages w st)))
  <= length (messages (contextManager st)).
Proof.
  set (ms := messages (contextManager st)).
  destruct (skipNextTokenCheck (contextManager st)) eqn:Hskip.
  { rewrite summarizeMessages_unchanged by auto. apply Nat.le_refl. }
  destruct (decide (overLimit w st)) as [Hover|Hover].
  2:{ rewrite summarizeMessages_unchanged by auto. apply Nat.le_refl. }
  destruct (rounds ms) as [|r rs] eqn:Hrounds.
  { rewrite summarizeMessages_unchanged by auto. apply Nat.le_refl. }
  destruct (summarizeMessages_rebuild w st Hskip Hover) as [-> _].
  { fold ms. rewrite Hrounds. discriminate. }
  fold ms. rewrite length_app, leadingMessage_rounds.
  pose proof (rebuilt_length Js.truthy (rounds ms)
                (fst (roundSummaries w 0 (rounds ms) (started w st)))) as Hr.
  pose proof (f_equal length (splitRounds_flatten ms)) as Hflat.
  rewrite length_app in Hflat.
  unfold rebuiltAsCoded. rewrite length_take.
  clearbody ms. lia.
Qed.

Lemma users_split ms :
  Forall (fun m => isUserMessage m = true) ms ->
  fst (splitRounds ms) = [] /\ Forall (fun r => snd r = []) (rounds ms).
Proof.
  induction 1 as [|m ms Hm _ [IH1 IH2]]; [split; [reflexivity|constructor]|].
  unfold rounds in *. rewrite splitRounds_cons, Hm. cbn [fst snd].
  split; [reflexivity|]. constructor; [exact IH1|exact IH2].
Qed.

Lemma minimal_split ms :
  Forall (fun m => isUserMessage m = true) (drop 1 ms) ->
  fst (splitRounds ms) = leadingMessage ms /\
  Forall (fun r => snd r = []) (rounds ms).
Proof.
  destruct ms as [|m ms]; [intros _; split; [reflexivity|constructor]|].
  cbn [drop]. rewrite drop_0. intros H. destruct (users_split ms H) as [H1 H2].
  unfold rounds in *. rewrite splitRounds_cons. cbn [leadingMessage].
  destruct (isUserMessage m); cbn [fst snd].
  - split; [reflexivity|]. constructor; [exact H1|exact H2].
  - rewrite H1. split; [reflexivity|exact H2].
Qed.

Lemma rebuilt_no_execution keep rs : forall texts,
  Forall (fun r => snd r = []) rs -> length texts = length rs ->
  rebuilt keep rs texts = map fst rs.
Proof.
  induction rs as [|[u exec] rs IH]; intros [|t texts] Hall Hlen; try discriminate;
    [reflexivity|].
  apply Forall_cons in Hall as [Hexec Hall]. cbn [snd] in Hexec. subst exec.
  unfold rebuilt in *. cbn [zip_with concat map fst].
  unfold rebuiltRound at 1, summarized. cbn [fst snd app].
  f_equal. apply IH; [exact Hall|]. simpl in Hlen. lia.
Qed.

Lemma roundsToSummarize_none rs :
  Forall (fun r => snd r = []) rs -> roundsToSummarize rs = 0.
Proof.
  unfold roundsToSummarize. induction 1 as [|[u exec] rs Hr _ IH]; [reflexivity|].
  cbn [snd] in Hr. subst exec. rewrite filter_cons_False by discriminate. exact IH.
Qed.

Lemma createSummary_calls ms roundNum st :
  calls (snd (createSummary w ms roundNum st))
  = calls st + (if Nat.ltb 0 (length ms) then 1 else 0).
Proof.
  unfold createSummary. destruct ms as [|m ms]; cbn [length Nat.ltb Nat.leb].
  - cbn [snd]. lia.
  - destruct (generate w _ _ _ _); cbn [snd emit tick calls]; lia.
Qed.

Lemma roundSummaries_calls rs : forall i st,
  calls (snd (roundSummaries w i rs st)) = calls st + roundsToSummarize rs.
Proof.
  unfold roundsToSummarize.
  induction rs as [|r rs IH]; intros i st; cbn [roundSummaries].
  - cbn [snd filter length]. simpl. lia.
  - pose proof (createSummary_calls (snd r) (i + 1) st) as Hc.
    destruct (createSummary w (snd r) (i + 1) st) as [txt st1]. cbn [snd] in Hc.
    specialize (IH (i + 1) st1).
    destruct (roundSummaries w (i + 1) rs st1) as [texts st']. cbn [snd] in *.
    rewrite IH, Hc.
    destruct (Nat.ltb 0 (length (snd r))) eqn:E.
    + rewrite filter_cons_True by (unfold hasExecution; exact E). cbn [length]. lia.
    + rewrite filter_cons_False by (unfold hasExecution; rewrite E; discriminate). lia.
Qed.

(** The calls of a summarization that rebuilds. *)
Lemma summarizeMessages_rebuild_calls st :
  let cm := contextManager st in
  skipNextTokenCheck cm = false ->
  overLimit w st ->
  calls (summarizeMessages w st) = calls st + roundsToSummarize (rounds (messages cm)).
Proof.
  intros cm Hskip Hover.
  unfold summarizeMessages. fold cm. rewrite Hskip.
  pose proof (estimateTokens_calls w st) as Hcalls.
  unfold overLimit in Hover. fold cm in Hover.
  destruct (estimateTokens w st) as [est st1]. cbn [fst snd] in *.
  assert (Hgate : Z.ltb (tokenLimit cm) est || Z.ltb (tokenLimit cm) (apiTotalTokens cm)
                  = true).
  { apply orb_true_iff. destruct Hover; [left|right]; apply Z.ltb_lt; assumption. }
  rewrite Hgate. cbn [negb].
  pose proof (rounds_length (messages cm)) as Hlen.
  destruct (Nat.ltb (length (userIndices (messages cm))) 1) eqn:Hcount.
  - apply Nat.ltb_lt in Hcount.
    destruct (rounds (messages cm)); [|simpl in Hlen; lia].
    cbn [emit calls]. unfold roundsToSummarize. simpl. lia.
  - unfold userIndices at 2.
    rewrite (summarizeRounds_by_rounds w (messages cm) (messages cm) [] 0 _ 0 _ eq_refl).
    pose proof (roundSummaries_calls (rounds (messages cm)) 0
      (emit (summarizeMessagesStarted est (apiTotalTokens cm) (tokenLimit cm)) st1))
      as Hr.
    destruct (roundSummaries w 0 (rounds (messages cm)) _) as [texts st3].
    cbn [snd] in Hr.
    match goal with
    | |- context [estimateTokens w ?s] =>
        pose proof (estimateTokens_calls w s) as H4;
        destruct (estimateTokens w s) as [newTokens st5]
    end.
    cbn [fst snd] in *. cbn [emit calls]. rewrite H4. cbn [setContext calls].
    rewrite Hr. cbn [emit calls]. lia.
Qed.

Lemma summarizeMessages_quiet_calls st :
  skipNextTokenCheck (contextManager st) = true \/ ~ overLimit w st ->
  calls (summarizeMessages w st) = calls st.
Proof.
  intros H. unfold summarizeMessages.
  destruct (skipNextTokenCheck (contextManager st)) eqn:Hskip; [reflexivity|].
  destruct H as [H|H]; [discriminate|].
  pose proof (estimateTokens_calls w st) as Hcalls.
  unfold overLimit in H.
  destruct (estimateTokens w st) as [est st1]. cbn [fst snd] in *.
  destruct (Z.ltb_spec (tokenLimit (contextManager st)) est) as [H1|H1];
    [exfalso; apply H; lia|].
  destruct (Z.ltb_spec (tokenLimit (contextManager st))
              (apiTotalTokens (contextManager st))) as [H2|H2];
    [exfalso; apply H; lia|].
  cbn [orb negb]. exact Hcalls.
Qed.

(** X13. [summarizeMessages] asks the model for a summary once for every
    round that has messages to summarize, and only when it goes past the
    gate: with the skip flag set, or with estimate and API total within the
    limit, it makes no call at all. *)
Theorem summarizeMessages_calls_per_round (st : RunState) :
  let cm := contextManager st in
  calls (summarizeMessages w st)
  = calls st +
    (if skipNextTokenCheck cm then 0
     else if Z.ltb (tokenLimit cm) (fst (estimateTokens w st))
             || Z.ltb (tokenLimit cm) (apiTotalTokens cm)
          then roundsToSummarize (rounds (messages cm))
          else 0).
Proof.
  intros cm.
  destruct (skipNextTokenCheck cm) eqn:Hskip.
  { rewrite summarizeMessages_quiet_calls by auto. lia. }
  destruct (Z.ltb (tokenLimit cm) (fst (estimateTokens w st))
            || Z.ltb (tokenLimit cm) (apiTotalTokens cm)) eqn:Hgate.
  - apply summarizeMessages_rebuild_calls; [exact Hskip|].
    apply orb_true_iff in Hgate. unfold overLimit. fold cm.
    destruct Hgate as [H|H]; apply Z.ltb_lt in H; auto.
  - rewrite summarizeMessages_quiet_calls; [lia|]. right.
    apply orb_false_iff in Hgate as [H1 H2].
    apply Z.ltb_ge in H1, H2. unfold overLimit. fold cm. lia.
Qed.

(** On a list whose messages after the first are all user messages nothing
    is left to summarize. *)
Lemma summarizeMessages_minimal st :
  Forall (fun m => isUserMessage m = true) (drop 1 (messages (contextManager st))) ->
  messages (contextManager (summarizeMessages w st)) = messages (contextManager st) /\
  calls (summarizeMessages w st) = calls st.
Proof.
  intros Hmin. set (ms := messages (contextManager st)).
  destruct (minimal_split ms Hmin) as [Hlead Hexec].
  destruct (skipNextTokenCheck (contextManager st)) eqn:Hskip.
  { split; [apply summarizeMessages_unchanged|apply summarizeMessages_quiet_calls]; auto. }
  destruct (decide (overLimit w st)) as [Hover|Hover].
  2:{ split; [apply summarizeMessages_unchanged|apply summarizeMessages_quiet_calls];
      auto. }
  split.
  - assert (Hrounds : rounds ms = [] \/ rounds ms <> [])
      by (destruct (rounds ms); [left; reflexivity|right; discriminate]).
    destruct Hrounds as [Hrounds|Hrounds].
    { apply summarizeMessages_unchanged. auto. }
    destruct (summarizeMessages_rebuild w st Hskip Hover Hrounds) as [-> _].
    fold ms. unfold rebuiltAsCoded.
    rewrite rebuilt_no_execution; [|exact Hexec|apply roundSummaries_length].
    rewrite (splitRounds_flatten ms) at 3. rewrite Hlead. f_equal.
    clear - Hexec. induction Hexec as [|[u exec] rs Hr _ IH]; [reflexivity|].
    cbn [snd] in Hr. subst exec. cbn [map concat fst snd app]. f_equal. exact IH.
  - rewrite summarizeMessages_rebuild_calls by assumption.
    fold ms. rewrite (roundsToSummarize_none _ Hexec). lia.
Qed.

(** X14. A list in which every message after the first is a user message is
    left as it is by [summarizeMessages], whatever the limits and the flag,
    and no summary is asked for. *)
Theorem summarizeMessages_minimal_list_unchanged (st : RunState) :
  Forall (fun m => isUserMessage m = true) (drop 1 (messages (contextManager st))) ->
  messages (contextManager (summarizeMessages w st)) = messages (contextManager st) /\
  calls (summarizeMessages w st) = calls st.
Proof. apply summarizeMessages_minimal. Qed.

Lemma rebuilt_list_users st :
  skipNextTokenCheck (contextManager st) = false ->
  overLimit w st ->
  rounds (messages (contextManager st)) <> [] ->
  head (messages (contextManager (summarizeMessages w st)))
  = head (messages (contextManager st)) /\
  Forall (fun m => isUserMessage m = true)
    (drop 1 (messages (contextManager (summarizeMessages w st)))).
Proof.
  intros Hskip Hover Hrounds. set (ms := messages (contextManager st)) in *.
  destruct (summarizeMessages_rebuild w st Hskip Hover Hrounds) as [-> _]. fold ms.
  pose proof (roundSummaries_length w (rounds ms) 0 (started w st)) as Hlen.
  assert (Husers : Forall (fun m => isUserMessage m = true)
                     (rebuiltAsCoded (rounds ms)
                        (fst (roundSummaries w 0 (rounds ms) (started w st))))).
  { apply rebuilt_users. rewrite rounds_users.
    apply Forall_forall. intros m Hm. apply list_elem_of_filter in Hm. tauto. }
  destruct (fst (roundSummaries w 0 (rounds ms) (started w st))) as [|t texts].
  { destruct (rounds ms); [congruence|discriminate]. }
  destruct ms as [|m rest] eqn:Hms; [exfalso; apply Hrounds; reflexivity|].
  unfold rounds in *. rewrite splitRounds_cons in *. cbn [leadingMessage].
  destruct (isUserMessage m) eqn:Hm; cbn [snd app] in *.
  - split; [reflexivity|]. apply Forall_drop. exact Husers.
  - split; [reflexivity|]. cbn [drop]. rewrite drop_0. exact Husers.
Qed.

End SummarizationGuarantees.

(** X15. When [summarizeMessages] rebuilds the list, the new list starts
    with the message the old list started with, and every other message of
    it is a user message: no message of the model and no tool message
    survives after the first position.  A list rebuilt once is therefore
    never changed by a later summarization, whatever the model, the limits
    and the flag are then. *)
Theorem summarizeMessages_leaves_user_messages (w : World) (st : RunState) :
  skipNextTokenCheck (contextManager st) = false ->
  overLimit w st ->
  rounds (messages (contextManager st)) <> [] ->
  head (messages (contextManager (summarizeMessages w st)))
  = head (messages (contextManager st)) /\
  Forall (fun m => isUserMessage m = true)
    (drop 1 (messages (contextManager (summarizeMessages w st)))) /\
  (forall w' st',
     messages (contextManager st') = messages (contextManager (summarizeMessages w st)) ->
     messages (contextManager (summarizeMessages w' st')) = messages (contextManager st')).
Proof.
  intros Hskip Hover Hrounds.
  destruct (rebuilt_list_users w st Hskip Hover Hrounds) as [Hhead Husers].
  split; [exact Hhead|]. split; [exact Husers|].
  intros w' st' Hsame. apply summarizeMessages_minimal. rewrite Hsame. exact Husers.
Qed.

(** * The context manager: the token estimate *)

Section Estimate.

Variable w : World.

Implicit Types (ms : list Message) (parts : list string).

Lemma encodeParts_ok parts :
  Forall (fun p => exists n, encode w p = inl n) parts ->
  encodeParts w parts = inl (list_sum (map (tokensOf w) parts)).
Proof.
  induction 1 as [|p parts [n Hn] _ IH]; [reflexivity|].
  cbn [encodeParts map list_sum]. unfold tokensOf at 1. rewrite Hn, IH. reflexivity.
Qed.

Lemma encodeParts_fail parts :
  Exists (fun p => exists e, encode w p = inr e) parts ->
  exists e, encodeParts w parts = inr e.
Proof.
  induction 1 as [p parts [e He]|p parts _ [e IH]]; cbn [encodeParts].
  - rewrite He. eauto.
  - destruct (encode w p); [rewrite IH|]; eauto.
Qed.

Lemma countTokens_ok ms :
  Forall (encodable w) ms ->
  countTokens w ms = inl (list_sum (map (messageTokens w) ms)).
Proof.
  induction 1 as [|m ms Hm _ IH]; [reflexivity|].
  cbn [countTokens map list_sum]. rewrite (encodeParts_ok _ Hm), IH.
  reflexivity.
Qed.

Lemma countTokens_fail ms :
  Exists (unencodable w) ms -> exists e, countTokens w ms = inr e.
Proof.
  induction 1 as [m ms Hm|m ms _ [e IH]]; cbn [countTokens].
  - destruct (encodeParts_fail _ Hm) as [e ->]. eauto.
  - destruct (encodeParts w _); [rewrite IH|]; eauto.
Qed.

Lemma messageTokens_sum ms : 4 * length ms <= list_sum (map (messageTokens w) ms).
Proof.
  induction ms as [|m ms IH]; [reflexivity|].
  change (list_sum (map (messageTokens w) (m :: ms)))
    with (messageTokens w m + list_sum (map (messageTokens w) ms)).
  cbn [length]. unfold messageTokens at 1. lia.
Qed.

(** X16. When the tokenizer encodes every measured string, the estimate is
    the sum over the messages of the tokens of their strings plus four for
    each message, so at least four times the number of messages, and no
    event is emitted.  When the tokenizer throws on some string, the
    estimate is not an error: it is [floor (2 * chars / 5)] for the total
    number of characters measured, and [tokenEstimationFallbacked] is
    emitted once. *)
Theorem estimateTokens_counts_or_falls_back (st : RunState) :
  let ms := messages (contextManager st) in
  (Forall (encodable w) ms ->
   estimateTokens w st = (Z.of_nat (list_sum (map (messageTokens w) ms)), st) /\
   (4 * Z.of_nat (length ms) <= fst (estimateTokens w st))%Z) /\
  (Exists (unencodable w) ms ->
   exists e,
     estimateTokens w st
     = ((2 * Z.of_nat (totalChars w ms) / 5)%Z, emit (tokenEstimationFallbacked e) st) /\
     (0 <= fst (estimateTokens w st))%Z).
Proof.
  intros ms. split.
  - intros H. unfold estimateTokens. fold ms. rewrite (countTokens_ok ms H).
    split; [reflexivity|]. cbn [fst]. pose proof (messageTokens_sum ms). lia.
  - intros H. destruct (countTokens_fail ms H) as [e He]. exists e.
    unfold estimateTokens. fold ms. rewrite He. split; [reflexivity|].
    cbn [fst]. unfold estimateTokensFallback. cbn [emit contextManager]. fold ms.
    apply Z.div_pos; lia.
Qed.

End Estimate.

(** * The agent loop without a reply tool: results stored as specified *)

Section Specified.

Variable w : World.

Implicit Types (st : RunState) (tc : ToolCall).

(** A message of the list after [summarizeMessages] is a message of the
    list before, or a user message. *)
Lemma summarizeMessages_members st m :
  m ∈ messages (contextManager (summarizeMessages w st)) ->
  m ∈ messages (contextManager st) \/ isUserMessage m = true.
Proof.
  set (ms := messages (contextManager st)).
  destruct (skipNextTokenCheck (contextManager st)) eqn:Hskip.
  { rewrite summarizeMessages_unchanged by auto. auto. }
  destruct (decide (overLimit w st)) as [Hover|Hover].
  2:{ rewrite summarizeMessages_unchanged by auto. auto. }
  assert (Hrounds : rounds ms = [] \/ rounds ms <> [])
    by (destruct (rounds ms); [left; reflexivity|right; discriminate]).
  destruct Hrounds as [Hrounds|Hrounds].
  { rewrite summarizeMessages_unchanged by auto. auto. }
  destruct (summarizeMessages_rebuild w st Hskip Hover Hrounds) as [-> _]. fold ms.
  intros Hm. apply elem_of_app in Hm as [Hm|Hm].
  - left. destruct ms as [|m0 rest]; [inversion Hm|].
    cbn [leadingMessage] in Hm. destruct (isUserMessage m0); [inversion Hm|].
    apply list_elem_of_singleton in Hm. rewrite Hm. left.
  - right. revert Hm. generalize m. apply Forall_forall.
    apply rebuilt_users. rewrite rounds_users.
    apply Forall_forall. intros m' Hm'. apply list_elem_of_filter in Hm'. tauto.
Qed.

Lemma summarizeMessages_specified st :
  Forall storedAsSpecified (messages (contextManager st)) ->
  Forall storedAsSpecified (messages (contextManager (summarizeMessages w st))).
Proof.
  intros H. apply Forall_forall. intros m Hm.
  destruct (summarizeMessages_members st m Hm) as [Hold|Huser].
  - revert Hold. generalize m. apply Forall_forall. exact H.
  - destruct m; [exact I|discriminate|discriminate].
Qed.

Lemma runToolCall_specified tc st :
  toolsKeepContract (tools (contextManager st)) ->
  toolDict_get "ema_reply" (tools (contextManager st)) = None ->
  Forall storedAsSpecified (messages (contextManager st)) ->
  Forall storedAsSpecified (messages (contextManager (snd (runToolCall w tc st)))).
Proof.
  intros Hc Hnone Hm. unfold runToolCall.
  pose proof (executeTool_result (tc_name tc) (tc_args tc)
    (emit (toolCallStarted (idOrEmpty (tc_id tc)) (tc_name tc) (tc_args tc)) st) Hc)
    as [Hres Hcm].
  pose proof (executeTool_success (tc_name tc) (tc_args tc)
    (emit (toolCallStarted (idOrEmpty (tc_id tc)) (tc_name tc) (tc_args tc)) st)) as Hs.
  destruct (executeTool _ _ _) as [[res|] st2]; cbn [fst snd] in *;
    change (contextManager st2 = contextManager st) in Hcm;
    [|rewrite Hcm; exact Hm].
  specialize (Hres res eq_refl).
  assert (Hadd : Forall storedAsSpecified
                   (messages (addToolMessage res (tc_name tc) (tc_id tc)
                                (contextManager st2)))).
  { cbn [addToolMessage setMessages messages]. rewrite Hcm.
    apply Forall_app. split; [exact Hm|]. constructor; [exact Hres|constructor]. }
  destruct (success res) eqn:Hok.
  - destruct (bool_decide (tc_name tc = "ema_reply")) eqn:Hn; cbn [andb].
    + apply bool_decide_eq_true in Hn.
      destruct (Hs res eq_refl Hok) as (tool & Hget & _).
      cbn [emit contextManager] in Hget.
      rewrite Hn, Hnone in Hget. discriminate.
    + cbn [snd setContext contextManager emit]. exact Hadd.
  - cbn [snd setContext contextManager emit]. exact Hadd.
Qed.

Lemma runToolCalls_specified tcs : forall st,
  toolsKeepContract (tools (contextManager st)) ->
  toolDict_get "ema_reply" (tools (contextManager st)) = None ->
  Forall storedAsSpecified (messages (contextManager st)) ->
  Forall storedAsSpecified (messages (contextManager (snd (runToolCalls w tcs st)))).
Proof.
  induction tcs as [|tc rest IH]; intros st Hc Hnone Hm; cbn [runToolCalls];
    [exact Hm|].
  pose proof (runToolCall_specified tc st Hc Hnone Hm) as H1.
  pose proof (runToolCall_tools w tc st) as Ht.
  destruct (runToolCall w tc st) as [[|e] st']; cbn [snd] in *; [|exact H1].
  apply IH; rewrite ?Ht; assumption.
Qed.

Lemma runSteps_specified limit systemPrompt remaining : forall step st,
  toolsKeepContract (tools (contextManager st)) ->
  toolDict_get "ema_reply" (tools (contextManager st)) = None ->
  Forall storedAsSpecified (messages (contextManager st)) ->
  Forall storedAsSpecified
    (messages (contextManager (snd (runSteps w limit systemPrompt remaining step st)))).
Proof.
  induction remaining as [|remaining IH]; intros step st Hc Hnone Hm; cbn [runSteps];
    [exact Hm|].
  set (st2 := emit (stepStarted (step + 1) limit) (summarizeMessages w st)).
  assert (T2 : tools (contextManager st2) = tools (contextManager st))
    by apply summarizeMessages_tools.
  assert (M2 : Forall storedAsSpecified (messages (contextManager st2)))
    by apply summarizeMessages_specified, Hm.
  destruct (generate w _ _ _ _) as [response|attempts lastException|e];
    [|exact M2|exact M2].
  set (st4 := setContext _ (emit (llmResponseReceived response) (tick st2))).
  assert (T4 : tools (contextManager st4) = tools (contextManager st)).
  { subst st4. cbn [setContext contextManager addModelMessage setMessages tools emit tick].
    rewrite updateApiTokens_tools. exact T2. }
  assert (M4 : Forall storedAsSpecified (messages (contextManager st4))).
  { subst st4.
    cbn [setContext contextManager addModelMessage setMessages messages emit tick].
    rewrite updateApiTokens_messages. apply Forall_app. split; [exact M2|].
    repeat constructor. }
  destruct (toolCalls (message response)) as [[|tc tcs]|]; [exact M4| |exact M4].
  pose proof (runToolCalls_specified (tc :: tcs) st4) as Hr.
  pose proof (runToolCalls_tools w (tc :: tcs) st4) as Ht.
  rewrite T4 in Hr. specialize (Hr Hc Hnone M4).
  destruct (runToolCalls w (tc :: tcs) st4) as [[|e] st5]; cbn [snd] in *; [|exact Hr].
  apply IH; rewrite ?Ht, ?T4; assumption.
Qed.

(** X17. With tools that honour the contract of [ToolResult] and none of
    them registered as ["ema_reply"], every tool message the context holds
    after a run has a result that meets the contract as it is documented:
    content set and error unset on success, error set on failure.  No result
    is stored with its content cleared. *)
Theorem run_without_reply_tool_stores_valid_results (config : AgentConfig)
    (systemPrompt : string) (st : RunState) :
  toolsKeepContract (tools (contextManager st)) ->
  toolDict_get "ema_reply" (tools (contextManager st)) = None ->
  Forall storedAsSpecified (messages (contextManager st)) ->
  Forall storedAsSpecified
    (messages (contextManager (snd (run w config systemPrompt st)))).
Proof. apply runSteps_specified. Qed.

End Specified.

(** The tools of [Config.baseTools] honour the contract. *)
Lemma baseTools_keep_contract : toolsKeepContract Config.baseTools.
Proof.
  intros t Ht n args r Hr. apply list_elem_of_singleton in Ht. subst t.
  cbn in Hr. injection Hr as <-. apply FinalReplyTool_execute_invariant.
Qed.

(** An agent with the tools of [Config.baseTools] and a model that calls the
    tool ["final_reply"] and then ends the run. *)
Lemma run_without_reply_tool_stores_valid_results_witness :
  let w := Scenario2.finalReplies in
  let st := Scenario2.configured in
  toolsKeepContract (tools (contextManager st)) /\
  toolDict_get "ema_reply" (tools (contextManager st)) = None /\
  Forall storedAsSpecified (messages (contextManager st)) /\
  Forall storedAsSpecified
    (messages (contextManager (snd (run w Scenario.config "sys" st)))) /\
  map isToolMessage (messages (contextManager (snd (run w Scenario.config "sys" st))))
  = [false; false; true; false].
Proof.
  intros w st.
  assert (H1 : toolsKeepContract (tools (contextManager st)))
    by exact baseTools_keep_contract.
  assert (H2 : toolDict_get "ema_reply" (tools (contextManager st)) = None)
    by reflexivity.
  assert (H3 : Forall storedAsSpecified (messages (contextManager st)))
    by (repeat constructor).
  split; [exact H1|]. split; [exact H2|]. split; [exact H3|].
  split; [|vm_compute; reflexivity].
  exact (run_without_reply_tool_stores_valid_results w Scenario.config "sys" st
           H1 H2 H3).
Defined.

(** * The actor worker: its states *)

Section WorkerStates.

Import Actor WorkerSpec.

Variable env : Env.

Implicit Types (a : ActorWorker) (inputs : list Content) (xs : list Action).

(** The fields [work] does not touch. *)
Lemma work_control inputs (now : Z) a :
  currentRunPromise (snd (work env inputs now a)) = currentRunPromise a /\
  processingQueue (snd (work env inputs now a)) = processingQueue a /\
  abortRequests (snd (work env inputs now a)) = abortRequests a /\
  _buffer (snd (work env inputs now a)) = _buffer a.
Proof.
  unfold work. destruct inputs as [|c l]; [auto|].
  destruct (forallb isText (c :: l)); [|auto]. cbn [emitEvent].
  match goal with |- context [isBusy ?s] => destruct (isBusy s) end;
    cbn; auto.
Qed.

Lemma work_invalid inputs (now : Z) a :
  inputs = [] \/ forallb isText inputs = false ->
  exists e, work env inputs now a = (inl e, a).
Proof.
  unfold work. intros [->|H]; [eauto|].
  destruct inputs as [|c l]; [eauto|]. rewrite H. eauto.
Qed.

(** A run starts from a queue of user records. *)
Lemma startRun_control a :
  Forall (fun m => kind m = user) (queue a) ->
  fst (startRun env a) = None /\
  currentStatus (snd (startRun env a)) = running /\
  is_Some (agentState (snd (startRun env a))) /\
  queue (snd (startRun env a)) = [] /\
  currentRunPromise (snd (startRun env a)) = true /\
  processingQueue (snd (startRun env a)) = processingQueue a /\
  resumeStateAfterAbort (snd (startRun env a)) = false /\
  hasEmaReplyInRun (snd (startRun env a)) = false /\
  abortRequests (snd (startRun env a)) = abortRequests a.
Proof.
  intros Hq. destruct (toUserMessages_users env (queue a) Hq) as (us & E & _).
  unfold startRun. cbn [setStatus setStatusField eventsEmit setQueue queue].
  rewrite E.
  cbn [resumeStateAfterAbort agentState setQueue setStatus setStatusField eventsEmit].
  destruct (resumeStateAfterAbort a), (agentState a) as [s|]; cbn; eauto 12.
Qed.

Lemma finishRun_control a :
  currentRunPromise (finishRun a) = false /\
  processingQueue (finishRun a) = processingQueue a /\
  resumeStateAfterAbort (finishRun a) = resumeStateAfterAbort a /\
  abortRequests (finishRun a) = abortRequests a /\
  agentState (finishRun a)
  = (if resumeStateAfterAbort a then agentState a else None) /\
  currentStatus (finishRun a)
  = match queue a, resumeStateAfterAbort a with
    | [], false => idle
    | _, _ => currentStatus a
    end.
Proof.
  unfold finishRun. cbn.
  destruct (resumeStateAfterAbort a) eqn:Hr; cbn; rewrite ?Hr;
    destruct (queue a) eqn:Hq; cbn; rewrite ?Hq, ?Hr; auto 10.
Qed.


Lemma control_fields a b :
  control a = control b ->
  currentStatus a = currentStatus b /\ agentState a = agentState b /\
  queue a = queue b /\ currentRunPromise a = currentRunPromise b /\
  processingQueue a = processingQueue b /\
  resumeStateAfterAbort a = resumeStateAfterAbort b.
Proof. unfold control. intros [= -> -> -> -> -> ->]. auto 6. Qed.

Lemma control_eq a s st q p pq r :
  control a = (s, st, q, p, pq, r) ->
  currentStatus a = s /\ agentState a = st /\ queue a = q /\
  currentRunPromise a = p /\ processingQueue a = pq /\ resumeStateAfterAbort a = r.
Proof. unfold control. intros [= -> -> -> -> -> ->]. auto 6. Qed.

Lemma states_control a b :
  control b = control a ->
  (resting a -> resting b) /\ (driving a -> driving b) /\ (stalled a -> stalled b).
Proof.
  intros H. apply control_fields in H as (H1 & H2 & H3 & H4 & H5 & H6).
  unfold resting, driving, stalled, isBusy.
  rewrite H1, H2, H3, H4, H5. auto.
Qed.

Lemma emitEvent_control (now : Z) e a : control (emitEvent env now e a) = control a.
Proof. destruct e as [c|[]]; reflexivity. Qed.

Lemma bufferWriteTurn_control a : control (bufferWriteTurn env a) = control a.
Proof.
  unfold bufferWriteTurn.
  destruct (writing (bufferWritePromise a)) as [m|]; [reflexivity|].
  destruct (waiting (bufferWritePromise a)); [reflexivity|].
  destruct (settled (bufferWritePromise a)); reflexivity.
Qed.

Lemma abortCurrentRun_control a : control (abortCurrentRun a) = control a.
Proof. unfold abortCurrentRun. destruct (currentRunPromise a); reflexivity. Qed.

(** A valid input for a busy worker: the record is queued, the flag is set,
    and nothing else that decides the next move changes. *)
Lemma act_work_busy inputs (now : Z) a :
  inputs <> [] -> forallb isText inputs = true -> isBusy a = true ->
  control (act env (Work inputs now) a)
  = (currentStatus a, agentState a,
     queue a ++ [bufferMessageFromUser (userId env) "User" inputs now],
     currentRunPromise a, processingQueue a, negb (hasEmaReplyInRun a)).
Proof.
  intros Hne Htext Hbusy. cbn [act].
  destruct (work_accepts env inputs now a Hne Htext)
    as (Hfst & Hq & _ & Hst & _ & Hag & Hres).
  destruct (work_control inputs now a) as (Hp & Hproc & _).
  destruct (work env inputs now a) as [r a1]. cbn [fst snd] in *.
  rewrite Hbusy in Hfst, Hres. subst r.
  rewrite abortCurrentRun_control. unfold control. congruence.
Qed.

(** A valid input for a worker at rest starts a run on this input alone. *)
Lemma act_work_resting inputs (now : Z) a :
  inputs <> [] -> forallb isText inputs = true -> resting a ->
  let a' := act env (Work inputs now) a in
  driving a' /\ queue a' = [] /\ resumeStateAfterAbort a' = false /\
  hasEmaReplyInRun a' = false /\ abortRequests a' = abortRequests a /\
  exists prompt um,
    bufferMessageToUserMessage env
      (bufferMessageFromUser (userId env) "User" inputs now) = inl um /\
    agentState a'
    = Some {| as_systemPrompt := prompt; as_messages := [MUser um];
              as_tools := config_baseTools env |}.
Proof.
  intros Hne Htext (Hidle & Hstate & Hqueue & Hrun & Hproc). cbn [act].
  destruct (work_accepts env inputs now a Hne Htext)
    as (Hfst & Hq & _ & Hst & _ & Hag & Hres).
  destruct (work_control inputs now a) as (Hp & Hpq & Hab & _).
  destruct (work env inputs now a) as [r a1]. cbn [fst snd] in *.
  assert (Hbusy : isBusy a = false) by (unfold isBusy; rewrite Hidle; reflexivity).
  rewrite Hbusy in Hfst. subst r.
  unfold processQueue. rewrite Hpq, Hproc.
  unfold processLoop. cbn [setProcessingQueue queue]. rewrite Hq, Hqueue. cbn [app].
  set (a2 := setProcessingQueue true a1).
  assert (Hq2 : queue a2 = [bufferMessageFromUser (userId env) "User" inputs now])
    by (subst a2; cbn [setProcessingQueue queue]; rewrite Hq, Hqueue; reflexivity).
  assert (Huser : Forall (fun m => kind m = user) (queue a2))
    by (rewrite Hq2; repeat constructor).
  destruct (startRun_control a2 Huser)
    as (Hnone & H1 & H2 & H3 & H4 & H5 & H6 & H7 & H8).
  assert (Hfresh : exists prompt um,
            bufferMessageToUserMessage env
              (bufferMessageFromUser (userId env) "User" inputs now) = inl um /\
            agentState (snd (startRun env a2))
            = Some {| as_systemPrompt := prompt; as_messages := [MUser um];
                      as_tools := config_baseTools env |}).
  { unfold startRun. cbn [setStatus setStatusField eventsEmit setQueue queue].
    rewrite Hq2. cbn [toUserMessages bufferMessageToUserMessage bufferMessageFromUser kind].
    cbn [resumeStateAfterAbort agentState setQueue setStatus setStatusField eventsEmit].
    assert (Hs2 : agentState a2 = None)
      by (subst a2; cbn [setProcessingQueue agentState]; congruence).
    rewrite Hs2. destruct (resumeStateAfterAbort a2); cbn; eauto. }
  destruct (startRun env a2) as [[e|] a3]; cbn [fst snd] in *; [discriminate|].
  split; [|split; [exact H3|split; [exact H6|split; [exact H7|split; [|exact Hfresh]]]]].
  - unfold driving. split; [exact H1|]. split; [exact H2|]. split; [exact H4|].
    rewrite H5. reflexivity.
  - rewrite H8. subst a2. cbn [setProcessingQueue abortRequests]. exact Hab.
Qed.

(** The end of a run: the worker goes to rest, starts the next run, or, when
    the run rejected with input pending, stalls. *)
Lemma act_settled_driving s a :
  driving a -> (resumeStateAfterAbort a = true -> queue a <> []) ->
  Forall (fun m => kind m = user) (queue a) ->
  let a' := act env (RunSettled s) a in
  match queue a, s with
  | [], _ => resting a' /\ resumeStateAfterAbort a' = false
  | _ :: _, Resolved => driving a' /\ queue a' = [] /\ resumeStateAfterAbort a' = false
  | _ :: _, Rejected _ =>
      stalled a' /\ queue a' = queue a /\
      resumeStateAfterAbort a' = resumeStateAfterAbort a
  end.
Proof.
  intros (Hrun & Hstate & Hp & Hproc) Hres Huser. cbn [act]. rewrite Hp.
  destruct (finishRun_control a) as (F1 & F2 & F3 & F4 & F5 & F6).
  pose proof (finishRun_queue a) as Fq.
  destruct (queue a) as [|m rest] eqn:Hq.
  - assert (Hr : resumeStateAfterAbort a = false).
    { destruct (resumeStateAfterAbort a); [|reflexivity]. exfalso. exact (Hres eq_refl eq_refl). }
    rewrite Hr in *.
    assert (Hrest : resting (setProcessingQueue false (finishRun a)) /\
                    resumeStateAfterAbort (setProcessingQueue false (finishRun a)) = false).
    { unfold resting. cbn [setProcessingQueue currentStatus agentState queue
                           currentRunPromise processingQueue resumeStateAfterAbort].
      auto 6. }
    destruct s as [|e]; [|exact Hrest].
    unfold processLoop. rewrite Fq. exact Hrest.
  - destruct s as [|e].
    + unfold processLoop. rewrite Fq.
      assert (Hu : Forall (fun m => kind m = user) (queue (finishRun a)))
        by (rewrite Fq; exact Huser).
      destruct (startRun_control (finishRun a) Hu)
        as (Hnone & H1 & H2 & H3 & H4 & H5 & H6 & _).
      destruct (startRun env (finishRun a)) as [[e|] a3]; cbn [fst snd] in *;
        [discriminate|].
      split; [|auto]. unfold driving. rewrite H5, F2. auto.
    + unfold stalled, isBusy.
      cbn [setProcessingQueue currentStatus queue currentRunPromise processingQueue
           resumeStateAfterAbort].
      rewrite F6, Fq, F1, F3, Hrun. destruct (resumeStateAfterAbort a); auto.
Qed.

Lemma act_stalled x a :
  stalled a ->
  stalled (act env x a) /\ currentStatus (act env x a) = currentStatus a /\
  agentState (act env x a) = agentState a /\
  queue a `prefix_of` queue (act env x a).
Proof.
  intros Hst. pose proof Hst as (Hb & Hp & Hproc).
  destruct x as [inputs now|e now|s|].
  - assert (Hvalid : (inputs <> [] /\ forallb isText inputs = true) \/
                     (inputs = [] \/ forallb isText inputs = false)).
    { destruct inputs as [|c l]; [auto|].
      destruct (forallb isText (c :: l));
        [left; split; [discriminate|reflexivity]|right; auto]. }
    destruct Hvalid as [[Hne Htext]|Hbad].
    2:{ cbn [act]. destruct (work_invalid inputs now a Hbad) as [e ->]. auto. }
    pose proof (act_work_busy inputs now a Hne Htext Hb) as Hc.
    apply control_eq in Hc. destruct Hc as (C1 & C2 & C3 & C4 & C5 & C6).
    unfold stalled, isBusy in *. rewrite C1, C2, C3, C4, C5.
    split; [auto|]. split; [reflexivity|]. split; [reflexivity|].
    apply prefix_app_r. reflexivity.
  - cbn [act]. pose proof (emitEvent_control now (ActorAgentEvent e) a) as Hc.
    destruct (states_control a _ Hc) as (_ & _ & H).
    apply control_fields in Hc as (C1 & C2 & C3 & _). rewrite C1, C2, C3. auto.
  - cbn [act]. rewrite Hp. auto.
  - cbn [act]. pose proof (bufferWriteTurn_control a) as Hc.
    destruct (states_control a _ Hc) as (_ & _ & H).
    apply control_fields in Hc as (C1 & C2 & C3 & _). rewrite C1, C2, C3. auto.
Qed.

(** X19. A stalled worker stays stalled whatever happens next: no later
    input, event, settled run or turn of the buffer chain starts a run or
    changes its status or its agent state; inputs are only added to the
    queue and never taken from it. *)
Theorem stalled_worker_never_runs (xs : list Action) (a : ActorWorker) :
  stalled a ->
  stalled (perform env xs a) /\
  currentStatus (perform env xs a) = currentStatus a /\
  agentState (perform env xs a) = agentState a /\
  queue a `prefix_of` queue (perform env xs a).
Proof.
  unfold perform. revert a. induction xs as [|x xs IH]; intros a Hst; cbn [fold_left].
  - auto.
  - destruct (act_stalled x a Hst) as (H1 & H2 & H3 & H4).
    destruct (IH _ H1) as (I1 & I2 & I3 & I4).
    split; [exact I1|]. split; [congruence|]. split; [congruence|].
    etransitivity; eassumption.
Qed.

(** X20. A valid input for a worker at rest starts a run: the worker is
    running with the run in flight, the queue is drained, and the state of
    the run is fresh, its only message the input under its context header
    and its tools those of the configuration.  When this run settles, in
    whatever way, with no further input, the worker is at rest again and the
    state of the run is discarded. *)
Theorem input_at_rest_runs_and_rests (inputs : list Content) (now : Z)
    (a : ActorWorker) :
  inputs <> [] -> forallb isText inputs = true -> resting a ->
  let a1 := act env (Work inputs now) a in
  driving a1 /\ queue a1 = [] /\ hasEmaReplyInRun a1 = false /\
  (exists prompt header,
     agentState a1
     = Some {| as_systemPrompt := prompt;
               as_messages := [MUser {| u_contents := textContent header :: inputs |}];
               as_tools := config_baseTools env |}) /\
  (forall s, resting (act env (RunSettled s) a1)).
Proof.
  intros Hne Htext Hrest a1.
  destruct (act_work_resting inputs now a Hne Htext Hrest)
    as (Hd & Hq & Hr & Hrep & _ & prompt & um & Hum & Hstate).
  fold a1 in Hd, Hq, Hr, Hrep, Hstate.
  split; [exact Hd|]. split; [exact Hq|]. split; [exact Hrep|]. split.
  - exists prompt. unfold bufferMessageToUserMessage in Hum.
    cbn [bufferMessageFromUser kind contents] in Hum. injection Hum as <-.
    eexists. exact Hstate.
  - intros s.
    assert (Hres : resumeStateAfterAbort a1 = true -> queue a1 <> []) by congruence.
    assert (Hu : Forall (fun m => kind m = user) (queue a1))
      by (rewrite Hq; constructor).
    pose proof (act_settled_driving s a1 Hd Hres Hu) as H.
    rewrite Hq in H. exact (proj1 H).
Qed.

(** X21. Converting buffer records: a record made from user inputs becomes
    a user message that holds a context header followed by the inputs as
    they are; a record made from a reply is refused with an error; and the
    queue of a worker never makes the conversion fail, because only [work]
    puts records there. *)
Theorem queued_records_always_convert :
  (forall uid userName inputs now,
     exists header,
       bufferMessageToUserMessage env (bufferMessageFromUser uid userName inputs now)
       = inl {| u_contents := textContent header :: inputs |}) /\
  (forall aid actorName reply now,
     bufferMessageToUserMessage env (bufferMessageFromEma env aid actorName reply now)
     = inr "Expected user message, got actor") /\
  (forall xs, fst (startRun env (perform env xs newActorWorker)) = None).
Proof.
  split; [|split].
  - intros. eexists. reflexivity.
  - reflexivity.
  - intros xs. apply startRun_control, queue_holds_user_records.
Qed.

Lemma getBuffer_short a :
  length (_buffer a) <= 10 -> getBuffer 10 a = _buffer a.
Proof.
  intros H. unfold getBuffer.
  replace (length (_buffer a) - 10) with 0 by lia. apply drop_0.
Qed.

Lemma getBuffer_long a older recent :
  _buffer a = older ++ recent -> length recent = 10 -> getBuffer 10 a = recent.
Proof.
  intros Hb Hl. unfold getBuffer. rewrite Hb, length_app, Hl.
  replace (length older + 10 - 10) with (length older) by lia.
  apply drop_app_length.
Qed.

(** Strings: what [+:+] computes. *)
Lemma append_cons (c : Ascii.ascii) (u t : string) :
  String c u +:+ t = String c (u +:+ t).
Proof. reflexivity. Qed.

Lemma append_nil_r (u : string) : u +:+ "" = u.
Proof.
  induction u as [|c u IH]; [reflexivity|]. rewrite append_cons, IH. reflexivity.
Qed.

Lemma stripPrefix_app (p t : string) : Js.stripPrefix p (p +:+ t) = Some t.
Proof.
  induction p as [|c p IH]; [destruct t; reflexivity|].
  rewrite append_cons. cbn [Js.stripPrefix]. rewrite Ascii.eqb_refl. exact IH.
Qed.

(** Inside a match the scan passes the characters of the match. *)
Lemma replaceAllFrom_skip (p r u : string) : forall before t,
  Js.replaceAllFrom p r (String.length u) before (u +:+ t)
  = Js.replaceAllFrom p r 0 (before +:+ u) t.
Proof.
  induction u as [|c u IH]; intros before t.
  - rewrite append_nil_r. reflexivity.
  - rewrite append_cons. cbn [String.length Js.replaceAllFrom].
    rewrite IH, append_assoc. reflexivity.
Qed.

(** At a match the substitution is written and the scan goes on behind
    the match. *)
Lemma replaceAllFrom_match (c : Ascii.ascii) (p r before t : string) :
  Js.replaceAllFrom (String c p) r 0 before (String c p +:+ t)
  = Js.getSubstitution (String c p) before t r +:+
    Js.replaceAllFrom (String c p) r 0 (before +:+ String c p) t.
Proof.
  pose proof (stripPrefix_app (String c p) t) as Hs. rewrite append_cons in *.
  cbn [Js.replaceAllFrom]. rewrite Hs.
  assert (Hl : String.length (String c p) - 1 = String.length p)
    by (cbn [String.length]; lia).
  rewrite Hl, replaceAllFrom_skip, append_assoc. reflexivity.
Qed.

(** A text without the first character of the search string is copied. *)
Lemma replaceAllFrom_copy (c : Ascii.ascii) (p r seg : string) : forall before t,
  hasChar c seg = false ->
  Js.replaceAllFrom (String c p) r 0 before (seg +:+ t)
  = seg +:+ Js.replaceAllFrom (String c p) r 0 (before +:+ seg) t.
Proof.
  induction seg as [|d seg IH]; intros before t Hfree.
  - rewrite append_nil_r. reflexivity.
  - cbn [hasChar] in Hfree. apply orb_false_iff in Hfree as [Hd Hfree].
    rewrite !append_cons. cbn [Js.replaceAllFrom Js.stripPrefix].
    rewrite Ascii.eqb_sym, Hd. rewrite IH by exact Hfree.
    rewrite append_assoc. reflexivity.
Qed.

(** A replacement text without a dollar sign stands for itself. *)
Lemma getSubstitution_plain (matched before after r : string) :
  dollarFree r -> Js.getSubstitution matched before after r = r.
Proof.
  unfold dollarFree. induction r as [|c r IH]; intros Hfree; [reflexivity|].
  cbn [hasChar] in Hfree. apply orb_false_iff in Hfree as [Hc Hfree].
  cbn [Js.getSubstitution]. rewrite Hc, IH by exact Hfree. reflexivity.
Qed.

(** A template made of texts without a brace, with the placeholder between
    them: every placeholder is replaced. *)
Lemma replaceAllFrom_segments (r : string) (segments : list string) : forall before,
  Forall braceFree segments -> dollarFree r ->
  Js.replaceAllFrom placeholder r 0 before (Js.join placeholder segments)
  = Js.join r segments.
Proof.
  unfold Js.join.
  induction segments as [|x [|y l] IH]; intros before Hfree Hr.
  - reflexivity.
  - apply Forall_cons in Hfree as [Hx _]. cbn [String.concat].
    rewrite <- (append_nil_r x) at 1.
    unfold placeholder. rewrite (replaceAllFrom_copy _ _ _ x before "" Hx).
    cbn [Js.replaceAllFrom]. apply append_nil_r.
  - apply Forall_cons in Hfree as [Hx Hfree].
    change (String.concat placeholder (x :: y :: l))
      with (x +:+ placeholder +:+ String.concat placeholder (y :: l)).
    change (String.concat r (x :: y :: l))
      with (x +:+ r +:+ String.concat r (y :: l)).
    unfold placeholder at 1 2.
    rewrite (replaceAllFrom_copy _ _ _ x before _ Hx), replaceAllFrom_match.
    rewrite getSubstitution_plain by exact Hr.
    fold placeholder. rewrite IH by assumption. reflexivity.
Qed.

(** X22. The system prompt of a run shows the ten most recent records of
    the buffer and nothing older: the text shown is ["None."] for an empty
    buffer, the lines of all the records for up to ten, and the lines of the
    last ten for more.  In a template made of texts without a brace with
    the placeholder [{MEMORY_BUFFER}] between them, every placeholder is
    replaced by this text when the text has no dollar sign.  A dollar sign
    in the text is read as a replacement pattern: with one placeholder the
    prompt is the text before it, the substitution of the text, in which
    [$$], [$&], [$`] and [$'] are expanded, and the text after it. *)
Theorem system_prompt_shows_last_ten_records (segments : list string)
    (a : ActorWorker) :
  Forall braceFree segments ->
  let template := Js.join placeholder segments in
  let text := shownText env a in
  ((_buffer a = [] -> text = "None.") /\
   (_buffer a <> [] -> length (_buffer a) <= 10 -> text = bufferText env (_buffer a)) /\
   (forall older recent,
      _buffer a = older ++ recent -> length recent = 10 ->
      text = bufferText env recent)) /\
  (dollarFree text -> buildSystemPrompt env template a = Js.join text segments) /\
  (forall pre post,
     segments = [pre; post] ->
     buildSystemPrompt env template a
     = pre +:+ Js.getSubstitution placeholder pre post text +:+ post).
Proof.
  intros Hfree template text. split; [|split].
  - subst text. unfold shownText. split; [|split].
    + intros H. unfold getBuffer. rewrite H. reflexivity.
    + intros Hne Hl. rewrite (getBuffer_short a Hl).
      destruct (_buffer a); [congruence|reflexivity].
    + intros older recent Hb Hl. rewrite (getBuffer_long a older recent Hb Hl).
      destruct recent; [discriminate|reflexivity].
  - intros Hr.
    change (buildSystemPrompt env template a)
      with (Js.replaceAllFrom placeholder text 0 "" template).
    apply replaceAllFrom_segments; assumption.
  - intros pre post ->.
    change (buildSystemPrompt env template a)
      with (Js.replaceAllFrom placeholder text 0 "" template).
    apply Forall_cons in Hfree as [Hpre Hfree].
    apply Forall_cons in Hfree as [Hpost _].
    subst template. unfold Js.join.
    change (String.concat placeholder [pre; post]) with (pre +:+ placeholder +:+ post).
    unfold placeholder at 1 2.
    rewrite (replaceAllFrom_copy _ _ _ pre "" _ Hpre), replaceAllFrom_match.
    fold placeholder.
    rewrite <- (append_nil_r post) at 2.
    unfold placeholder at 2.
    rewrite (replaceAllFrom_copy _ _ _ post _ "" Hpost).
    cbn [Js.replaceAllFrom]. rewrite append_nil_r. reflexivity.
Qed.

Lemma agentEventsOf_snoc l e :
  agentEventsOf (l ++ [e])
  = agentEventsOf l ++ match e with ActorAgentEvent c => [c] | _ => [] end.
Proof. unfold agentEventsOf. rewrite omap_app. destruct e; reflexivity. Qed.

Lemma setStatus_relays s a :
  agentEventsOf (events (setStatus s a)) = agentEventsOf (events a).
Proof.
  unfold setStatus. cbn [eventsEmit events setStatusField].
  rewrite agentEventsOf_snoc. apply app_nil_r.
Qed.

Lemma startRun_relays a :
  agentEventsOf (events (snd (startRun env a))) = agentEventsOf (events a).
Proof.
  unfold startRun. destruct (toUserMessages env _).
  - cbn [snd setCurrentRunPromise events]. rewrite setStatus_relays.
    cbn [setHasEmaReplyInRun setResumeStateAfterAbort events].
    cbn [resumeStateAfterAbort agentState setQueue].
    destruct (resumeStateAfterAbort (setStatus preparing a)),
      (agentState (setStatus preparing a));
      cbn [setAgentState setQueue events]; apply setStatus_relays.
  - cbn [snd setQueue events]. apply setStatus_relays.
Qed.

Lemma finishRun_relays a :
  agentEventsOf (events (finishRun a)) = agentEventsOf (events a).
Proof.
  unfold finishRun. cbn [setCurrentRunPromise resumeStateAfterAbort].
  destruct (resumeStateAfterAbort a) eqn:Hr;
    cbn [queue setCurrentRunPromise setAgentState resumeStateAfterAbort];
    rewrite ?Hr; destruct (queue a); rewrite ?setStatus_relays; reflexivity.
Qed.

Lemma processLoop_relays a :
  agentEventsOf (events (processLoop env a)) = agentEventsOf (events a).
Proof.
  unfold processLoop. destruct (queue a); [reflexivity|].
  pose proof (startRun_relays a) as H.
  destruct (startRun env a) as [[e|] a']; exact H.
Qed.

Lemma act_relays x a :
  agentEventsOf (events (act env x a)) = agentEventsOf (events a) ++ relayedBy x.
Proof.
  destruct x as [inputs now|e now|s|]; cbn [act relayedBy]; rewrite ?app_nil_r.
  - unfold work. destruct inputs as [|c l]; [reflexivity|].
    destruct (forallb isText (c :: l)); [|reflexivity]. cbn [emitEvent].
    match goal with |- context [isBusy ?s] => destruct (isBusy s) end.
    + unfold abortCurrentRun.
      match goal with |- context [currentRunPromise ?s] => destruct (currentRunPromise s) end;
        cbn; rewrite agentEventsOf_snoc; apply app_nil_r.
    + unfold processQueue.
      match goal with |- context [processingQueue ?s] => destruct (processingQueue s) end.
      * cbn. rewrite agentEventsOf_snoc. apply app_nil_r.
      * rewrite processLoop_relays. cbn. rewrite agentEventsOf_snoc. apply app_nil_r.
  - destruct e; cbn; apply agentEventsOf_snoc.
  - destruct (currentRunPromise a); [|reflexivity]. destruct s.
    + rewrite processLoop_relays. apply finishRun_relays.
    + cbn [setProcessingQueue events]. apply finishRun_relays.
  - unfold bufferWriteTurn.
    destruct (writing (bufferWritePromise a)) as [m|]; [reflexivity|].
    destruct (waiting (bufferWritePromise a)); [reflexivity|].
    destruct (settled (bufferWritePromise a)); reflexivity.
Qed.

(** X26. A worker passes the events of its agent on to its listeners in
    the order it receives them, each exactly once: whatever inputs, settled
    runs and buffer writes come in between, the agent events among the
    events it has emitted are those it had emitted before, followed by the
    events relayed, in order. *)
Theorem agent_events_are_relayed_in_order (xs : list Action) (a : ActorWorker) :
  agentEventsOf (events (perform env xs a)) = agentEventsOf (events a) ++ relayed xs.
Proof.
  unfold perform, relayed. revert a.
  induction xs as [|x xs IH]; intros a; cbn [fold_left flat_map].
  - rewrite app_nil_r. reflexivity.
  - rewrite IH, act_relays, app_assoc. reflexivity.
Qed.

End WorkerStates.

(** * The retry wrapper *)

Section RetryWrapper.

Import Retry.

Context {A : Type}.

Variable config : RetryConfig.
Variable onRetry : option (Exception -> nat -> option Exception).

Implicit Types (originalMethod : nat -> A + Exception) (effects : list Effect).

(** The test [attempt >= max_retries] of the [catch] block. *)
Lemma lastAttempt_false (attempt : nat) :
  (ofNat attempt < max_retries config)%Q ->
  Qle_bool (max_retries config) (ofNat attempt) = false.
Proof.
  intros H. destruct (Qle_bool _ _) eqn:E; [|reflexivity].
  apply Qle_bool_iff in E. exfalso. exact (Qlt_not_le _ _ H E).
Qed.

Lemma lastAttempt_true (attempt : nat) :
  (max_retries config <= ofNat attempt)%Q ->
  Qle_bool (max_retries config) (ofNat attempt) = true.
Proof. intros H. apply Qle_bool_iff, H. Qed.

Lemma ofNat_lt (a b : nat) : a < b -> (ofNat a < ofNat b)%Q.
Proof. intros H. unfold ofNat. rewrite <- Zlt_Qlt. lia. Qed.

Lemma ofNat_le (a b : nat) : a <= b -> (ofNat a <= ofNat b)%Q.
Proof. intros H. unfold ofNat. rewrite <- Zle_Qle. lia. Qed.

(** The number of iterations of the loop. *)
Lemma iterations_negative (q : Q) : (q < 0)%Q -> iterations q = 0.
Proof.
  intros H. unfold iterations. destruct (Qle_bool 0 q) eqn:E; [|reflexivity].
  apply Qle_bool_iff in E. exfalso. exact (Qlt_not_le _ _ H E).
Qed.

Lemma iterations_floor (q : Q) :
  (0 <= q)%Q -> iterations q = S (Z.to_nat (Qfloor q)) /\ (0 <= Qfloor q)%Z.
Proof.
  intros H. unfold iterations. rewrite (proj2 (Qle_bool_iff 0 q) H).
  split; [reflexivity|]. change 0%Z with (Qfloor 0). apply Qfloor_resp_le, H.
Qed.

Lemma iterations_zero (q : Q) : iterations q = 0 -> (q < 0)%Q.
Proof.
  unfold iterations. destruct (Qle_bool 0 q) eqn:E; [discriminate|]. intros _.
  apply Qnot_le_lt. intros H. apply Qle_bool_iff in H. congruence.
Qed.

Lemma below_floor (q : Q) (attempt : nat) :
  (Z.of_nat attempt < Qfloor q)%Z -> (ofNat attempt < q)%Q.
Proof.
  intros H. apply Qlt_le_trans with (inject_Z (Qfloor q)); [|apply Qfloor_le].
  unfold ofNat. rewrite <- Zlt_Qlt. exact H.
Qed.

Lemma at_most_floor (q : Q) (attempt : nat) :
  (ofNat attempt <= q)%Q -> (Z.of_nat attempt <= Qfloor q)%Z.
Proof.
  intros H. unfold ofNat in H. apply Qfloor_resp_le in H.
  rewrite Qfloor_Z in H. exact H.
Qed.

Lemma attemptsFrom_zero originalMethod attempt lastException :
  attemptsFrom config onRetry originalMethod 0 attempt lastException
  = (match lastException with
     | Some e => if truthyOf e then Rejects e else Rejects (anError "Unknown error")
     | None => Rejects (anError "Unknown error")
     end, []).
Proof. reflexivity. Qed.

Lemma attemptsFrom_step originalMethod remaining attempt lastException :
  attemptsFrom config onRetry originalMethod (S remaining) attempt lastException
  = match originalMethod attempt with
    | inl v => (Resolves v, [Called attempt])
    | inr e =>
        if Qle_bool (max_retries config) (ofNat attempt) then
          (match e with
           | Nothing => RejectsTypeError
           | Value _ _ => RejectsExhausted e (attempt + 1)
           | Unreadable thrown => Rejects thrown
           end,
           [Called attempt; ConsoleError (max_retries config)])
        else
          match e with
          | Nothing => (RejectsTypeError, [Called attempt])
          | Unreadable thrown => (Rejects thrown, [Called attempt])
          | Value _ message =>
              let delay :=
                calculateDelay attempt (initial_delay config) (exponential_base config)
                  (max_delay config) in
              let warn := ConsoleWarn (attempt + 1) message (attempt + 2) delay in
              match onRetry with
              | Some callback =>
                  match callback e (attempt + 1) with
                  | Some thrown =>
                      (Rejects thrown, [Called attempt; warn; OnRetry e (attempt + 1)])
                  | None =>
                      let '(outcome, effects) :=
                        attemptsFrom config onRetry originalMethod remaining (attempt + 1)
                          (Some e) in
                      (outcome,
                       [Called attempt; warn; OnRetry e (attempt + 1);
                        Slept (delay * 1000)] ++ effects)
                  end
              | None =>
                  let '(outcome, effects) :=
                    attemptsFrom config onRetry originalMethod remaining (attempt + 1)
                      (Some e) in
                  (outcome, [Called attempt; warn; Slept (delay * 1000)] ++ effects)
              end
          end
    end.
Proof. reflexivity. Qed.

Lemma callsOf_cons x effects :
  callsOf (x :: effects)
  = match x with Called n => n :: callsOf effects | _ => callsOf effects end.
Proof. destruct x; reflexivity. Qed.

Lemma sleepsOf_cons x effects :
  sleepsOf (x :: effects)
  = match x with Slept ms => ms :: sleepsOf effects | _ => sleepsOf effects end.
Proof. destruct x; reflexivity. Qed.

Lemma callbacksOf_cons x effects :
  callbacksOf (x :: effects)
  = match x with OnRetry e n => (e, n) :: callbacksOf effects | _ => callbacksOf effects end.
Proof. destruct x; reflexivity. Qed.

Lemma sleep_bounded (attempt : nat) :
  (calculateDelay attempt (initial_delay config) (exponential_base config)
     (max_delay config) * 1000 <= max_delay config * 1000)%Q.
Proof.
  apply Qmult_le_compat_r; [|discriminate]. unfold calculateDelay. apply Q.le_min_r.
Qed.

(** The loop while iterations remain: the calls it makes and the way it
    ends. *)
Lemma attemptsFrom_spec originalMethod remaining : forall attempt lastException,
  Z.of_nat (attempt + remaining) = Qfloor (max_retries config) ->
  exists m,
    m <= remaining /\
    callsOf (snd (attemptsFrom config onRetry originalMethod (S remaining) attempt
                    lastException))
    = seq attempt (S m) /\
    Forall (fun ms => (ms <= max_delay config * 1000)%Q)
      (sleepsOf (snd (attemptsFrom config onRetry originalMethod (S remaining) attempt
                        lastException))) /\
    endsAfter config onRetry originalMethod
      (fst (attemptsFrom config onRetry originalMethod (S remaining) attempt
              lastException))
      (attempt + remaining) (attempt + m).
Proof.
  induction remaining as [|remaining IH]; intros attempt lastException Hmax;
    rewrite attemptsFrom_step.
  - rewrite Nat.add_0_r in *.
    destruct (originalMethod attempt) as [v|e] eqn:Hcall.
    { exists 0. rewrite Nat.add_0_r. cbn. repeat split; auto. }
    destruct (Qle_bool (max_retries config) (ofNat attempt)) eqn:Htest.
    + apply Qle_bool_iff in Htest.
      assert (Hwhole : (max_retries config == ofNat attempt)%Q).
      { apply Qle_antisym; [exact Htest|]. unfold ofNat. rewrite Hmax. apply Qfloor_le. }
      exists 0. rewrite Nat.add_0_r.
      destruct e as [|truthy message|thrown]; cbn; repeat split; auto.
    + assert (Hfrac : ~ (max_retries config == ofNat attempt)%Q).
      { intros H. rewrite H in Htest.
        rewrite (proj2 (Qle_bool_iff _ _) (Qle_refl _)) in Htest. discriminate. }
      destruct e as [|truthy message|thrown].
      { exists 0. rewrite Nat.add_0_r. cbn. repeat split; auto. }
      2:{ exists 0. rewrite Nat.add_0_r. cbn. repeat split; auto. }
      cbn zeta. rewrite !attemptsFrom_zero.
      assert (Hafter : endsAfter config onRetry originalMethod
                (if truthyOf (Value truthy message)
                 then Rejects (Value truthy message)
                 else Rejects (anError "Unknown error")) attempt attempt).
      { destruct truthy; right; right;
          [exists (Value true message)|exists (Value false message)]; cbn; auto. }
      destruct onRetry as [callback|] eqn:Hcb.
      * destruct (callback (Value truthy message) (attempt + 1)) as [thrown|] eqn:Hthrow.
        -- exists 0. rewrite Nat.add_0_r. cbn. split; [lia|]. split; [reflexivity|].
           split; [constructor|]. right. left. exists callback, (Value truthy message).
           auto.
        -- exists 0. rewrite Nat.add_0_r. cbn [fst snd app].
           rewrite !callsOf_cons, !sleepsOf_cons.
           split; [lia|]. split; [reflexivity|].
           split; [constructor; [apply sleep_bounded|constructor]|exact Hafter].
      * exists 0. rewrite Nat.add_0_r. cbn [fst snd app].
        rewrite !callsOf_cons, !sleepsOf_cons.
        split; [lia|]. split; [reflexivity|].
        split; [constructor; [apply sleep_bounded|constructor]|exact Hafter].
  - destruct (originalMethod attempt) as [v|e] eqn:Hcall.
    { exists 0. rewrite Nat.add_0_r. cbn. repeat split; auto; lia. }
    rewrite lastAttempt_false by (apply below_floor; lia).
    destruct e as [|truthy message|thrown].
    { exists 0. rewrite Nat.add_0_r. cbn. repeat split; auto; lia. }
    2:{ exists 0. rewrite Nat.add_0_r. cbn. repeat split; auto; lia. }
    destruct (IH (attempt + 1) (Some (Value truthy message)) ltac:(rewrite <- Hmax; lia))
      as (m & Hm & Hcalls & Hsleeps & Hout).
    cbn zeta.
    replace (attempt + 1 + remaining) with (attempt + S remaining) in Hout by lia.
    replace (attempt + 1 + m) with (attempt + S m) in Hout by lia.
    destruct onRetry as [callback|] eqn:Hcb.
    + destruct (callback (Value truthy message) (attempt + 1)) as [thrown|] eqn:Hthrow.
      * exists 0. rewrite Nat.add_0_r. cbn. split; [lia|]. split; [reflexivity|].
        split; [constructor|]. right. left. exists callback, (Value truthy message).
        auto.
      * destruct (attemptsFrom config (Some callback) originalMethod (S remaining)
                    (attempt + 1) (Some (Value truthy message))) as [outcome effects].
        cbn [fst snd] in *. exists (S m). split; [lia|].
        cbn [app]. rewrite !callsOf_cons, !sleepsOf_cons, Hcalls.
        replace (attempt + 1) with (S attempt) by lia.
        split; [reflexivity|].
        split; [constructor; [apply sleep_bounded|assumption]|exact Hout].
    + destruct (attemptsFrom config None originalMethod (S remaining)
                  (attempt + 1) (Some (Value truthy message))) as [outcome effects].
      cbn [fst snd] in *. exists (S m). split; [lia|].
      cbn [app]. rewrite !callsOf_cons, !sleepsOf_cons, Hcalls.
      replace (attempt + 1) with (S attempt) by lia.
      split; [reflexivity|].
      split; [constructor; [apply sleep_bounded|assumption]|exact Hout].
Qed.

(** X23. The wrapped method calls the original method for the attempts
    0, 1, ..., n - 1 in this order and never more often than there are
    numbers 0, 1, 2, ... that are at most [max_retries]; no sleep is longer
    than [max_delay] seconds.  After the last call, number n - 1, it
    - resolves with the value of this call; or
    - rejects with [RetryExhaustedError]: then [max_retries] is the whole
      number n - 1, [attempts] is n, and the exception of the call, of which
      the message can be shown, is the last exception; or
    - rejects with the [TypeError] of reading the message of the [null] or
      [undefined] that the call has thrown; or
    - rejects with what showing the message of the exception has thrown; or
    - rejects with what [onRetry] has thrown; or
    - when [max_retries] is not a whole number, leaves the loop and rejects
      with the exception of the call if it is truthy and with
      ["Unknown error"] if not.
    With a negative [max_retries] the method is not called at all and the
    rejection is ["Unknown error"]. *)
Theorem asyncRetry_attempts_are_bounded (originalMethod : nat -> A + Exception) :
  let outcome := fst (asyncRetry config onRetry originalMethod) in
  let effects := snd (asyncRetry config onRetry originalMethod) in
  exists n,
    callsOf effects = seq 0 n /\
    n <= iterations (max_retries config) /\
    Forall (fun ms => (ms <= max_delay config * 1000)%Q) (sleepsOf effects) /\
    match n with
    | 0 =>
        (max_retries config < 0)%Q /\ outcome = Rejects (anError "Unknown error")
    | S k =>
        endsAfter config onRetry originalMethod outcome (iterations (max_retries config) - 1) k
    end.
Proof.
  intros outcome effects. subst outcome effects. unfold asyncRetry.
  destruct (iterations (max_retries config)) as [|remaining] eqn:Hn.
  - exists 0. cbn. split; [reflexivity|]. split; [lia|]. split; [constructor|].
    split; [apply iterations_zero, Hn|reflexivity].
  - assert (Hq : (0 <= max_retries config)%Q).
    { apply Qnot_lt_le. intros H. rewrite (iterations_negative _ H) in Hn.
      discriminate. }
    destruct (iterations_floor _ Hq) as [Hi Hf]. rewrite Hn in Hi.
    destruct (attemptsFrom_spec originalMethod remaining 0 None ltac:(lia))
      as (m & Hm & Hcalls & Hsleeps & Hout).
    exists (S m). split; [exact Hcalls|]. split; [lia|]. split; [exact Hsleeps|].
    cbn [Nat.add] in Hout. rewrite Nat.sub_succ, Nat.sub_0_r. exact Hout.
Qed.

(** The loop on a method that fails [failures] times before it returns. *)
Lemma attemptsFrom_recovers originalMethod (err : nat -> Exception) (v : A) failures :
  returns onRetry ->
  (forall i, i < failures -> originalMethod i = inr (err i) /\ readable (err i) = true) ->
  originalMethod failures = inl v ->
  (ofNat failures <= max_retries config)%Q ->
  forall remaining attempt lastException,
    attempt <= failures -> failures - attempt < remaining ->
    let delay i :=
      (calculateDelay i (initial_delay config) (exponential_base config)
         (max_delay config) * 1000)%Q in
    let result :=
      attemptsFrom config onRetry originalMethod remaining attempt lastException in
    fst result = Resolves v /\
    callsOf (snd result) = seq attempt (S (failures - attempt)) /\
    sleepsOf (snd result) = map delay (seq attempt (failures - attempt)) /\
    callbacksOf (snd result)
    = match onRetry with
      | Some _ => map (fun i => (err i, i + 1)) (seq attempt (failures - attempt))
      | None => []
      end.
Proof.
  intros Hret Hfail Hok Hmax remaining.
  induction remaining as [|remaining IH]; intros attempt lastException Hle Hrem
    delay result; subst result; [lia|].
  destruct (decide (attempt = failures)) as [->|Hne].
  { rewrite attemptsFrom_step, Hok, Nat.sub_diag. cbn. destruct onRetry; auto. }
  destruct (Hfail attempt ltac:(lia)) as [Hcall Hvalue].
  rewrite attemptsFrom_step, Hcall.
  rewrite lastAttempt_false
    by (eapply Qlt_le_trans; [apply ofNat_lt|exact Hmax]; lia).
  destruct (err attempt) as [|truthy message|thrown] eqn:Herr; try discriminate. cbn zeta.
  destruct (IH (attempt + 1) (Some (Value truthy message)) ltac:(lia) ltac:(lia))
    as (H1 & H2 & H3 & H4).
  replace (failures - attempt) with (S (failures - (attempt + 1))) by lia.
  replace (attempt + 1) with (S attempt) in * by lia.
  destruct onRetry as [callback|] eqn:Hcb.
  - rewrite (Hret callback (Value truthy message) (S attempt) eq_refl).
    destruct (attemptsFrom config (Some callback) originalMethod remaining
                (S attempt) (Some (Value truthy message))) as [outcome effects].
    cbn [fst snd app] in *.
    rewrite !callsOf_cons, !sleepsOf_cons, !callbacksOf_cons, H2, H3, H4.
    cbn [seq map]. rewrite Herr.
    replace (attempt + 1) with (S attempt) by lia. auto.
  - destruct (attemptsFrom config None originalMethod remaining
                (S attempt) (Some (Value truthy message))) as [outcome effects].
    cbn [fst snd app] in *.
    rewrite !callsOf_cons, !sleepsOf_cons, !callbacksOf_cons, H2, H3, H4.
    cbn [seq map]. auto.
Qed.

(** X24. When the original method fails [failures] times, with exceptions
    of which the message can be shown, and then returns a value, with
    [failures] at most [max_retries] and a callback that does not throw, the
    wrapped method resolves with this value after exactly [failures + 1]
    calls; between the calls it sleeps for the capped exponential delays of
    the attempts, and [onRetry] is called once for every failure, with the
    exception and the number of the failed call. *)
Theorem asyncRetry_recovers_after_failures (originalMethod : nat -> A + Exception)
    (err : nat -> Exception) (v : A) (failures : nat) :
  returns onRetry ->
  (forall i, i < failures -> originalMethod i = inr (err i) /\ readable (err i) = true) ->
  originalMethod failures = inl v ->
  (ofNat failures <= max_retries config)%Q ->
  let delay i :=
    (calculateDelay i (initial_delay config) (exponential_base config)
       (max_delay config) * 1000)%Q in
  let result := asyncRetry config onRetry originalMethod in
  fst result = Resolves v /\
  callsOf (snd result) = seq 0 (S failures) /\
  sleepsOf (snd result) = map delay (seq 0 failures) /\
  callbacksOf (snd result)
  = match onRetry with
    | Some _ => map (fun i => (err i, i + 1)) (seq 0 failures)
    | None => []
    end.
Proof.
  intros Hret Hfail Hok Hmax delay result. subst result. unfold asyncRetry.
  assert (Hq : (0 <= max_retries config)%Q).
  { eapply Qle_trans; [|exact Hmax]. apply (ofNat_le 0). lia. }
  destruct (iterations_floor _ Hq) as [Hi Hf].
  pose proof (at_most_floor _ _ Hmax) as Hfl.
  pose proof (attemptsFrom_recovers originalMethod err v failures Hret Hfail Hok Hmax
                (iterations (max_retries config)) 0 None ltac:(lia) ltac:(lia)) as H.
  rewrite Nat.sub_0_r in H. exact H.
Qed.

(** The loop on a method that always fails. *)
Lemma attemptsFrom_exhausts originalMethod (err : nat -> Exception) (retries : nat) :
  returns onRetry ->
  (forall i, originalMethod i = inr (err i) /\ readable (err i) = true) ->
  (max_retries config == ofNat retries)%Q ->
  forall remaining attempt lastException,
    attempt + remaining = retries ->
    let delay i :=
      (calculateDelay i (initial_delay config) (exponential_base config)
         (max_delay config) * 1000)%Q in
    let result :=
      attemptsFrom config onRetry originalMethod (S remaining) attempt lastException in
    fst result = RejectsExhausted (err retries) (retries + 1) /\
    callsOf (snd result) = seq attempt (S remaining) /\
    sleepsOf (snd result) = map delay (seq attempt remaining) /\
    callbacksOf (snd result)
    = match onRetry with
      | Some _ => map (fun i => (err i, i + 1)) (seq attempt remaining)
      | None => []
      end.
Proof.
  intros Hret Hfail Hmax remaining.
  induction remaining as [|remaining IH]; intros attempt lastException Hsum delay result;
    subst result; destruct (Hfail attempt) as [Hcall Hvalue];
    rewrite attemptsFrom_step, Hcall.
  - rewrite Nat.add_0_r in Hsum. subst attempt.
    rewrite lastAttempt_true by (rewrite Hmax; apply Qle_refl).
    destruct (err retries) as [|truthy message|thrown]; try discriminate.
    cbn. destruct onRetry; auto.
  - rewrite lastAttempt_false by (rewrite Hmax; apply ofNat_lt; lia).
    destruct (err attempt) as [|truthy message|thrown] eqn:Herr; try discriminate. cbn zeta.
    destruct (IH (attempt + 1) (Some (Value truthy message)) ltac:(lia))
      as (H1 & H2 & H3 & H4).
    replace (attempt + 1) with (S attempt) in * by lia.
    destruct onRetry as [callback|] eqn:Hcb.
    + rewrite (Hret callback (Value truthy message) (S attempt) eq_refl).
      destruct (attemptsFrom config (Some callback) originalMethod (S remaining)
                  (S attempt) (Some (Value truthy message))) as [outcome effects].
      cbn [fst snd app] in *.
      rewrite !callsOf_cons, !sleepsOf_cons, !callbacksOf_cons, H2, H3, H4.
      cbn [seq map]. rewrite Herr.
      replace (attempt + 1) with (S attempt) by lia. auto.
    + destruct (attemptsFrom config None originalMethod (S remaining)
                  (S attempt) (Some (Value truthy message))) as [outcome effects].
      cbn [fst snd app] in *.
      rewrite !callsOf_cons, !sleepsOf_cons, !callbacksOf_cons, H2, H3, H4.
      cbn [seq map]. auto.
Qed.

(** X25. When every call of the original method fails, with exceptions
    of which the message can be shown, [max_retries] is the whole
    number [retries] and the callback does not throw, the wrapped method
    makes [retries + 1] calls and rejects with [RetryExhaustedError]
    carrying the exception of the last call and [attempts = retries + 1]; it
    sleeps [retries] times, for the capped exponential delays, and calls
    [onRetry] [retries] times: not after the last failure. *)
Theorem asyncRetry_exhausts_after_max_retries (originalMethod : nat -> A + Exception)
    (err : nat -> Exception) (retries : nat) :
  returns onRetry ->
  (forall i, originalMethod i = inr (err i) /\ readable (err i) = true) ->
  (max_retries config == ofNat retries)%Q ->
  let delay i :=
    (calculateDelay i (initial_delay config) (exponential_base config)
       (max_delay config) * 1000)%Q in
  let result := asyncRetry config onRetry originalMethod in
  fst result = RejectsExhausted (err retries) (retries + 1) /\
  callsOf (snd result) = seq 0 (retries + 1) /\
  sleepsOf (snd result) = map delay (seq 0 retries) /\
  callbacksOf (snd result)
  = match onRetry with
    | Some _ => map (fun i => (err i, i + 1)) (seq 0 retries)
    | None => []
    end.
Proof.
  intros Hret Hfail Hmax delay result. subst result. unfold asyncRetry.
  assert (Hq : (0 <= max_retries config)%Q).
  { rewrite Hmax. apply (ofNat_le 0). lia. }
  destruct (iterations_floor _ Hq) as [Hi Hf].
  assert (Hfl : Qfloor (max_retries config) = Z.of_nat retries).
  { rewrite Hmax. apply Qfloor_Z. }
  rewrite Hi, Hfl, Nat2Z.id.
  destruct (attemptsFrom_exhausts originalMethod err retries Hret Hfail Hmax
              retries 0 None eq_refl) as (H1 & H2 & H3 & H4).
  rewrite Nat.add_1_r in *. repeat split; assumption.
Qed.

End RetryWrapper.

(** * The agent loop: user messages are never lost *)

Section UsersKept.

Variable w : World.

Implicit Types (st : RunState) (l ms : list Message).

Lemma sublist_of_users l ms :
  l `sublist_of` ms -> Forall (fun m => isUserMessage m = true) l ->
  l `sublist_of` filter (fun m => isUserMessage m = true) ms.
Proof.
  induction 1 as [|x l1 l2 _ IH|x l1 l2 _ IH]; intros Hl.
  - constructor.
  - apply Forall_cons in Hl as [Hx Hl].
    rewrite filter_cons_True by exact Hx. apply sublist_skip, IH, Hl.
  - destruct (isUserMessage x) eqn:Hx.
    + rewrite filter_cons_True by exact Hx. apply sublist_cons, IH, Hl.
    + rewrite filter_cons_False by congruence. apply IH, Hl.
Qed.

(** The user messages survive a summarization, in order. *)
Lemma summarizeMessages_users st :
  filter (fun m => isUserMessage m = true) (messages (contextManager st))
    `sublist_of` messages (contextManager (summarizeMessages w st)).
Proof.
  set (ms := messages (contextManager st)).
  destruct (skipNextTokenCheck (contextManager st)) eqn:Hskip.
  { rewrite summarizeMessages_unchanged by auto. apply sublist_filter. }
  destruct (decide (overLimit w st)) as [Hover|Hover].
  2:{ rewrite summarizeMessages_unchanged by auto. apply sublist_filter. }
  assert (Hrounds : rounds ms = [] \/ rounds ms <> [])
    by (destruct (rounds ms); [left; reflexivity|right; discriminate]).
  destruct Hrounds as [Hrounds|Hrounds].
  { rewrite summarizeMessages_unchanged by auto. apply sublist_filter. }
  destruct (summarizeMessages_rebuild w st Hskip Hover Hrounds) as [-> _].
  fold ms. rewrite <- (rounds_users ms).
  apply sublist_inserts_l. apply rebuilt_keeps_users.
  apply roundSummaries_length.
Qed.

Lemma summarizeMessages_keeps_sublist l st :
  Forall (fun m => isUserMessage m = true) l ->
  l `sublist_of` messages (contextManager st) ->
  l `sublist_of` messages (contextManager (summarizeMessages w st)).
Proof.
  intros Hl Hs. etransitivity; [|apply summarizeMessages_users].
  apply sublist_of_users; assumption.
Qed.

Lemma runToolCall_keeps_sublist l tc st :
  l `sublist_of` messages (contextManager st) ->
  l `sublist_of` messages (contextManager (snd (runToolCall w tc st))).
Proof.
  intros Hs. pose proof (runToolCall_context w tc st) as H.
  destruct (fst (runToolCall w tc st)); [destruct H as [res ->]|rewrite H; exact Hs].
  cbn [addToolMessage setMessages messages]. apply sublist_inserts_r, Hs.
Qed.

Lemma runToolCalls_keeps_sublist l tcs : forall st,
  l `sublist_of` messages (contextManager st) ->
  l `sublist_of` messages (contextManager (snd (runToolCalls w tcs st))).
Proof.
  induction tcs as [|tc rest IH]; intros st Hs; cbn [runToolCalls]; [exact Hs|].
  pose proof (runToolCall_keeps_sublist l tc st Hs) as H1.
  destruct (runToolCall w tc st) as [[|e] st']; cbn [snd] in *; [|exact H1].
  apply IH, H1.
Qed.

Lemma runSteps_keeps_sublist l limit systemPrompt remaining : forall step st,
  Forall (fun m => isUserMessage m = true) l ->
  l `sublist_of` messages (contextManager st) ->
  l `sublist_of`
    messages (contextManager (snd (runSteps w limit systemPrompt remaining step st))).
Proof.
  induction remaining as [|remaining IH]; intros step st Hl Hs; cbn [runSteps];
    [exact Hs|].
  set (st2 := emit (stepStarted (step + 1) limit) (summarizeMessages w st)).
  assert (M2 : l `sublist_of` messages (contextManager st2))
    by (apply summarizeMessages_keeps_sublist; assumption).
  destruct (generate w _ _ _ _) as [response|attempts lastException|e];
    [|exact M2|exact M2].
  set (st4 := setContext _ (emit (llmResponseReceived response) (tick st2))).
  assert (M4 : l `sublist_of` messages (contextManager st4)).
  { subst st4.
    cbn [setContext contextManager addModelMessage setMessages messages emit tick].
    rewrite updateApiTokens_messages. apply sublist_inserts_r, M2. }
  destruct (toolCalls (message response)) as [[|tc tcs]|]; [exact M4| |exact M4].
  pose proof (runToolCalls_keeps_sublist l (tc :: tcs) st4 M4) as Hr.
  destruct (runToolCalls w (tc :: tcs) st4) as [[|e] st5]; cbn [snd] in *; [|exact Hr].
  apply IH; assumption.
Qed.

(** X27. A run never loses a user message: however many steps,
    summarizations and tool calls it takes and however it ends, the user
    messages the context held at its start are still in the context at its
    end, in the same order. *)
Theorem run_keeps_user_messages (config : AgentConfig) (systemPrompt : string)
    (st : RunState) :
  filter (fun m => isUserMessage m = true) (messages (contextManager st))
    `sublist_of` messages (contextManager (snd (run w config systemPrompt st))).
Proof.
  unfold run. apply runSteps_keeps_sublist.
  - apply Forall_forall. intros m Hm. apply list_elem_of_filter in Hm. tauto.
  - apply sublist_filter.
Qed.

End UsersKept.

(** * The guarantees of a run on the scenarios *)

(** Two calls in scenario S1, the first of a tool that is not registered:
    both are answered, in order. *)
Lemma tool_calls_are_answered_in_order_witness :
  let w := Scenario.singleTurn in
  let tcs := [Scenario2.missingCall; Scenario.replyCall] in
  let st := Scenario.start in
  fst (runToolCalls w tcs st) = Resolved /\
  exists l,
    messages (contextManager (snd (runToolCalls w tcs st)))
    = messages (contextManager st) ++ l /\
    Forall2 answers tcs l.
Proof.
  intros w tcs st.
  assert (H : fst (runToolCalls w tcs st) = Resolved) by (vm_compute; reflexivity).
  split; [exact H|].
  exact (proj2 (tool_calls_are_answered_in_order w tcs st H)).
Defined.

(** The tool ["search"] is not registered in scenario S1. *)
Lemma unknown_tool_is_answered_witness :
  let w := Scenario.singleTurn in
  let tc := Scenario2.missingCall in
  let st := Scenario.start in
  toolDict_get (tc_name tc) (tools (contextManager st)) = None /\
  fst (runToolCall w tc st) = Resolved /\
  calls (snd (runToolCall w tc st)) = calls st.
Proof.
  intros w tc st.
  assert (H : toolDict_get (tc_name tc) (tools (contextManager st)) = None)
    by reflexivity.
  destruct (unknown_tool_is_answered w tc st H) as (H1 & _ & _ & _ & H2).
  split; [exact H|]. split; [exact H1|exact H2].
Defined.


(** A tool that throws [null]: the run is rejected after the start of the
    call. *)
Example null_throw_rejects_run :
  let w := Scenario.singleTurn in
  let st := newAgent Scenario.config [Scenario.hello] [Scenario2.nullTool] in
  runToolCall w Scenario2.nullCall st
  = (Rejected "TypeError", emit (callStarted Scenario2.nullCall) (tick st)).
Proof. reflexivity. Qed.



(** Scenario S1 ends with the answer of the second step. *)
Lemma run_ok_ends_with_answer_witness :
  let w := Scenario.singleTurn in
  let st := Scenario.start in
  last (runEvents w Scenario.config "sys" st) = Some (runFinished true "stop") /\
  fst (run w Scenario.config "sys" st) = Resolved.
Proof.
  intros w st.
  assert (H : last (runEvents w Scenario.config "sys" st)
              = Some (runFinished true "stop")) by (vm_compute; reflexivity).
  split; [exact H|].
  exact (proj1 (run_ok_ends_with_answer w Scenario.config "sys" st "stop" H)).
Defined.

(** * Summarization, the worker and the retry wrapper on the scenarios *)

(** Two user messages and a limit they exceed: nothing is rebuilt and no
    summary is asked for. *)
Lemma summarizeMessages_minimal_list_unchanged_witness :
  let w := Scenario.offline in
  let st := newAgent {| maxSteps := 5; cfg_tokenLimit := 1 |}
              [Scenario.ask "one"; Scenario.ask "two"] [] in
  Forall (fun m => isUserMessage m = true) (drop 1 (messages (contextManager st))) /\
  messages (contextManager (summarizeMessages w st)) = messages (contextManager st) /\
  calls (summarizeMessages w st) = calls st.
Proof.
  intros w st.
  assert (H : Forall (fun m => isUserMessage m = true)
                (drop 1 (messages (contextManager st))))
    by (repeat constructor).
  split; [exact H|].
  exact (summarizeMessages_minimal_list_unchanged w st H).
Defined.

(** Scenario S4 with a model that is down: the rebuilt list holds user
    messages only. *)
Lemma summarizeMessages_leaves_user_messages_witness :
  let w := Scenario.offline in
  let st := Scenario.overLimit in
  skipNextTokenCheck (contextManager st) = false /\
  overLimit w st /\
  rounds (messages (contextManager st)) <> [] /\
  Forall (fun m => isUserMessage m = true)
    (drop 1 (messages (contextManager (summarizeMessages w st)))) /\
  length (messages (contextManager (summarizeMessages w st))) = 6.
Proof.
  intros w st.
  assert (H1 : skipNextTokenCheck (contextManager st) = false) by reflexivity.
  assert (H2 : overLimit w st) by (left; vm_compute; reflexivity).
  assert (H3 : rounds (messages (contextManager st)) <> [])
    by (vm_compute; discriminate).
  destruct (summarizeMessages_leaves_user_messages w st H1 H2 H3) as (_ & Hu & _).
  split; [exact H1|]. split; [exact H2|]. split; [exact H3|]. split; [exact Hu|].
  vm_compute. reflexivity.
Defined.

(** A run that rejects while a second input is waiting leaves the worker
    stalled; a third input and a late settlement change nothing. *)
Lemma stalled_worker_never_runs_witness :
  let env := ActorScenario.inMemory in
  let a :=
    Actor.perform env
      [Actor.Work (ActorScenario.say "one") 1; Actor.Work (ActorScenario.say "two") 2;
       Actor.RunSettled (Rejected "SyntaxError")] Actor.newActorWorker in
  let xs := [Actor.Work (ActorScenario.say "three") 3; Actor.BufferTurn;
             Actor.RunSettled Resolved] in
  WorkerSpec.stalled a /\
  WorkerSpec.stalled (Actor.perform env xs a) /\
  Actor.currentStatus (Actor.perform env xs a) = Actor.running /\
  map Actor.time (Actor.queue (Actor.perform env xs a)) = [2%Z; 3%Z].
Proof.
  intros env a xs.
  assert (H : WorkerSpec.stalled a) by (unfold WorkerSpec.stalled; vm_compute; auto).
  destruct (stalled_worker_never_runs env xs a H) as (H1 & H2 & _).
  split; [exact H|]. split; [exact H1|]. split; [rewrite H2|]; vm_compute; reflexivity.
Defined.

(** The first input of a fresh worker. *)
Lemma input_at_rest_runs_and_rests_witness :
  let env := ActorScenario.inMemory in
  let inputs := ActorScenario.say "hi" in
  let a1 := Actor.act env (Actor.Work inputs 1) Actor.newActorWorker in
  inputs <> [] /\ forallb isText inputs = true /\
  WorkerSpec.resting Actor.newActorWorker /\
  WorkerSpec.driving a1 /\
  WorkerSpec.resting (Actor.act env (Actor.RunSettled Resolved) a1).
Proof.
  intros env inputs a1.
  assert (H1 : inputs <> []) by discriminate.
  assert (H2 : forallb isText inputs = true) by reflexivity.
  assert (H3 : WorkerSpec.resting Actor.newActorWorker)
    by (unfold WorkerSpec.resting; auto 6).
  destruct (input_at_rest_runs_and_rests env inputs 1 Actor.newActorWorker H1 H2 H3)
    as (Hd & _ & _ & _ & Hr).
  split; [exact H1|]. split; [exact H2|]. split; [exact H3|].
  split; [exact Hd|exact (Hr Resolved)].
Defined.

(** The prompt of a worker holding one record, from a template with one
    placeholder. *)
Lemma system_prompt_shows_last_ten_records_witness :
  let env := ActorScenario.inMemory in
  let a :=
    Actor.perform env
      [Actor.Work (ActorScenario.say "one") 1; Actor.BufferTurn; Actor.BufferTurn]
      Actor.newActorWorker in
  let segments := ["Recent: "; ""] in
  Forall WorkerSpec.braceFree segments /\
  length (Actor._buffer a) = 1 /\
  WorkerSpec.shownText env a = WorkerSpec.bufferText env (Actor._buffer a) /\
  Actor.buildSystemPrompt env "Recent: {MEMORY_BUFFER}" a
  = "Recent: " +:+ WorkerSpec.shownText env a.
Proof.
  intros env a segments.
  assert (H : Forall WorkerSpec.braceFree segments) by (repeat constructor).
  destruct (system_prompt_shows_last_ten_records env segments a H)
    as ((_ & Hshort & _) & Hplain & _).
  split; [exact H|]. split; [reflexivity|].
  split; [apply Hshort; [discriminate|vm_compute; lia]|].
  change ("Recent: {MEMORY_BUFFER}") with (Js.join WorkerSpec.placeholder segments).
  rewrite (Hplain ltac:(vm_compute; reflexivity)). vm_compute. reflexivity.
Defined.

(** The default configuration and a method that fails twice. *)
Lemma asyncRetry_recovers_after_failures_witness :
  let down := Retry.anError "down" in
  let method (n : nat) : nat + Retry.Exception :=
    if Nat.ltb n 2 then inr down else inl 7 in
  let result := Retry.asyncRetry Retry.defaultConfig None method in
  Retry.returns None /\
  (forall i, i < 2 -> method i = inr down /\ Retry.readable down = true) /\
  method 2 = inl 7 /\
  (Retry.ofNat 2 <= Retry.max_retries Retry.defaultConfig)%Q /\
  fst result = Retry.Resolves 7 /\
  Retry.callsOf (snd result) = [0; 1; 2] /\
  Retry.sleepsOf (snd result) = [1000%Q; 2000%Q].
Proof.
  intros down method result.
  assert (H1 : Retry.returns None) by (intros callback e n H; discriminate H).
  assert (H2 : forall i, i < 2 -> method i = inr down /\ Retry.readable down = true).
  { intros i Hi. unfold method. rewrite (proj2 (Nat.ltb_lt i 2) Hi). split; reflexivity. }
  assert (H3 : method 2 = inl 7) by reflexivity.
  assert (H4 : (Retry.ofNat 2 <= Retry.max_retries Retry.defaultConfig)%Q)
    by (vm_compute; discriminate).
  destruct (asyncRetry_recovers_after_failures Retry.defaultConfig None method
              (fun _ => down) 7 2 H1 H2 H3 H4) as (R1 & R2 & R3 & _).
  split; [exact H1|]. split; [exact H2|]. split; [exact H3|]. split; [exact H4|].
  split; [exact R1|]. split; [exact R2|exact R3].
Defined.

(** The default configuration and a method that always fails: four calls,
    three sleeps of one, two and four seconds. *)
Lemma asyncRetry_exhausts_after_max_retries_witness :
  let down := Retry.anError "down" in
  let callback : option (Retry.Exception -> nat -> option Retry.Exception) :=
    Some (fun _ _ => None) in
  let result :=
    Retry.asyncRetry (A:=nat) Retry.defaultConfig callback (fun i => inr down) in
  Retry.returns callback /\
  (Retry.max_retries Retry.defaultConfig == Retry.ofNat 3)%Q /\
  fst result = Retry.RejectsExhausted down 4 /\
  Retry.callsOf (snd result) = [0; 1; 2; 3] /\
  Retry.sleepsOf (snd result) = [1000%Q; 2000%Q; 4000%Q] /\
  Retry.callbacksOf (snd result) = [(down, 1); (down, 2); (down, 3)].
Proof.
  intros down callback result.
  assert (H1 : Retry.returns callback) by (intros f e n [= <-]; reflexivity).
  assert (H2 : (Retry.max_retries Retry.defaultConfig == Retry.ofNat 3)%Q)
    by reflexivity.
  destruct (asyncRetry_exhausts_after_max_retries (A:=nat) Retry.defaultConfig callback
              (fun i => inr down) (fun _ => down) 3 H1
              (fun i => conj eq_refl eq_refl) H2) as (R1 & R2 & R3 & R4).
  split; [exact H1|]. split; [exact H2|].
  split; [exact R1|]. split; [exact R2|]. split; [exact R3|exact R4].
Defined.

(** A method that throws [null] is not retried: the wrapped method rejects
    with a [TypeError] after the first call.  With [max_retries] at 1.5 the
    method is called twice and its own exception comes back. *)
Example asyncRetry_other_endings :
  let down := Retry.anError "down" in
  Retry.asyncRetry (A:=nat) Retry.defaultConfig None (fun _ => inr Retry.Nothing)
  = (Retry.RejectsTypeError, [Retry.Called 0]) /\
  fst (Retry.asyncRetry (A:=nat)
         {| Retry.enabled := true; Retry.max_retries := 3 # 2; Retry.initial_delay := 1;
            Retry.max_delay := 60; Retry.exponential_base := 2 |}
         None (fun _ => inr down))
  = Retry.Rejects down /\
  Retry.callsOf
    (snd (Retry.asyncRetry (A:=nat)
            {| Retry.enabled := true; Retry.max_retries := 3 # 2;
               Retry.initial_delay := 1; Retry.max_delay := 60;
               Retry.exponential_base := 2 |}
            None (fun _ => inr down)))
  = [0; 1].
Proof. repeat split; reflexivity. Qed.

(** * The actor worker, cut at every [await]: its states *)

Section InterleavedStates.

Import Actor Interleaved WorkerSpec InterleavedSpec.

Variable env : Env.
Variable promptFile : nat -> string + string.

Implicit Types (s : State) (a : ActorWorker) (inputs : list Content).

Lemma launch_control a :
  control (launch a) = (running, agentState a, queue a, true, processingQueue a, false).
Proof. reflexivity. Qed.

Lemma validity inputs :
  (inputs <> [] /\ forallb isText inputs = true) \/
  (inputs = [] \/ forallb isText inputs = false).
Proof.
  destruct inputs as [|c l]; [auto|].
  destruct (forallb isText (c :: l));
    [left; split; [discriminate|reflexivity]|right; auto].
Qed.

(** The loop test and what follows it, for a driver that has no run in
    flight: the driver ends at rest, starts a run, suspends the iteration,
    or, when the prompt file cannot be read, leaves the worker stalled. *)
Lemma loop_invariant s :
  suspended s = None ->
  currentRunPromise (worker s) = false -> processingQueue (worker s) = true ->
  Forall (fun m => kind m = user) (queue (worker s)) ->
  (queue (worker s) = [] ->
   currentStatus (worker s) = idle /\ agentState (worker s) = None /\
   resumeStateAfterAbort (worker s) = false) ->
  (resumeStateAfterAbort (worker s) = true -> is_Some (agentState (worker s))) ->
  invariant (loop env promptFile s) /\
  ((exists template, promptFile (reads s) = inl template) ->
   ~ stalledWorker (loop env promptFile s)).
Proof.
  destruct s as [a susp n]. cbn [worker suspended reads].
  intros -> Hrun Hproc Huser Hempty Hresume. unfold loop. cbn [worker suspended reads].
  destruct (queue a) as [|m rest] eqn:Hq.
  - destruct (Hempty eq_refl) as (Hidle & Hstate & Hres).
    assert (Hrest : atRest {| worker := setProcessingQueue false a; suspended := None;
                              reads := n |}).
    { split; [|reflexivity]. unfold resting.
      cbn [worker setProcessingQueue currentStatus agentState queue currentRunPromise
           processingQueue]. auto 6. }
    split.
    + split; [auto|]. split; [|split].
      * cbn [worker setProcessingQueue resumeStateAfterAbort]. congruence.
      * cbn [worker setProcessingQueue queue]. rewrite Hq. constructor.
      * constructor.
    + intros _ ((Hb & _) & _). unfold isBusy in Hb.
      cbn [worker setProcessingQueue currentStatus] in Hb. rewrite Hidle in Hb.
      discriminate.
  - cbn [setStatus setStatusField eventsEmit setQueue queue resumeStateAfterAbort
         agentState].
    rewrite Hq.
    assert (Hfresh :
      resumeStateAfterAbort a = false ->
      let s' :=
        match promptFile n with
        | inl template =>
            {| worker := setQueue [] (setStatus preparing a);
               suspended := Some (AwaitingBuffer (m :: rest) template);
               reads := S n |}
        | inr _ =>
            {| worker := setProcessingQueue false (setQueue [] (setStatus preparing a));
               suspended := None; reads := S n |}
        end in
      invariant s' /\
      ((exists template, promptFile n = inl template) -> ~ stalledWorker s')).
    { intros Hres. destruct (promptFile n) as [template|e]; cbn zeta.
      - split.
        + split.
          { right. left. unfold preparingRun.
            cbn [worker suspended setQueue setStatus setStatusField eventsEmit
                 currentStatus currentRunPromise processingQueue].
            split; [reflexivity|]. split; [exact Hrun|]. split; [exact Hproc|eauto]. }
          split; [discriminate|]. split; [constructor|exact Huser].
        + intros _ (_ & H). discriminate H.
      - split.
        + split.
          { right. right. right. split; [|reflexivity]. unfold stalled, isBusy.
            cbn [worker setProcessingQueue setQueue setStatus setStatusField eventsEmit
                 currentStatus currentRunPromise processingQueue]. auto. }
          split; [|split; constructor].
          cbn [worker setProcessingQueue setQueue setStatus setStatusField eventsEmit
               resumeStateAfterAbort]. congruence.
        + intros [template H]. discriminate H. }
    destruct (resumeStateAfterAbort a) eqn:Hres.
    + destruct (Hresume eq_refl) as [st Hst]. rewrite Hst.
      destruct (toUserMessages_users env (m :: rest) Huser) as (us & E & _).
      rewrite E. split.
      * split.
        { right. right. left. split; [|reflexivity]. unfold driving.
          cbn [worker launch setCurrentRunPromise setStatus setStatusField eventsEmit
               setHasEmaReplyInRun setResumeStateAfterAbort setAgentState setQueue
               currentStatus agentState currentRunPromise processingQueue].
          split; [reflexivity|]. split; [eauto|]. split; [reflexivity|exact Hproc]. }
        split; [discriminate|]. split; constructor.
      * intros _ ((_ & H & _) & _). discriminate H.
    + destruct (agentState a); exact (Hfresh eq_refl).
Qed.

(** A step keeps the invariant; and a worker that is not stalled is not
    stalled after it, unless the step is a run that rejects or reads a
    prompt file that is not there. *)
Lemma step_invariant (x : Step) s :
  invariant s ->
  invariant (step env promptFile x s) /\
  (~ stalledWorker s -> (forall e, x <> Settled (Rejected e)) ->
   (exists template, promptFile (reads s) = inl template) ->
   ~ stalledWorker (step env promptFile x s)).
Proof.
  destruct s as [a susp n]. intros Hinv.
  pose proof Hinv as (Hclass & Hres & Huser & Hbatches).
  cbn [worker suspended reads] in Hres, Huser, Hbatches.
  assert (Hsame : forall a',
    control a' = control a ->
    invariant {| worker := a'; suspended := susp; reads := n |} /\
    (~ stalledWorker {| worker := a; suspended := susp; reads := n |} ->
     ~ stalledWorker {| worker := a'; suspended := susp; reads := n |})).
  { intros a' Hc. apply control_fields in Hc as (C1 & C2 & C3 & C4 & C5 & C6).
    unfold invariant, atRest, preparingRun, awaitingRun, stalledWorker, resting, driving,
      stalled, isBusy in *.
    cbn [worker suspended] in *. rewrite C1, C2, C3, C4, C5, C6. tauto. }
  destruct x as [inputs now|e now|r| | |]; cbn [step worker suspended reads].
  - destruct (validity inputs) as [[Hne Htext]|Hbad].
    2:{ destruct (work_invalid env inputs now a Hbad) as [e ->]. split; [exact Hinv|auto]. }
    destruct (work_accepts env inputs now a Hne Htext)
      as (Hfst & Hq & _ & Hst & _ & Hag & Hflag).
    destruct (work_control env inputs now a) as (Hp & Hproc & _).
    destruct (work env inputs now a) as [c a1]. cbn [fst snd] in *.
    assert (Hu1 : Forall (fun m => kind m = user) (queue a1)).
    { rewrite Hq. apply Forall_app. split; [exact Huser|]. repeat constructor. }
    assert (Hne1 : queue a1 <> []).
    { rewrite Hq. intros H. apply app_eq_nil in H as [_ H]. discriminate. }
    destruct (isBusy a) eqn:Hbusy; subst c.
    + pose proof (abortCurrentRun_control a1) as Hc.
      apply control_fields in Hc as (C1 & C2 & C3 & C4 & C5 & C6).
      unfold invariant, atRest, preparingRun, awaitingRun, stalledWorker, resting,
        driving, stalled, isBusy in *.
      cbn [worker suspended] in *.
      rewrite C1, C2, C3, C4, C5, C6, Hst, Hag, Hp, Hproc.
      split.
      * split.
        { destruct Hclass as [((H & _) & _)|H]; [|tauto].
          rewrite H in Hbusy. discriminate. }
        split; [auto|]. split; assumption.
      * tauto.
    + assert (Hrest : atRest {| worker := a; suspended := susp; reads := n |}).
      { unfold preparingRun, awaitingRun, stalledWorker, driving, stalled, isBusy in *.
        cbn [worker] in *.
        destruct Hclass as [H|[(H & _)|[((H & _) & _)|((H & _) & _)]]];
          [exact H|rewrite H in Hbusy; discriminate|rewrite H in Hbusy; discriminate|].
        unfold isBusy in Hbusy. congruence. }
      destruct Hrest as ((Hidle & Hstate & Hqueue & Hrun & Hpq) & Hsusp).
      cbn [worker suspended] in *. subst susp.
      rewrite Hproc, Hpq.
      assert (Hr0 : resumeStateAfterAbort a = false).
      { destruct (resumeStateAfterAbort a); [|reflexivity].
        exfalso. exact (Hres eq_refl eq_refl Hqueue). }
      destruct (loop_invariant
                  {| worker := setProcessingQueue true a1; suspended := None; reads := n |})
        as [H1 H2]; cbn [worker suspended reads setProcessingQueue queue currentRunPromise
                         processingQueue currentStatus agentState resumeStateAfterAbort];
        [reflexivity|congruence|reflexivity|exact Hu1|intros H; contradiction
        |congruence|].
      split; [exact H1|]. intros _ _. exact H2.
  - destruct (Hsame _ (emitEvent_control env now (ActorAgentEvent e) a)) as [H1 H2].
    split; [exact H1|auto].
  - destruct (currentRunPromise a) eqn:Hp; [|split; [exact Hinv|auto]].
    assert (Hd : awaitingRun {| worker := a; suspended := susp; reads := n |}).
    { unfold atRest, preparingRun, stalledWorker, resting, stalled in *.
      cbn [worker] in *.
      destruct Hclass as [((_ & _ & _ & H & _) & _)|[(_ & H & _)|[H|((_ & H & _) & _)]]];
        [congruence|congruence|exact H|congruence]. }
    destruct Hd as ((Hrun & Hstate & _ & Hproc) & Hsusp).
    cbn [worker suspended] in *. subst susp.
    destruct (finishRun_control a) as (F1 & F2 & F3 & F4 & F5 & F6).
    pose proof (finishRun_queue a) as Fq.
    assert (Hempty : queue a = [] ->
              currentStatus (finishRun a) = idle /\ agentState (finishRun a) = None /\
              resumeStateAfterAbort (finishRun a) = false).
    { intros Hq.
      assert (Hr0 : resumeStateAfterAbort a = false).
      { destruct (resumeStateAfterAbort a); [|reflexivity].
        exfalso. exact (Hres eq_refl eq_refl Hq). }
      rewrite F6, F5, F3, Hq, Hr0. auto. }
    destruct r as [|e].
    + destruct (loop_invariant
                  {| worker := finishRun a; suspended := None; reads := n |})
        as [H1 H2]; cbn [worker suspended reads];
        [reflexivity|exact F1|congruence|rewrite Fq; exact Huser
        |rewrite Fq; exact Hempty|rewrite F3, F5; intros ->; exact Hstate|].
      split; [exact H1|]. intros _ _. exact H2.
    + split; [|intros _ H; exfalso; exact (H e eq_refl)].
      unfold invariant, atRest, preparingRun, awaitingRun, stalledWorker, resting,
        driving, stalled, isBusy.
      cbn [worker suspended setProcessingQueue currentStatus agentState queue
           currentRunPromise processingQueue resumeStateAfterAbort batchesOf].
      rewrite Fq, F1, F3. split; [|split; [auto|split; [assumption|constructor]]].
      destruct (queue a) as [|m rest] eqn:Hq.
      * destruct (Hempty eq_refl) as (E1 & E2 & E3). left. rewrite E1, E2. auto 6.
      * right. right. right. rewrite F6, Hrun.
        destruct (resumeStateAfterAbort a); auto.
  - destruct (Hsame _ (bufferWriteTurn_control env a)) as [H1 H2].
    split; [exact H1|auto].
  - destruct susp as [[batches template|batches prompt]|]; try (split; [exact Hinv|auto]).
    split.
    + unfold invariant, atRest, preparingRun, awaitingRun, stalledWorker in *.
      cbn [worker suspended batchesOf] in *.
      split; [|split; [discriminate|split; assumption]].
      destruct Hclass as [(_ & H)|[H|[(_ & H)|(_ & H)]]]; try discriminate H.
      right. left. destruct H as (H1 & H2 & H3 & _). eauto.
    + intros _ _ _ (_ & H). discriminate H.
  - destruct susp as [[batches template|batches prompt]|]; try (split; [exact Hinv|auto]).
    cbn [batchesOf] in Hbatches.
    destruct (toUserMessages_users env batches Hbatches) as (us & E & _). rewrite E.
    assert (Hprep : preparingRun
              {| worker := a; suspended := Some (AwaitingPrompt batches prompt);
                 reads := n |}).
    { unfold atRest, awaitingRun, stalledWorker in *. cbn [suspended] in *.
      destruct Hclass as [(_ & H)|[H|[(_ & H)|(_ & H)]]]; try discriminate H. exact H. }
    destruct Hprep as (_ & _ & Hproc & _). cbn [worker] in Hproc.
    split.
    + split.
      { right. right. left. split; [|reflexivity]. unfold driving.
        cbn [worker launch setCurrentRunPromise setStatus setStatusField eventsEmit
             setHasEmaReplyInRun setResumeStateAfterAbort setAgentState
             currentStatus agentState currentRunPromise processingQueue].
        split; [reflexivity|]. split; [eauto|]. split; [reflexivity|exact Hproc]. }
      split; [discriminate|]. split; [exact Huser|constructor].
    + intros _ _ _ ((_ & H & _) & _). discriminate H.
Qed.

Lemma initial_invariant : invariant initial /\ atRest initial.
Proof.
  assert (H : atRest initial) by (split; [unfold resting; cbn; auto 6|reflexivity]).
  split; [|exact H]. split; [auto|]. split; [discriminate|]. split; constructor.
Qed.

Lemma steps_invariant (xs : list Step) : forall s,
  invariant s -> invariant (steps env promptFile xs s).
Proof.
  unfold steps. induction xs as [|x xs IH]; intros s H; cbn [fold_left]; [exact H|].
  apply IH, step_invariant, H.
Qed.

Lemma steps_resolving (xs : list Step) : forall s,
  runsResolve xs -> promptFileFound promptFile ->
  invariant s -> ~ stalledWorker s ->
  ~ stalledWorker (steps env promptFile xs s).
Proof.
  unfold steps. induction xs as [|x xs IH]; intros s Hxs Hfile Hinv H; cbn [fold_left];
    [exact H|].
  apply Forall_cons in Hxs as [Hx Hxs].
  destruct (step_invariant x s Hinv) as [H1 H2].
  apply IH; [exact Hxs|exact Hfile|exact H1|]. apply H2; auto.
Qed.

(** X18. After any schedule of inputs, events of the agent, settled runs,
    turns of the buffer chain and resumptions of a suspended iteration, a
    fresh worker is in one of four states: at rest (idle, nothing queued, no
    agent state, no run, no driver); preparing a run (status [preparing],
    the driver suspended inside [buildSystemPrompt], no run in flight);
    waiting for a run (running, agent state present, run in flight); or
    stalled (busy with neither run nor driver).  It is stalled only after a
    run has rejected or the prompt file could not be read.  An idle worker
    is at rest, and a worker with a run in flight is waiting for it. *)
Theorem worker_rests_drives_or_stalls (xs : list Step) :
  let s := steps env promptFile xs initial in
  (atRest s \/ preparingRun s \/ awaitingRun s \/ stalledWorker s) /\
  (runsResolve xs -> promptFileFound promptFile ->
   atRest s \/ preparingRun s \/ awaitingRun s) /\
  (currentStatus (worker s) = idle -> atRest s) /\
  (currentRunPromise (worker s) = true -> awaitingRun s).
Proof.
  intros s. destruct initial_invariant as [Hinv Hrest].
  pose proof (steps_invariant xs initial Hinv) as (Hstate & _). fold s in Hstate.
  split; [exact Hstate|]. split; [|split].
  - intros Hxs Hfile.
    assert (Hns : ~ stalledWorker s).
    { apply steps_resolving; auto.
      intros ((Hb & _) & _). discriminate Hb. }
    tauto.
  - intros Hidle.
    destruct Hstate as [H|[(H & _)|[((H & _) & _)|((H & _) & _)]]];
      [exact H|congruence|congruence|].
    unfold isBusy in H. rewrite Hidle in H. discriminate.
  - intros Hp.
    destruct Hstate as [((_ & _ & _ & H & _) & _)|[(_ & H & _)|[H|((_ & H & _) & _)]]];
      [congruence|congruence|exact H|congruence].
Qed.

(** The schedule in which nothing comes in while an iteration is
    suspended is the schedule of [Actor.act]: with a prompt file that holds
    the configured text, an action of [Actor] is its step followed by the
    two resumptions. *)
Lemma act_is_uninterrupted (x : Action) a (n : nat) :
  (forall k, promptFile k = inl (config_systemPrompt env)) ->
  worker (steps env promptFile (uninterrupted x)
            {| worker := a; suspended := None; reads := n |}) = act env x a /\
  suspended (steps env promptFile (uninterrupted x)
               {| worker := a; suspended := None; reads := n |}) = None.
Proof.
  intros Hfile.
  assert (Hloop : forall b,
    worker (steps env promptFile [BufferRead; PromptBuilt]
              (loop env promptFile {| worker := b; suspended := None; reads := n |}))
    = processLoop env b /\
    suspended (steps env promptFile [BufferRead; PromptBuilt]
                 (loop env promptFile {| worker := b; suspended := None; reads := n |}))
    = None).
  { intros b. unfold loop, processLoop, startRun. cbn [worker suspended reads].
    destruct (queue b) as [|m rest] eqn:Hq; [split; reflexivity|].
    cbn [setStatus setStatusField eventsEmit setQueue queue resumeStateAfterAbort
         agentState].
    rewrite Hq, Hfile.
    destruct (resumeStateAfterAbort b), (agentState b) as [st|];
      unfold steps; cbn [fold_left step worker suspended reads];
      destruct (toUserMessages env (m :: rest)); split; reflexivity. }
  unfold uninterrupted.
  change (steps env promptFile (ofAction x :: [BufferRead; PromptBuilt])
            {| worker := a; suspended := None; reads := n |})
    with (steps env promptFile [BufferRead; PromptBuilt]
            (step env promptFile (ofAction x)
               {| worker := a; suspended := None; reads := n |})).
  destruct x as [inputs now|e now|r|]; cbn [ofAction step worker suspended reads act].
  - destruct (work env inputs now a) as [[e|[|]] a1]; [split; reflexivity ..|].
    unfold processQueue. destruct (processingQueue a1); [split; reflexivity|].
    exact (Hloop (setProcessingQueue true a1)).
  - split; reflexivity.
  - destruct (currentRunPromise a); [|split; reflexivity].
    destruct r as [|e]; [|split; reflexivity].
    exact (Hloop (finishRun a)).
  - split; reflexivity.
Qed.

End InterleavedStates.

(** A second input that comes in while the worker prepares the run of the
    first leaves it preparing, with the input queued; and a worker whose
    prompt file is missing is stalled by its first input, with no run
    rejected. *)
Example input_while_preparing :
  let env := ActorScenario.inMemory in
  let s := Interleaved.steps env ActorScenario.promptFile
             [Interleaved.Call (ActorScenario.say "one") 1;
              Interleaved.Call (ActorScenario.say "two") 2] Interleaved.initial in
  let s' := Interleaved.steps env ActorScenario.noPromptFile
              [Interleaved.Call (ActorScenario.say "one") 1] Interleaved.initial in
  InterleavedSpec.preparingRun s /\
  map (fun m => Actor.time m) (Actor.queue (Interleaved.worker s)) = [2%Z] /\
  Actor.resumeStateAfterAbort (Interleaved.worker s) = true /\
  InterleavedSpec.stalledWorker s' /\
  Actor.currentStatus (Interleaved.worker s') = Actor.preparing /\
  Actor.queue (Interleaved.worker s') = [].
Proof.
  intros env s s'. repeat split; try reflexivity. vm_compute. eauto.
Qed.
